(** * Scanline polygon fill and scanline triangulation (ET/AET)

    A shallow embedding of [PolygonFillAlgorithm] from
    [t1CG/core/polygon_fill_algorithm.h]: [calculateInverseSlope],
    [buildEdgeTable], [fillPolygon] and [generateTriangulation]; of the
    caller of the triangulation, [SceneManager::createExtrudedObject]
    ([t1CG/core/scene_manager.h]); and of the colour palette of the user
    interface ([renderColorPalette] and [handleMouseClick] in
    [t1CG/auxcode]).

    - [int] coordinates and rows are [Z]; the embedding is exact for inputs on
      which no [int] operation of the source overflows (device coordinates).
    - [double] values are IEEE 754 binary64 numbers, [spec_float] with
      [prec = 53] and [emax = 1024], with the library's rounding operations.
    - OpenGL calls are recorded as the list of primitives they draw. *)

From Stdlib Require Import ZArith List Bool Lia Arith.
From Stdlib Require Import Floats.SpecFloat.
From Stdlib Require Import Sorting.Permutation Sorting.Sorted.
Import ListNotations.

Set Implicit Arguments.
Open Scope Z_scope.

(* ================================================================== *)
(** ** The [double] type of the source *)

Module Double.

Definition prec : Z := 53.
Definition emax : Z := 1024.

Definition double : Type := spec_float.

Definition zero : double := S754_zero false.

(** The literal [0.5]. *)
Definition half : double := S754_finite false 4503599627370496 (-53).

Definition add : double -> double -> double := SFadd prec emax.
Definition div : double -> double -> double := SFdiv prec emax.
Definition ltb : double -> double -> bool := SFltb.
Definition eqb : double -> double -> bool := SFeqb.

(** [static_cast<double>(int)]. *)
Definition of_int (z : Z) : double := binary_normalize prec emax z 0 false.

(** [static_cast<int>(double)] and the C cast [(int)x]: truncation towards
    zero.  The conversion of an infinity or a NaN is undefined in C++; the
    model gives it the value the x86 conversion instruction returns. *)
Definition to_int (x : double) : Z :=
  match x with
  | S754_zero _ => 0
  | S754_finite s m e =>
      let a := if 0 <=? e then Z.shiftl (Zpos m) e
               else Z.shiftr (Zpos m) (- e) in
      if s then - a else a
  | _ => - 2147483648
  end.

End Double.

Definition double : Type := Double.double.

(* ================================================================== *)
(** ** Data model *)

Record Point2D : Type := mkPoint2D {
  coordinateX : Z;
  coordinateY : Z
}.

(** Modelled from the spec: [EdgeData] is declared in [data_structures.h],
    which is not among the sources.  The constructor call
    [EdgeData(maxY, x, inverseSlope, minY)] and the member accesses
    [maximumY], [currentX], [inverseSlope] fix three fields; the fourth
    holds the bucket row ("yMin ... used only at construction"). *)
Record EdgeData : Type := mkEdgeData {
  maximumY : Z;
  currentX : double;
  inverseSlope : double;
  minimumY : Z
}.

(** Modelled from the spec: [EdgeTable] is declared in [data_structures.h]
    too: "an array indexed by scanline row (0..maxHeight-1); each slot holds
    the (possibly empty) set of Edge instances".  [EdgeTable edgeTable(h)]
    builds [h] empty slots (none when [h <= 0]). *)
Definition EdgeTable : Type := list (list EdgeData).

Definition emptyEdgeTable (maxHeight : Z) : EdgeTable :=
  repeat [] (Z.to_nat maxHeight).

(** [edgeTable.size()] *)
Definition tableSize (et : EdgeTable) : Z := Z.of_nat (length et).

(** [edgeTable[y]], read only under the guard [y < edgeTable.size()] in the
    source; rows outside the table hold no edge. *)
Definition bucket (et : EdgeTable) (y : Z) : list EdgeData :=
  if y <? 0 then [] else nth (Z.to_nat y) et [].

(** [edgeTable[row].push_back(e)] *)
Fixpoint pushAt (et : EdgeTable) (row : nat) (e : EdgeData) : EdgeTable :=
  match et, row with
  | [], _ => []
  | b :: t, O => (b ++ [e]) :: t
  | b :: t, S r => b :: pushAt t r e
  end.

Definition pushEdge (et : EdgeTable) (row : Z) (e : EdgeData) : EdgeTable :=
  if row <? 0 then et else pushAt et (Z.to_nat row) e.

Definition isEmpty (A : Type) (l : list A) : bool :=
  match l with [] => true | _ => false end.

(* ================================================================== *)
(** ** [calculateInverseSlope] *)

Definition calculateInverseSlope (point1 point2 : Point2D) : double :=
  let deltaX := Double.of_int (coordinateX point2 - coordinateX point1) in
  let deltaY := Double.of_int (coordinateY point2 - coordinateY point1) in
  if Double.eqb deltaY Double.zero then Double.zero
  else Double.div deltaX deltaY.

(* ================================================================== *)
(** ** [buildEdgeTable] *)

Definition origin : Point2D := mkPoint2D 0 0.

(** [polygonVertices[i]] *)
Definition vertexAt (polygonVertices : list Point2D) (i : nat) : Point2D :=
  nth i polygonVertices origin.

Definition inTable (maxHeight y : Z) : bool := (0 <=? y) && (y <? maxHeight).

(** One iteration of the [for] loop over [vertexIndex]: the bucket row and
    the edge it pushes, if any.  The index of the previous vertex is
    [(vertexIndex - 1 + size) % size] in [size_t] arithmetic, which is
    [(vertexIndex + size - 1) mod size]. *)
Definition edgeEntry (polygonVertices : list Point2D) (maxHeight : Z)
    (vertexIndex : nat) : option (Z * EdgeData) :=
  let size := length polygonVertices in
  let currentVertex := vertexAt polygonVertices vertexIndex in
  let nextVertex := vertexAt polygonVertices ((vertexIndex + 1) mod size) in
  if coordinateY currentVertex =? coordinateY nextVertex then
    let minY := coordinateY currentVertex in
    let maxY := coordinateY nextVertex in
    let initX := Double.of_int (coordinateX currentVertex) in
    if inTable maxHeight minY
    then Some (minY, mkEdgeData maxY initX Double.zero minY)
    else None
  else
    let '(minYPoint, maxYPoint) :=
      if coordinateY currentVertex >? coordinateY nextVertex
      then (nextVertex, currentVertex)
      else (currentVertex, nextVertex) in
    let inverseSlope := calculateInverseSlope minYPoint maxYPoint in
    let initialX := Double.of_int (coordinateX minYPoint) in
    let maximumY := coordinateY maxYPoint in
    let minimumY := coordinateY minYPoint in
    let '(minimumY, initialX) :=
      if inTable maxHeight minimumY then
        let '(prevVertex, nextAdjacentVertex) :=
          if (coordinateX minYPoint =? coordinateX currentVertex)
             && (coordinateY minYPoint =? coordinateY currentVertex)
          then (vertexAt polygonVertices ((vertexIndex + size - 1) mod size),
                nextVertex)
          else (currentVertex,
                vertexAt polygonVertices ((vertexIndex + 2) mod size)) in
        let prevAbove := coordinateY prevVertex <? minimumY in
        let nextAbove := coordinateY nextAdjacentVertex <? minimumY in
        if Bool.eqb prevAbove nextAbove then
          if prevAbove then (minimumY, initialX)
          else (minimumY + 1, Double.add initialX inverseSlope)
        else (minimumY, initialX)
      else (minimumY, initialX) in
    if inTable maxHeight minimumY
    then Some (minimumY, mkEdgeData maximumY initialX inverseSlope minimumY)
    else None.

(** The endpoints of the edge that starts at vertex [i], by row, and the
    vertex adjacent to its lower endpoint other than its upper endpoint. *)
Definition lowerEndpoint (p : list Point2D) (i : nat) : Point2D :=
  let cur := vertexAt p i in
  let next := vertexAt p ((i + 1) mod length p) in
  if coordinateY cur >? coordinateY next then next else cur.

Definition upperEndpoint (p : list Point2D) (i : nat) : Point2D :=
  let cur := vertexAt p i in
  let next := vertexAt p ((i + 1) mod length p) in
  if coordinateY cur >? coordinateY next then cur else next.

Definition otherNeighbour (p : list Point2D) (i : nat) : Point2D :=
  let cur := vertexAt p i in
  let next := vertexAt p ((i + 1) mod length p) in
  if coordinateY cur >? coordinateY next
  then vertexAt p ((i + 2) mod length p)
  else vertexAt p ((i + length p - 1) mod length p).

(** The binning rule in the words of the specification: "if both
    neighboring vertices lie strictly above the lower endpoint's row,
    increment yMin by 1 and advance xAtYMin by one inverseSlope step"; "if
    exactly one neighbor is above, no adjustment occurs; if both neighbors
    are below, no adjustment occurs either". *)
Definition specEdgeEntry (p : list Point2D) (i : nat)
    : option (Z * EdgeData) :=
  let lo := lowerEndpoint p i in
  let hi := upperEndpoint p i in
  let other := otherNeighbour p i in
  let yMin := coordinateY lo in
  let slope := calculateInverseSlope lo hi in
  let x := Double.of_int (coordinateX lo) in
  if (coordinateY hi >? yMin) && (coordinateY other >? yMin)
  then Some (yMin + 1,
             mkEdgeData (coordinateY hi) (Double.add x slope) slope
                        (yMin + 1))
  else Some (yMin, mkEdgeData (coordinateY hi) x slope yMin).

Definition pushEntry (et : EdgeTable) (entry : option (Z * EdgeData))
    : EdgeTable :=
  match entry with
  | Some (row, e) => pushEdge et row e
  | None => et
  end.

Definition buildEdgeTable (polygonVertices : list Point2D) (maxHeight : Z)
    : EdgeTable :=
  let edgeTable := emptyEdgeTable maxHeight in
  if (length polygonVertices <? 2)%nat then edgeTable
  else
    fold_left
      (fun et vertexIndex =>
         pushEntry et (edgeEntry polygonVertices maxHeight vertexIndex))
      (seq 0 (length polygonVertices)) edgeTable.

(* ================================================================== *)
(** ** The scanline loop shared by [fillPolygon] and [generateTriangulation]

    The two [while] loops of the source (lines 147-208 and 236-302) are the
    same text but for the emission step; [scanLoop] takes that step as the
    parameter [emit]. *)

(** The first loop: [while (y < size && edgeTable[y].empty()) y++]. *)
Fixpoint skipEmpty (et : EdgeTable) : nat :=
  match et with
  | [] => O
  | b :: t => if isEmpty b then S (skipEmpty t) else O
  end.

(** [std::sort] by [currentX] with [<].  The order of edges with equal
    [currentX] is left open by [std::sort]; the model keeps them in their
    insertion order. *)
Fixpoint insertByX (e : EdgeData) (l : list EdgeData) : list EdgeData :=
  match l with
  | [] => [e]
  | h :: t =>
      if Double.ltb (currentX h) (currentX e) then h :: insertByX e t
      else e :: h :: t
  end.

Fixpoint sortAET (l : list EdgeData) : list EdgeData :=
  match l with
  | [] => []
  | h :: t => insertByX h (sortAET t)
  end.

(** [edge.currentX += edge.inverseSlope] *)
Definition advanceX (e : EdgeData) : EdgeData :=
  mkEdgeData (maximumY e) (Double.add (currentX e) (inverseSlope e))
             (inverseSlope e) (minimumY e).

(** [erase(remove_if(... edge.maximumY <= currentScanLine ...))] *)
Definition removeFinished (currentScanLine : Z) (aet : list EdgeData)
    : list EdgeData :=
  filter (fun e => negb (maximumY e <=? currentScanLine)) aet.

(** The loop condition
    [currentScanLine < edgeTable.size() || !activeEdgeTable.empty()]. *)
Definition scanning (et : EdgeTable) (y : Z) (aet : list EdgeData) : bool :=
  (y <? tableSize et) || negb (isEmpty aet).

(** Steps 1 and 2 of an iteration: the sorted AET the emission step sees. *)
Definition mergeRow (et : EdgeTable) (y : Z) (aet : list EdgeData)
    : list EdgeData :=
  sortAET (aet ++ bucket et y).

(** Steps after the emission: the AET the next iteration starts from. *)
Definition nextAET (y : Z) (sorted : list EdgeData) : list EdgeData :=
  removeFinished (y + 1) (map advanceX sorted).

Section ScanLoop.

Variable Out : Type.
Variable emit : Z -> list EdgeData -> list Out.

(** The [while] loop; [None] when [fuel] iterations were not enough. *)
Fixpoint scanLoop (fuel : nat) (et : EdgeTable) (currentScanLine : Z)
    (activeEdgeTable : list EdgeData) : option (list Out) :=
  match fuel with
  | O => None
  | S fuel' =>
      if scanning et currentScanLine activeEdgeTable then
        let sorted := mergeRow et currentScanLine activeEdgeTable in
        let out := emit currentScanLine sorted in
        let y' := currentScanLine + 1 in
        let aet' := nextAET currentScanLine sorted in
        if isEmpty aet' && (tableSize et <=? y') then Some out
        else
          match scanLoop fuel' et y' aet' with
          | Some rest => Some (out ++ rest)
          | None => None
          end
      else Some []
  end.

(** [n] iterations of the loop body, whatever the loop condition says. *)
Fixpoint runRows (n : nat) (et : EdgeTable) (y : Z) (aet : list EdgeData)
    : list Out :=
  match n with
  | O => []
  | S n' =>
      let sorted := mergeRow et y aet in
      emit y sorted ++ runRows n' et (y + 1) (nextAET y sorted)
  end.

End ScanLoop.

(** Largest [maximumY] of a list of edges (0 for none). *)
Definition maxYOf (l : list EdgeData) : Z :=
  fold_right (fun e m => Z.max (maximumY e) m) 0 l.

(** A number of iterations the loop never exceeds on [et]. *)
Definition scanFuel (et : EdgeTable) : nat :=
  S (Z.to_nat (Z.max (tableSize et) (maxYOf (concat et)))).

(** The code around the loop: the length check, the table, the first
    non-empty row and the early return on an empty table. *)
Definition scanPolygon (Out : Type) (emit : Z -> list EdgeData -> list Out)
    (polygonVertices : list Point2D) (maxHeight : Z) : option (list Out) :=
  if (length polygonVertices <? 3)%nat then Some []
  else
    let edgeTable := buildEdgeTable polygonVertices maxHeight in
    let currentScanLine := Z.of_nat (skipEmpty edgeTable) in
    if tableSize edgeTable <=? currentScanLine then Some []
    else scanLoop emit (scanFuel edgeTable) edgeTable currentScanLine [].

(** The loop [for (i = 0; i < size - 1; i += 2)] over the pairs
    [(aet[i], aet[i+1])]; it is entered under the guard [size >= 2], so
    [size - 1] does not wrap.  [steps] bounds the number of iterations. *)
Definition noEdge : EdgeData := mkEdgeData 0 Double.zero Double.zero 0.

Fixpoint forPairs (Out : Type) (body : EdgeData -> EdgeData -> list Out)
    (steps : nat) (edgeIndex : nat) (aet : list EdgeData) : list Out :=
  match steps with
  | O => []
  | S steps' =>
      if (edgeIndex <? length aet - 1)%nat then
        body (nth edgeIndex aet noEdge) (nth (edgeIndex + 1) aet noEdge)
        ++ forPairs body steps' (edgeIndex + 2) aet
      else []
  end.

(* ================================================================== *)
(** ** [fillPolygon] *)

(** What [fillPolygon] draws.  [DrawSpan y x1 x2] is the [GL_LINES] segment
    given by [glVertex2i(x1, y); glVertex2i(x2 + 1, y)], the pixels
    [x1 .. x2] of row [y]; [DrawPoint y x] is the [GL_POINTS] vertex
    [glVertex2i(x, y)]. *)
Inductive Drawn : Type :=
| DrawSpan (row xStart xEnd : Z)
| DrawPoint (row x : Z).

(** [static_cast<int>(edge.currentX + 0.5)] *)
Definition roundX (e : EdgeData) : Z :=
  Double.to_int (Double.add (currentX e) Double.half).

Definition spanOf (maxHeight maxWidth currentScanLine : Z)
    (edgeA edgeB : EdgeData) : list Drawn :=
  let x1 := roundX edgeA in
  let x2 := roundX edgeB in
  let '(x1, x2) := if x1 >? x2 then (x2, x1) else (x1, x2) in
  let x1 := if x1 <? 0 then 0 else x1 in
  let x2 := if x2 >=? maxWidth then maxWidth - 1 else x2 in
  if (x1 <=? x2) && inTable maxHeight currentScanLine
  then [DrawSpan currentScanLine x1 x2]
  else [].

Definition pointOf (maxHeight maxWidth currentScanLine : Z)
    (aet : list EdgeData) : list Drawn :=
  let x := roundX (nth (length aet - 1) aet noEdge) in
  if (0 <=? x) && (x <? maxWidth) && inTable maxHeight currentScanLine
  then [DrawPoint currentScanLine x]
  else [].

(** The emission step of [fillPolygon] (lines 160-189). *)
Definition emitFill (maxHeight maxWidth currentScanLine : Z)
    (aet : list EdgeData) : list Drawn :=
  if (2 <=? length aet)%nat then
    forPairs (spanOf maxHeight maxWidth currentScanLine) (length aet) 0 aet
    ++ (if (length aet mod 2 =? 1)%nat
        then pointOf maxHeight maxWidth currentScanLine aet
        else [])
  else [].

Definition fillPolygon (polygonVertices : list Point2D)
    (maxHeight maxWidth : Z) : option (list Drawn) :=
  scanPolygon (emitFill maxHeight maxWidth) polygonVertices maxHeight.

(* ================================================================== *)
(** ** [generateTriangulation] *)

(** A triangle is a [std::vector<Point2D>] of three points. *)
Definition Triangle : Type := list Point2D.

Definition trapezoid (currentScanLine : Z) (edgeA edgeB : EdgeData)
    : list Triangle :=
  let x1_start := currentX edgeA in
  let x2_start := currentX edgeB in
  let x1_end := Double.add x1_start (inverseSlope edgeA) in
  let x2_end := Double.add x2_start (inverseSlope edgeB) in
  let p1 := mkPoint2D (Double.to_int x1_start) currentScanLine in
  let p2 := mkPoint2D (Double.to_int x2_start) currentScanLine in
  let p3 := mkPoint2D (Double.to_int x1_end) (currentScanLine + 1) in
  let p4 := mkPoint2D (Double.to_int x2_end) (currentScanLine + 1) in
  [[p1; p2; p3]; [p2; p4; p3]].

(** The emission step of [generateTriangulation] (lines 257-281). *)
Definition emitTriangles (currentScanLine : Z) (aet : list EdgeData)
    : list Triangle :=
  if (2 <=? length aet)%nat
  then forPairs (trapezoid currentScanLine) (length aet) 0 aet
  else [].

Definition generateTriangulation (polygonVertices : list Point2D)
    (maxHeight : Z) : option (list Triangle) :=
  scanPolygon emitTriangles polygonVertices maxHeight.

(** The rows at which the loop runs its emission step, each with the sorted
    AET it sees there. *)
Definition emitState (y : Z) (aet : list EdgeData)
    : list (Z * list EdgeData) := [(y, aet)].

Definition scanTrace (polygonVertices : list Point2D) (maxHeight : Z)
    : option (list (Z * list EdgeData)) :=
  scanPolygon emitState polygonVertices maxHeight.

(** Vertical translation by [k] rows: of a vertex, a polygon, an edge of
    the table, a pushed entry and a drawn primitive. *)
Definition shiftPoint (k : Z) (v : Point2D) : Point2D :=
  mkPoint2D (coordinateX v) (coordinateY v + k).

Definition translate (k : Z) (p : list Point2D) : list Point2D :=
  map (shiftPoint k) p.

Definition shiftEdge (k : Z) (e : EdgeData) : EdgeData :=
  mkEdgeData (maximumY e + k) (currentX e) (inverseSlope e) (minimumY e + k).

Definition shiftEntry (k : Z) (x : Z * EdgeData) : Z * EdgeData :=
  (fst x + k, shiftEdge k (snd x)).

Definition shiftDrawn (k : Z) (d : Drawn) : Drawn :=
  match d with
  | DrawSpan row xStart xEnd => DrawSpan (row + k) xStart xEnd
  | DrawPoint row x => DrawPoint (row + k) x
  end.

(** Neither the polygon nor its translation by [k] is clipped against
    [0, maxHeight): every vertex lies on a row of the table, before and
    after the translation. *)
Definition unclipped (maxHeight k : Z) (p : list Point2D) : Prop :=
  forall v, In v p ->
    0 <= coordinateY v < maxHeight /\ 0 <= coordinateY v + k < maxHeight.

(** [n] steps of [currentX += inverseSlope]. *)
Fixpoint advance (n : nat) (e : EdgeData) : EdgeData :=
  match n with
  | O => e
  | S n' => advanceX (advance n' e)
  end.

(** An edge binned at row [fst x], as the AET holds it on row [y]. *)
Definition advanceTo (y : Z) (x : Z * EdgeData) : EdgeData :=
  advance (Z.to_nat (y - fst x)) (snd x).

(** The edges binned before row [y] that are still in the AET when the
    iteration of row [y] starts. *)
Definition isCarried (y : Z) (x : Z * EdgeData) : bool :=
  (fst x <? y) && (y <? maximumY (snd x)).

(** The edges in the AET at the emission step of row [y]: those carried,
    and those binned at [y]. *)
Definition isActive (y : Z) (x : Z * EdgeData) : bool :=
  (fst x <=? y) && ((fst x =? y) || (y <? maximumY (snd x))).

Definition carriedAt (E : list (Z * EdgeData)) (y : Z) : list EdgeData :=
  map (advanceTo y) (filter (isCarried y) E).

Definition activeAt (E : list (Z * EdgeData)) (y : Z) : list EdgeData :=
  map (advanceTo y) (filter (isActive y) E).

Definition traceOf (polygonVertices : list Point2D) (maxHeight : Z)
    : list (Z * list EdgeData) :=
  match scanTrace polygonVertices maxHeight with
  | Some tr => tr
  | None => []
  end.

(** A drawn primitive lies in the raster [maxWidth] x [maxHeight]. *)
Definition inRaster (maxHeight maxWidth : Z) (d : Drawn) : Prop :=
  match d with
  | DrawSpan row xStart xEnd =>
      0 <= row < maxHeight /\ 0 <= xStart /\ xStart <= xEnd
      /\ xEnd <= maxWidth - 1
  | DrawPoint row x => 0 <= row < maxHeight /\ 0 <= x < maxWidth
  end.

(* ================================================================== *)
(** ** Example polygons *)

Definition pt (x y : Z) : Point2D := mkPoint2D x y.

(** Scenario A: the axis-aligned square. *)
Definition square : list Point2D := [pt 10 10; pt 50 10; pt 50 50; pt 10 50].

(** The edges of the square in the table: the horizontal edges of rows 10
    and 50, and the two vertical edges. *)
Definition squareTop : EdgeData :=
  mkEdgeData 10 (Double.of_int 10) Double.zero 10.
Definition squareBottom : EdgeData :=
  mkEdgeData 50 (Double.of_int 50) Double.zero 50.
Definition squareLeft : EdgeData :=
  mkEdgeData 50 (Double.of_int 10) Double.zero 11.
Definition squareRight : EdgeData :=
  mkEdgeData 50 (Double.of_int 50) Double.zero 11.

(** Scenario B: a triangle with a horizontal edge on row 0. *)
Definition triangleB : list Point2D := [pt 0 0; pt 10 0; pt 5 10].

(** An L-shaped hexagon with a horizontal edge on row 5. *)
Definition ell : list Point2D :=
  [pt 0 0; pt 10 0; pt 10 5; pt 5 5; pt 5 10; pt 0 10].

(** The two edges in the AET of [ell] on row 5: the left edge and the
    horizontal edge of row 5. *)
Definition ellLeft : EdgeData := mkEdgeData 10 Double.zero Double.zero 1.
Definition ellStep : EdgeData :=
  mkEdgeData 5 (Double.of_int 10) Double.zero 5.

(** A "V" standing on row 0 and reaching row 8, with its two slanted
    edges as [buildEdgeTable] bins them (at row 1). *)
Definition vee : list Point2D := [pt 0 0; pt 4 8; pt 8 0].

Definition veeLeft : EdgeData :=
  let slope := calculateInverseSlope (pt 0 0) (pt 4 8) in
  mkEdgeData 8 (Double.add (Double.of_int 0) slope) slope 1.

Definition veeRight : EdgeData :=
  let slope := calculateInverseSlope (pt 8 0) (pt 4 8) in
  mkEdgeData 8 (Double.add (Double.of_int 8) slope) slope 1.

(** A wedge whose lowest vertex lies on row 4. *)
Definition wedge : list Point2D := [pt 0 10; pt 5 4; pt 10 10].

(** An axis-aligned rectangle with corners [(x0, y0)] and [(x1, y1)], its
    outline starting with the side on row [y0], as Scenario A lists the
    square. *)
Definition rectangle (x0 y0 x1 y1 : Z) : list Point2D :=
  [pt x0 y0; pt x1 y0; pt x1 y1; pt x0 y1].

(** The four edges [buildEdgeTable] makes of the rectangle, with the bucket
    row of each: the two horizontal sides on their own rows, the two
    vertical sides one row below [y0]. *)
Definition rectangleEdges (x0 y0 x1 y1 : Z) (s1 s3 : bool)
    : list (Z * EdgeData) :=
  [(y0, mkEdgeData y0 (Double.of_int x0) Double.zero y0);
   (y0 + 1, mkEdgeData y1 (Double.of_int x1) (S754_zero s1) (y0 + 1));
   (y1, mkEdgeData y1 (Double.of_int x1) Double.zero y1);
   (y0 + 1, mkEdgeData y1 (Double.of_int x0) (S754_zero s3) (y0 + 1))].

(* ================================================================== *)
(** ** Auxiliary definitions used in the statements *)

(** The pushes of [buildEdgeTable], in the order of the [for] loop. *)
Definition entriesOf (polygonVertices : list Point2D) (maxHeight : Z)
    : list (option (Z * EdgeData)) :=
  map (edgeEntry polygonVertices maxHeight) (seq 0 (length polygonVertices)).

(** The entries that are pushed, as (bucket row, edge). *)
Fixpoint somes (A : Type) (l : list (option A)) : list A :=
  match l with
  | [] => []
  | Some x :: t => x :: somes t
  | None :: t => somes t
  end.

Definition binnedAt (r : Z) (E : list (Z * EdgeData)) : list EdgeData :=
  map snd (filter (fun x => fst x =? r) E).

(** The rows [y, y+1, ..., y+n-1]. *)
Fixpoint rowsFrom (y : Z) (n : nat) : list Z :=
  match n with
  | O => []
  | S n' => y :: rowsFrom (y + 1) n'
  end.

(** The rows strictly between [y0] and [y1]. *)
Definition rowsBetween (y0 y1 : Z) : list Z :=
  rowsFrom (y0 + 1) (Z.to_nat (y1 - y0 - 1)).

(** The two triangles of the strip between rows [y] and [y + 1] over the
    columns [lo] and [hi]. *)
Definition stripOf (lo hi y : Z) : list Triangle :=
  [[pt lo y; pt hi y; pt lo (y + 1)]; [pt hi y; pt hi (y + 1); pt lo (y + 1)]].

(** The pairs [(aet[0], aet[1]), (aet[2], aet[3]), ...]; a last edge without
    a partner is not in any pair. *)
Fixpoint pairsOf (l : list EdgeData) : list (EdgeData * EdgeData) :=
  match l with
  | a :: b :: rest => (a, b) :: pairsOf rest
  | _ => []
  end.

(** At the top of an iteration the AET holds edges of earlier rows that have
    not reached their [maximumY]. *)
Definition carriedOk (y : Z) (aet : list EdgeData) : Prop :=
  forall e, In e aet -> minimumY e < y < maximumY e.

(** At the emission step the edges that just entered may end on this very
    row. *)
Definition emissionOk (et : EdgeTable) (y : Z) (aet : list EdgeData) : Prop :=
  forall e, In e aet ->
    minimumY e <= y <= maximumY e
    /\ (minimumY e < y -> y < maximumY e)
    /\ (minimumY e = y <-> In e (bucket et y)).

(** Every vertex of the polygon lies on a row of the table. *)
Definition withinTable (maxHeight : Z) (p : list Point2D) : Prop :=
  forall v, In v p -> 0 <= coordinateY v < maxHeight.

(** The row a drawn primitive lies on, and whether it is a span. *)
Definition drawnRow (d : Drawn) : Z :=
  match d with
  | DrawSpan row _ _ => row
  | DrawPoint row _ => row
  end.

Definition isSpan (d : Drawn) : bool :=
  match d with
  | DrawSpan _ _ _ => true
  | DrawPoint _ _ => false
  end.

(** The row of the first vertex of a triangle. *)
Definition triangleRow (t : Triangle) : Z :=
  match t with
  | v :: _ => coordinateY v
  | [] => 0
  end.

(** The AET is in ascending order of [currentX]: no edge is followed by one
    with a smaller [currentX]. *)
Definition ascendingX (aet : list EdgeData) : Prop :=
  Sorted (fun a b => Double.ltb (currentX b) (currentX a) = false) aet.

(* ================================================================== *)
(** ** [SceneManager::createExtrudedObject] (scene_manager.h)

    The caller of [generateTriangulation]: it extrudes a 2D outline into a
    mesh, with side walls from the outline and two caps from the triangles
    of the scanline triangulation at [maxHeight = 2000]. *)

(** The [float] type of the source: IEEE 754 binary32.  Expressions of type
    [float] are taken to be evaluated in binary32. *)
Module Float32.

Definition prec : Z := 24.
Definition emax : Z := 128.

Definition float : Type := spec_float.

Definition zero : float := S754_zero false.

(** The literals [0.01f] and [2.0f]. *)
Definition scale : float := S754_finite false 10737418 (-30).
Definition two : float := S754_finite false 8388608 (-22).

Definition add : float -> float -> float := SFadd prec emax.
Definition sub : float -> float -> float := SFsub prec emax.
Definition mul : float -> float -> float := SFmul prec emax.
Definition div : float -> float -> float := SFdiv prec emax.
Definition opp : float -> float := SFopp.

(** The conversion of an [int] operand to [float]. *)
Definition of_int (z : Z) : float := binary_normalize prec emax z 0 false.

End Float32.

(** Modelled from the spec: [Object3D] is declared in [object_3d.h], which
    is not among the sources; the specification only calls it "a
    caller-owned mesh builder".  From its use here: [addVertex(x, y, z)]
    appends one vertex to [vertices] (the caller takes
    [vertices.size() - 1] as the index of the vertex it has just added) and
    [addFace] appends one face, a list of vertex indices.  The normals and
    the colour set after the mesh is built are left out. *)
Record Object3D : Type := mkObject3D {
  vertices : list (Float32.float * Float32.float * Float32.float);
  faces : list (list nat)
}.

Definition newObject3D : Object3D := mkObject3D [] [].

Definition addVertex (obj : Object3D) (x y z : Float32.float) : Object3D :=
  mkObject3D (vertices obj ++ [(x, y, z)]) (faces obj).

Definition addFace (obj : Object3D) (face : list nat) : Object3D :=
  mkObject3D (vertices obj) (faces obj ++ [face]).

(** [centerX += p.coordinateX] over the outline, then [centerX /= n]. *)
Definition centroidOf (coordinate : Point2D -> Z) (vertices2D : list Point2D)
    : Float32.float :=
  let sum :=
    fold_left (fun c p => Float32.add c (Float32.of_int (coordinate p)))
              vertices2D Float32.zero in
  if (0 <? length vertices2D)%nat
  then Float32.div sum (Float32.of_int (Z.of_nat (length vertices2D)))
  else sum.

(** [addVertex((p.x - centerX) * scale, -(p.y - centerY) * scale, z)] *)
Definition addOutlineVertex (centerX centerY z : Float32.float)
    (obj : Object3D) (p : Point2D) : Object3D :=
  addVertex obj
    (Float32.mul (Float32.sub (Float32.of_int (coordinateX p)) centerX)
                 Float32.scale)
    (Float32.mul
       (Float32.opp (Float32.sub (Float32.of_int (coordinateY p)) centerY))
       Float32.scale)
    z.

(** One side wall: the quad [i, next, next + n, i + n]. *)
Definition sideFace (n i : nat) : list nat :=
  let next := ((i + 1) mod n)%nat in
  [i; next; (next + n)%nat; (i + n)%nat].

(** The body of a cap loop for one triangle: a vertex per listed point,
    each followed by [faceIndices.push_back(vertices.size() - 1)], then
    [addFace(faceIndices)]. *)
Definition addCapFace (centerX centerY z : Float32.float)
    (obj : Object3D) (points : list Point2D) : Object3D :=
  let '(obj', faceIndices) :=
    fold_left
      (fun (state : Object3D * list nat) p =>
         let obj1 := addOutlineVertex centerX centerY z (fst state) p in
         (obj1, snd state ++ [(length (vertices obj1) - 1)%nat]))
      points (obj, []) in
  addFace obj' faceIndices.

(** The points [tri[2], tri[1], tri[0]] the back cap reads. *)
Definition backPoints (tri : Triangle) : list Point2D :=
  map (fun i => nth i tri origin) [2; 1; 0]%nat.

(** The triangles of the caps; [generateTriangulation] always returns. *)
Definition capTriangles (vertices2D : list Point2D) : list Triangle :=
  match generateTriangulation vertices2D 2000 with
  | Some triangles => triangles
  | None => []
  end.

(** The mesh [createExtrudedObject] builds (lines 103-180), as it stands
    when [calculateNormals] is called. *)
Definition extrudedMesh (vertices2D : list Point2D) (depth : Float32.float)
    : Object3D :=
  let obj := newObject3D in
  let centerX := centroidOf coordinateX vertices2D in
  let centerY := centroidOf coordinateY vertices2D in
  let n := length vertices2D in
  let zFront := Float32.div (Float32.mul depth Float32.scale) Float32.two in
  let zBack :=
    Float32.div (Float32.opp (Float32.mul depth Float32.scale))
                Float32.two in
  let obj := fold_left (addOutlineVertex centerX centerY zFront)
                       vertices2D obj in
  let obj := fold_left (addOutlineVertex centerX centerY zBack)
                       vertices2D obj in
  let obj := fold_left (fun o i => addFace o (sideFace n i)) (seq 0 n) obj in
  let triangles := capTriangles vertices2D in
  let obj := fold_left (addCapFace centerX centerY zFront) triangles obj in
  let obj := fold_left (fun o tri =>
                          addCapFace centerX centerY zBack o (backPoints tri))
                       triangles obj in
  obj.

(** [createExtrudedObject] on the list of objects of the scene;
    [finishObject] stands for [calculateNormals] and the colour
    assignment, which [object_3d.h] defines. *)
Definition createExtrudedObject (finishObject : Object3D -> Object3D)
    (objects : list Object3D) (vertices2D : list Point2D)
    (depth : Float32.float) : list Object3D :=
  if (length vertices2D <? 3)%nat then objects
  else objects ++ [finishObject (extrudedMesh vertices2D depth)].

(** The vertex [addOutlineVertex] adds for a point. *)
Definition outlineVertex (centerX centerY z : Float32.float) (p : Point2D)
    : Float32.float * Float32.float * Float32.float :=
  (Float32.mul (Float32.sub (Float32.of_int (coordinateX p)) centerX)
               Float32.scale,
   Float32.mul
     (Float32.opp (Float32.sub (Float32.of_int (coordinateY p)) centerY))
     Float32.scale,
   z).

(** The two planes of the caps. *)
Definition zFrontOf (depth : Float32.float) : Float32.float :=
  Float32.div (Float32.mul depth Float32.scale) Float32.two.

Definition zBackOf (depth : Float32.float) : Float32.float :=
  Float32.div (Float32.opp (Float32.mul depth Float32.scale)) Float32.two.

(** The faces of a cap whose first vertex has index [start]: three fresh
    consecutive indices per triangle. *)
Definition capFaces (start count : nat) : list (list nat) :=
  map (fun j => seq (start + 3 * j) 3) (seq 0 count).

(* ================================================================== *)
(** ** The colour palette (graphics_renderer.h, event_handler.h)

    [GraphicsRenderer::renderColorPalette] paints sixteen colour cells in
    a grid of four columns; [EventHandler::handleMouseClick] maps a click
    back to a colour index.  [int] division and remainder truncate
    ([Z.quot], [Z.rem]). *)

(** The [colorRect] of cell [i] (lines 248-268 of graphics_renderer.h), as
    [(left, top, right, bottom)]. *)
Definition colorRect (drawingAreaWidth i : Z) : Z * Z * Z * Z :=
  let paletteX := drawingAreaWidth + 10 in
  let paletteY := 460 in
  let colorSize := 35 in
  let colorSpacing := 5 in
  let colorX := paletteX + Z.rem i 4 * (colorSize + colorSpacing) in
  let colorY := paletteY + Z.quot i 4 * (colorSize + colorSpacing) in
  (colorX, colorY, colorX + colorSize, colorY + colorSize).

(** The pixels the [FillRect] of a rectangle covers: its left and top
    borders are included, its right and bottom borders are not. *)
Definition inRect (r : Z * Z * Z * Z) (x y : Z) : Prop :=
  let '(xLeft, yTop, xRight, yBottom) := r in
  xLeft <= x < xRight /\ yTop <= y < yBottom.

(** The value of [selectedColorIndex] after [handleMouseClick] (lines
    155-206 of event_handler.h) with a window present: a click in the
    drawing area or outside the palette leaves it as it is. *)
Definition handleMouseClick (drawingAreaWidth drawingAreaHeight : Z)
    (selectedColorIndex mouseX mouseY : Z) : Z :=
  if (mouseX <? drawingAreaWidth) && (mouseY <? drawingAreaHeight)
  then selectedColorIndex
  else if (mouseX >=? drawingAreaWidth + 10)
          && (mouseX <=? drawingAreaWidth + 170)
          && (mouseY >=? 460) && (mouseY <=? 620)
  then
    let colorX := Z.quot (mouseX - (drawingAreaWidth + 10)) 40 in
    let colorY := Z.quot (mouseY - 460) 40 in
    let colorIndex := colorY * 4 + colorX in
    if (colorIndex >=? 0) && (colorIndex <? 16) then colorIndex
    else selectedColorIndex
  else selectedColorIndex.

(* ================================================================== *)
(** ** Tactics *)

Ltac case_if :=
  match goal with
  | H : context [if ?b then _ else _] |- _ =>
      let E := fresh "E" in destruct b eqn:E; simpl in H
  | |- context [if ?b then _ else _] =>
      let E := fresh "E" in destruct b eqn:E; simpl
  end.

Ltac bool_lia :=
  unfold inTable in *;
  repeat match goal with
  | H : _ && _ = true |- _ => apply andb_prop in H; destruct H
  | H : _ && _ = false |- _ => apply andb_false_iff in H
  | H : _ || _ = true |- _ => apply orb_prop in H
  | H : _ || _ = false |- _ => apply orb_false_elim in H; destruct H
  | H : negb _ = true |- _ => apply negb_true_iff in H
  | H : negb _ = false |- _ => apply negb_false_iff in H
  | H : (_ <? _) = true |- _ => apply Z.ltb_lt in H
  | H : (_ <? _) = false |- _ => apply Z.ltb_ge in H
  | H : (_ <=? _) = true |- _ => apply Z.leb_le in H
  | H : (_ <=? _) = false |- _ => apply Z.leb_gt in H
  | H : (_ >? _) = true |- _ => rewrite Z.gtb_ltb in H
  | H : (_ >? _) = false |- _ => rewrite Z.gtb_ltb in H
  | H : (_ >=? _) = true |- _ => rewrite Z.geb_leb in H
  | H : (_ >=? _) = false |- _ => rewrite Z.geb_leb in H
  | H : (_ =? _) = true |- _ => apply Z.eqb_eq in H
  | H : (_ =? _) = false |- _ => apply Z.eqb_neq in H
  end;
  try lia.

Ltac case_cmp :=
  match goal with
  | |- context [?a >? ?b] => rewrite (Z.gtb_ltb a b)
  | |- context [?a =? ?b] => destruct (Z.eqb_spec a b); try lia
  | |- context [?a <? ?b] => destruct (Z.ltb_spec a b); try lia
  | |- context [?a <=? ?b] => destruct (Z.leb_spec a b); try lia
  end;
  cbn [andb orb negb Bool.eqb option_map fst snd
       coordinateX coordinateY shiftPoint].

(** The entry of one side of a polygon given by its vertices. *)
Ltac entry_cases :=
  unfold edgeEntry, vertexAt, inTable, rectangle;
  cbn [length nth Nat.add Nat.modulo Nat.divmod fst snd Nat.sub];
  cbn [coordinateX coordinateY pt];
  repeat (case_cmp; cbv beta iota zeta; cbn [coordinateX coordinateY pt]).

(* ================================================================== *)
(** * Properties *)

(** ** Lists *)

Lemma isEmpty_true (A : Type) (l : list A) : isEmpty l = true <-> l = [].
Proof. destruct l; simpl; split; congruence. Qed.

Lemma isEmpty_false (A : Type) (l : list A) :
  isEmpty l = false <-> l <> [].
Proof. destruct l; simpl; split; congruence. Qed.

Lemma filter_filter (A : Type) (f g : A -> bool) (l : list A) :
  filter f (filter g l) = filter (fun x => g x && f x) l.
Proof.
  induction l as [|a l IH]; simpl; auto.
  destruct (g a); simpl; [destruct (f a)|]; rewrite IH; reflexivity.
Qed.

Lemma Permutation_filter (A : Type) (f : A -> bool) (l l' : list A) :
  Permutation l l' -> Permutation (filter f l) (filter f l').
Proof.
  induction 1; simpl.
  - constructor.
  - destruct (f x); auto.
  - destruct (f x), (f y); auto using Permutation_refl. constructor.
  - eapply Permutation_trans; eauto.
Qed.

(** Two filters that never accept the same element split the filter of
    their disjunction. *)
Lemma filter_split (A : Type) (f g : A -> bool) (l : list A) :
  (forall x, In x l -> f x && g x = false) ->
  Permutation (filter (fun x => f x || g x) l) (filter f l ++ filter g l).
Proof.
  induction l as [|a l IH]; simpl; intros Hd; [constructor|].
  assert (Ha := Hd a (or_introl eq_refl)).
  assert (IH' := IH (fun x Hx => Hd x (or_intror Hx))).
  destruct (f a), (g a); simpl in *; try discriminate; auto.
  apply Permutation_cons_app. exact IH'.
Qed.

(** ** The edge table *)

Lemma pushAt_length (et : EdgeTable) (row : nat) (e : EdgeData) :
  length (pushAt et row e) = length et.
Proof.
  revert row; induction et as [|b t IH]; intros [|r]; simpl; auto.
Qed.

Lemma pushAt_nth (et : EdgeTable) (row i : nat) (e : EdgeData) :
  nth i (pushAt et row e) [] =
  if (i =? row)%nat && (row <? length et)%nat
  then nth i et [] ++ [e] else nth i et [].
Proof.
  revert row i; induction et as [|b t IH]; intros row i; simpl.
  - destruct row, i; simpl; rewrite ?andb_false_r; reflexivity.
  - destruct row as [|r], i as [|i]; simpl; auto.
Qed.

Lemma pushEdge_size (et : EdgeTable) (row : Z) (e : EdgeData) :
  tableSize (pushEdge et row e) = tableSize et.
Proof.
  unfold pushEdge, tableSize. destruct (row <? 0); auto.
  rewrite pushAt_length. reflexivity.
Qed.

Lemma bucket_pushEdge (et : EdgeTable) (row y : Z) (e : EdgeData) :
  0 <= row < tableSize et ->
  bucket (pushEdge et row e) y =
  if y =? row then bucket et y ++ [e] else bucket et y.
Proof.
  unfold bucket, pushEdge, tableSize. intros Hr.
  destruct (Z.ltb_spec row 0); [lia|].
  destruct (Z.ltb_spec y 0).
  - destruct (Z.eqb_spec y row); [lia|reflexivity].
  - rewrite pushAt_nth.
    destruct (Z.eqb_spec y row) as [->|Hne].
    + rewrite Nat.eqb_refl. simpl.
      destruct (Nat.ltb_spec (Z.to_nat row) (length et)); [reflexivity|lia].
    + destruct (Nat.eqb_spec (Z.to_nat y) (Z.to_nat row)); [lia|reflexivity].
Qed.

Lemma bucket_outside (et : EdgeTable) (y : Z) :
  y < 0 \/ tableSize et <= y -> bucket et y = [].
Proof.
  unfold bucket, tableSize. intros H.
  destruct (Z.ltb_spec y 0); auto.
  apply nth_overflow. lia.
Qed.

Lemma bucket_empty_table (maxHeight y : Z) :
  bucket (emptyEdgeTable maxHeight) y = [].
Proof.
  unfold bucket, emptyEdgeTable. destruct (y <? 0); auto.
  generalize (Z.to_nat y) as i.
  induction (Z.to_nat maxHeight) as [|n IH]; intros [|i]; simpl; auto.
Qed.

Lemma emptyEdgeTable_size (maxHeight : Z) :
  tableSize (emptyEdgeTable maxHeight) = Z.max 0 maxHeight.
Proof.
  unfold tableSize, emptyEdgeTable. rewrite repeat_length. lia.
Qed.

Lemma bucket_In_concat (et : EdgeTable) (y : Z) (e : EdgeData) :
  In e (bucket et y) -> In e (concat et).
Proof.
  unfold bucket. destruct (y <? 0); simpl; [tauto|].
  intros H. apply in_concat. exists (nth (Z.to_nat y) et []). split; auto.
  destruct (Nat.lt_ge_cases (Z.to_nat y) (length et)) as [Hl|Hl].
  - apply nth_In; auto.
  - rewrite nth_overflow in H by auto. destruct H.
Qed.

Lemma fold_pushEntry_size (l : list (option (Z * EdgeData)))
    (et : EdgeTable) :
  tableSize (fold_left pushEntry l et) = tableSize et.
Proof.
  revert et; induction l as [|[[r e]|] l IH]; intros et; simpl; auto.
  rewrite IH. apply pushEdge_size.
Qed.

Lemma fold_pushEntry_bucket (l : list (option (Z * EdgeData)))
    (et : EdgeTable) (y : Z) :
  (forall r e, In (r, e) (somes l) -> 0 <= r < tableSize et) ->
  bucket (fold_left pushEntry l et) y = bucket et y ++ binnedAt y (somes l).
Proof.
  revert et; induction l as [|[[r e]|] l IH]; intros et Hin; simpl.
  - unfold binnedAt; simpl. rewrite app_nil_r. reflexivity.
  - rewrite IH.
    + rewrite bucket_pushEdge by (apply (Hin r e); simpl; auto).
      unfold binnedAt; simpl. rewrite (Z.eqb_sym r y).
      destruct (y =? r); simpl; rewrite <- ?app_assoc; reflexivity.
    + intros r' e' H'. rewrite pushEdge_size. apply (Hin r' e'). simpl; auto.
  - apply IH. exact Hin.
Qed.

Lemma buildEdgeTable_fold (p : list Point2D) (maxHeight : Z) :
  (2 <= length p)%nat ->
  buildEdgeTable p maxHeight =
  fold_left pushEntry (entriesOf p maxHeight) (emptyEdgeTable maxHeight).
Proof.
  intros Hn. unfold buildEdgeTable, entriesOf.
  destruct (Nat.ltb_spec (length p) 2); [lia|].
  generalize (emptyEdgeTable maxHeight) as et.
  induction (seq 0 (length p)) as [|i l IH]; intros et; simpl; auto.
Qed.

Lemma buildEdgeTable_size (p : list Point2D) (maxHeight : Z) :
  tableSize (buildEdgeTable p maxHeight) = Z.max 0 maxHeight.
Proof.
  destruct (Nat.lt_ge_cases (length p) 2) as [Hn|Hn].
  - unfold buildEdgeTable. destruct (Nat.ltb_spec (length p) 2); [|lia].
    apply emptyEdgeTable_size.
  - rewrite buildEdgeTable_fold by auto.
    rewrite fold_pushEntry_size. apply emptyEdgeTable_size.
Qed.

(** ** One edge of the polygon *)

(** An edge is pushed only into a row of the table, the row is recorded in
    its [minimumY], and no edge ends before the row it is binned at. *)
Lemma edgeEntry_row (p : list Point2D) (maxHeight : Z) (i : nat)
    (r : Z) (e : EdgeData) :
  edgeEntry p maxHeight i = Some (r, e) ->
  0 <= r < maxHeight /\ minimumY e = r /\ r <= maximumY e.
Proof.
  unfold edgeEntry. intros H.
  repeat case_if; inversion H; subst; simpl; clear H; bool_lia;
    repeat match goal with H : _ \/ _ |- _ => destruct H end; bool_lia.
Qed.

(** ** Sorting the AET *)

Lemma insertByX_perm (e : EdgeData) (l : list EdgeData) :
  Permutation (insertByX e l) (e :: l).
Proof.
  induction l as [|h t IH]; simpl; auto.
  destruct (Double.ltb (currentX h) (currentX e)); auto.
  eapply Permutation_trans; [apply perm_skip, IH | apply perm_swap].
Qed.

Lemma sortAET_perm (l : list EdgeData) : Permutation (sortAET l) l.
Proof.
  induction l as [|h t IH]; simpl; auto.
  eapply Permutation_trans; [apply insertByX_perm | apply perm_skip, IH].
Qed.

Lemma sortAET_In (l : list EdgeData) (e : EdgeData) :
  In e (sortAET l) <-> In e l.
Proof.
  split; apply Permutation_in;
    [apply sortAET_perm | apply Permutation_sym, sortAET_perm].
Qed.

(** Sorting looks at [currentX] only. *)
Lemma sortAET_map (f : EdgeData -> EdgeData) (l : list EdgeData) :
  (forall e, currentX (f e) = currentX e) ->
  sortAET (map f l) = map f (sortAET l).
Proof.
  intros Hf. induction l as [|h t IH]; simpl; auto.
  rewrite IH. generalize (sortAET t) as s.
  induction s as [|a s IHs]; simpl; auto.
  rewrite !Hf. destruct (Double.ltb (currentX a) (currentX h)); simpl; auto.
  rewrite IHs. reflexivity.
Qed.

Lemma mergeRow_perm (et : EdgeTable) (y : Z) (aet : list EdgeData) :
  Permutation (mergeRow et y aet) (aet ++ bucket et y).
Proof. apply sortAET_perm. Qed.

Lemma mergeRow_In (et : EdgeTable) (y : Z) (aet : list EdgeData)
    (e : EdgeData) :
  In e (mergeRow et y aet) <-> In e aet \/ In e (bucket et y).
Proof. unfold mergeRow. rewrite sortAET_In, in_app_iff. tauto. Qed.

Lemma nextAET_In (y : Z) (sorted : list EdgeData) (e : EdgeData) :
  In e (nextAET y sorted) <->
  exists e0, In e0 sorted /\ e = advanceX e0 /\ y + 1 < maximumY e0.
Proof.
  unfold nextAET, removeFinished. rewrite filter_In, in_map_iff. split.
  - intros [[e0 [<- Hin]] Hk]. exists e0. simpl in Hk. bool_lia. auto.
  - intros [e0 [Hin [-> Hk]]]. split; [eauto|]. simpl.
    destruct (Z.leb_spec (maximumY e0) (y + 1)); [lia|reflexivity].
Qed.

Lemma mergeRow_nil (et : EdgeTable) (y : Z) :
  bucket et y = [] -> mergeRow et y [] = [].
Proof. unfold mergeRow. simpl. intros ->. reflexivity. Qed.

(** ** The loop: emitted output, fuel and termination *)

(** What any emission step emits is read off the rows the loop visits. *)
Lemma scanLoop_trace (Out : Type) (emit : Z -> list EdgeData -> list Out)
    (fuel : nat) (et : EdgeTable) (y : Z) (aet : list EdgeData) :
  scanLoop emit fuel et y aet =
  option_map (flat_map (fun s => emit (fst s) (snd s)))
             (scanLoop emitState fuel et y aet).
Proof.
  revert y aet; induction fuel as [|fuel IH]; intros y aet; simpl; auto.
  destruct (scanning et y aet); simpl; auto.
  destruct (isEmpty _ && _); simpl.
  - rewrite app_nil_r. reflexivity.
  - rewrite IH. destruct (scanLoop emitState fuel et (y + 1) _); simpl; auto.
Qed.

Lemma scanLoop_mono (Out : Type) (emit : Z -> list EdgeData -> list Out)
    (fuel : nat) (et : EdgeTable) (y : Z) (aet : list EdgeData)
    (out : list Out) :
  scanLoop emit fuel et y aet = Some out ->
  forall fuel', (fuel <= fuel')%nat -> scanLoop emit fuel' et y aet = Some out.
Proof.
  revert y aet out; induction fuel as [|fuel IH]; intros y aet out; simpl;
    [discriminate|].
  intros H [|fuel'] Hle; [lia|]. simpl.
  destruct (scanning et y aet); auto.
  destruct (isEmpty _ && _); auto.
  destruct (scanLoop emit fuel et (y + 1) _) as [rest|] eqn:Hr;
    [|discriminate].
  rewrite (IH _ _ _ Hr fuel') by lia. exact H.
Qed.

(** Below the table and with no active edge the loop body does nothing. *)
Lemma runRows_silent (Out : Type) (emit : Z -> list EdgeData -> list Out)
    (et : EdgeTable) (n : nat) (y : Z) :
  (forall y', emit y' [] = []) ->
  (forall y', y <= y' -> bucket et y' = []) ->
  runRows emit n et y [] = [].
Proof.
  intros He. revert y; induction n as [|n IH]; intros y Hb; simpl; auto.
  rewrite mergeRow_nil by (apply Hb; lia).
  rewrite He. simpl. apply IH. intros; apply Hb; lia.
Qed.

(** Once the loop has stopped, running the body further adds nothing. *)
Lemma scanLoop_runRows (Out : Type) (emit : Z -> list EdgeData -> list Out)
    (et : EdgeTable) (fuel : nat) (y : Z) (aet : list EdgeData)
    (out : list Out) :
  (forall y', emit y' [] = []) ->
  scanLoop emit fuel et y aet = Some out ->
  forall n, (fuel <= n)%nat -> runRows emit n et y aet = out.
Proof.
  intros He. revert y aet out; induction fuel as [|fuel IH];
    intros y aet out; simpl; [discriminate|].
  assert (Hs : forall n y', tableSize et <= y' ->
                            runRows emit n et y' [] = []).
  { intros n y' Hy. apply runRows_silent; auto.
    intros; apply bucket_outside; lia. }
  destruct (scanning et y aet) eqn:Hc.
  - intros H [|n] Hle; [lia|]. simpl.
    destruct (isEmpty _ && _) eqn:Hb.
    + inversion H; subst. bool_lia.
      apply isEmpty_true in H0. rewrite H0.
      rewrite Hs by lia. apply app_nil_r.
    + destruct (scanLoop emit fuel et (y + 1) _) as [rest|] eqn:Hr;
        [|discriminate].
      inversion H; subst. rewrite (IH _ _ _ Hr n) by lia. reflexivity.
  - intros H n _. inversion H; subst. unfold scanning in Hc. bool_lia.
    apply isEmpty_true in H1. subst. apply Hs. lia.
Qed.

(** The loop stops: the row grows by one at each iteration and no edge
    stays in the AET from the row of its [maximumY] on. *)
Lemma scanLoop_total (Out : Type) (emit : Z -> list EdgeData -> list Out)
    (et : EdgeTable) (B : Z) :
  (forall r e, In e (bucket et r) -> maximumY e <= B) ->
  forall (fuel : nat) (y : Z) (aet : list EdgeData),
    (forall e, In e aet -> maximumY e <= B) ->
    (Z.to_nat (Z.max (tableSize et) B - y) < fuel)%nat ->
    exists out, scanLoop emit fuel et y aet = Some out.
Proof.
  intros HB. induction fuel as [|fuel IH]; intros y aet Ha Hf; [lia|].
  simpl. destruct (scanning et y aet) eqn:Hc; [|eauto].
  destruct (isEmpty _ && _) eqn:Hb; [eauto|].
  destruct (IH (y + 1) (nextAET y (mergeRow et y aet))) as [rest Hr].
  - intros e He. apply nextAET_In in He. destruct He as [e0 [H0 [-> _]]].
    simpl. apply mergeRow_In in H0. destruct H0; eauto.
  - bool_lia. destruct Hb as [Hb|Hb].
    + apply isEmpty_false in Hb.
      destruct (nextAET y (mergeRow et y aet)) as [|e l] eqn:Hn;
        [congruence|].
      assert (He : In e (nextAET y (mergeRow et y aet)))
        by (rewrite Hn; simpl; auto).
      apply nextAET_In in He. destruct He as [e0 [H0 [_ Hk]]].
      assert (maximumY e0 <= B)
        by (apply mergeRow_In in H0; destruct H0; eauto).
      lia.
    + bool_lia.
  - rewrite Hr. eauto.
Qed.

Lemma maxYOf_bound (l : list EdgeData) (e : EdgeData) :
  In e l -> maximumY e <= maxYOf l.
Proof.
  induction l as [|a l IH]; simpl; [tauto|].
  intros [->|H]; [lia|]. specialize (IH H). lia.
Qed.

Lemma scanPolygon_trace (Out : Type) (emit : Z -> list EdgeData -> list Out)
    (p : list Point2D) (maxHeight : Z) :
  scanPolygon emit p maxHeight =
  option_map (flat_map (fun s => emit (fst s) (snd s)))
             (scanTrace p maxHeight).
Proof.
  unfold scanTrace, scanPolygon.
  destruct (length p <? 3)%nat; auto.
  destruct (_ <=? _); auto.
  apply scanLoop_trace.
Qed.

Lemma scanPolygon_total (Out : Type) (emit : Z -> list EdgeData -> list Out)
    (p : list Point2D) (maxHeight : Z) :
  exists out, scanPolygon emit p maxHeight = Some out.
Proof.
  unfold scanPolygon.
  destruct (length p <? 3)%nat; eauto.
  destruct (_ <=? _); eauto.
  apply scanLoop_total with (B := maxYOf (concat (buildEdgeTable p maxHeight))).
  - intros r e He. apply maxYOf_bound. eapply bucket_In_concat; eauto.
  - simpl; tauto.
  - unfold scanFuel. lia.
Qed.

Lemma rowsFrom_In (n : nat) (y r : Z) :
  In r (rowsFrom y n) <-> y <= r < y + Z.of_nat n.
Proof.
  revert y; induction n as [|n IH]; intros y; simpl; [lia|].
  rewrite IH. lia.
Qed.

(** The loop visits consecutive rows, one per iteration, and never more
    than its fuel. *)
Lemma scanLoop_rows (fuel : nat) (et : EdgeTable) (y : Z)
    (aet : list EdgeData) (tr : list (Z * list EdgeData)) :
  scanLoop emitState fuel et y aet = Some tr ->
  map fst tr = rowsFrom y (length tr) /\ (length tr <= fuel)%nat.
Proof.
  revert y aet tr; induction fuel as [|fuel IH]; intros y aet tr; simpl;
    [discriminate|].
  destruct (scanning et y aet).
  - destruct (isEmpty _ && _).
    + intros H; inversion H; subst; simpl. split; [reflexivity|lia].
    + destruct (scanLoop emitState fuel et (y + 1) _) as [rest|] eqn:Hr;
        [|discriminate].
      intros H; inversion H; subst; simpl.
      destruct (IH _ _ _ Hr) as [H1 H2]. rewrite H1. split; [reflexivity|lia].
  - intros H; inversion H; subst; simpl. split; [reflexivity|lia].
Qed.

(** ** Edges in the AET *)

Section Invariant.

Variable et : EdgeTable.

(** Every edge of bucket [r] records [r] and does not end before [r]. *)
Hypothesis table_rows :
  forall r e, In e (bucket et r) -> minimumY e = r /\ r <= maximumY e.

Lemma mergeRow_ok (y : Z) (aet : list EdgeData) :
  carriedOk y aet -> emissionOk et y (mergeRow et y aet).
Proof.
  intros Hc e He. apply mergeRow_In in He. destruct He as [He|He].
  - specialize (Hc e He). repeat split; try lia.
    intros Hb. apply table_rows in Hb. lia.
  - destruct (table_rows _ _ He). repeat split; try lia. auto.
Qed.

Lemma nextAET_ok (y : Z) (sorted : list EdgeData) :
  emissionOk et y sorted -> carriedOk (y + 1) (nextAET y sorted).
Proof.
  intros Hs e He. apply nextAET_In in He.
  destruct He as [e0 [H0 [-> Hk]]]. simpl.
  destruct (Hs e0 H0) as [? _]. lia.
Qed.

Lemma scanLoop_invariant (fuel : nat) (y : Z) (aet : list EdgeData)
    (tr : list (Z * list EdgeData)) :
  scanLoop emitState fuel et y aet = Some tr ->
  carriedOk y aet ->
  forall y' a, In (y', a) tr -> emissionOk et y' a.
Proof.
  revert y aet tr; induction fuel as [|fuel IH]; intros y aet tr; simpl;
    [discriminate|].
  destruct (scanning et y aet).
  - destruct (isEmpty _ && _).
    + intros H Hc y' a Hin. inversion H; subst.
      destruct Hin as [Hin|[]]. inversion Hin; subst.
      apply mergeRow_ok; auto.
    + destruct (scanLoop emitState fuel et (y + 1) _) as [rest|] eqn:Hr;
        [|discriminate].
      intros H Hc y' a Hin. inversion H; subst.
      destruct Hin as [Hin|Hin].
      * inversion Hin; subst. apply mergeRow_ok; auto.
      * eapply IH; eauto. apply nextAET_ok, mergeRow_ok; auto.
  - intros H _ y' a Hin. inversion H; subst. destruct Hin.
Qed.

End Invariant.

(** The table [buildEdgeTable] returns: bucket [y] holds the edges pushed
    with row [y], in the order of the polygon's edges. *)
Lemma entriesOf_rows (p : list Point2D) (maxHeight : Z) (r : Z)
    (e : EdgeData) :
  In (r, e) (somes (entriesOf p maxHeight)) ->
  0 <= r < maxHeight /\ minimumY e = r /\ r <= maximumY e.
Proof.
  unfold entriesOf. generalize (seq 0 (length p)) as l.
  induction l as [|i l IH]; simpl; [tauto|].
  destruct (edgeEntry p maxHeight i) as [[r' e']|] eqn:Hi; simpl; auto.
  intros [H|H]; auto. inversion H; subst. eapply edgeEntry_row; eauto.
Qed.

Lemma buildEdgeTable_bucket (p : list Point2D) (maxHeight y : Z) :
  (2 <= length p)%nat ->
  bucket (buildEdgeTable p maxHeight) y =
  binnedAt y (somes (entriesOf p maxHeight)).
Proof.
  intros Hn. rewrite buildEdgeTable_fold by auto.
  rewrite fold_pushEntry_bucket.
  - rewrite bucket_empty_table. reflexivity.
  - intros r e H. rewrite emptyEdgeTable_size.
    apply entriesOf_rows in H. lia.
Qed.

Lemma buildEdgeTable_rows (p : list Point2D) (maxHeight r : Z)
    (e : EdgeData) :
  In e (bucket (buildEdgeTable p maxHeight) r) ->
  minimumY e = r /\ r <= maximumY e.
Proof.
  destruct (Nat.lt_ge_cases (length p) 2) as [Hn|Hn].
  - unfold buildEdgeTable. destruct (Nat.ltb_spec (length p) 2); [|lia].
    rewrite bucket_empty_table. intros [].
  - rewrite buildEdgeTable_bucket by auto. unfold binnedAt.
    rewrite in_map_iff. intros [[r' e'] [<- Hin]].
    apply filter_In in Hin. destruct Hin as [Hin Hr]. simpl in *.
    apply Z.eqb_eq in Hr. subst. apply entriesOf_rows in Hin. tauto.
Qed.

(** ** The emission steps *)

Lemma skipn_nth_cons (A : Type) (d : A) (l : list A) (i : nat) :
  (i < length l)%nat -> skipn i l = nth i l d :: skipn (S i) l.
Proof.
  revert i; induction l as [|a l IH]; intros i Hi; simpl in *; [lia|].
  destruct i as [|i]; auto. apply IH. lia.
Qed.

Lemma nth_last (A : Type) (d : A) (l : list A) :
  nth (length l - 1) l d = last l d.
Proof.
  induction l as [|a l IH]; simpl; auto.
  destruct l as [|b l]; simpl in *; auto.
  rewrite Nat.sub_0_r in IH. exact IH.
Qed.

(** The index loop visits exactly the pairs of [pairsOf]. *)
Lemma forPairs_from (Out : Type) (body : EdgeData -> EdgeData -> list Out)
    (steps i : nat) (aet : list EdgeData) :
  (length aet <= steps + i)%nat ->
  forPairs body steps i aet =
  flat_map (fun ab => body (fst ab) (snd ab)) (pairsOf (skipn i aet)).
Proof.
  revert i; induction steps as [|steps IH]; intros i Hl; simpl.
  - rewrite skipn_all2 by lia. reflexivity.
  - destruct (Nat.ltb_spec i (length aet - 1)) as [Hi|Hi].
    + rewrite (skipn_nth_cons noEdge aet) by lia.
      rewrite (skipn_nth_cons noEdge aet (i := S i)) by lia.
      simpl. rewrite IH by lia.
      replace (i + 1)%nat with (S i) by lia.
      replace (i + 2)%nat with (S (S i)) by lia. reflexivity.
    + destruct (Nat.lt_ge_cases i (length aet)) as [Hj|Hj].
      * rewrite (skipn_nth_cons noEdge aet) by lia.
        rewrite (skipn_all2 aet (n := S i)) by lia. reflexivity.
      * rewrite skipn_all2 by lia. reflexivity.
Qed.

Lemma forPairs_pairs (Out : Type) (body : EdgeData -> EdgeData -> list Out)
    (aet : list EdgeData) :
  forPairs body (length aet) 0 aet =
  flat_map (fun ab => body (fst ab) (snd ab)) (pairsOf aet).
Proof. rewrite forPairs_from by lia. reflexivity. Qed.

Lemma pairsOf_short (aet : list EdgeData) :
  (length aet < 2)%nat -> pairsOf aet = [].
Proof. destruct aet as [|a [|b l]]; simpl; auto; lia. Qed.

Lemma emitFill_pairs (maxHeight maxWidth y : Z) (aet : list EdgeData) :
  emitFill maxHeight maxWidth y aet =
  if (2 <=? length aet)%nat then
    flat_map (fun ab => spanOf maxHeight maxWidth y (fst ab) (snd ab))
             (pairsOf aet)
    ++ (if Nat.odd (length aet)
        then pointOf maxHeight maxWidth y aet else [])
  else [].
Proof.
  unfold emitFill. rewrite forPairs_pairs.
  destruct (2 <=? length aet)%nat; auto. f_equal.
  rewrite <- Nat.bit0_mod, Nat.bit0_odd.
  destruct (Nat.odd (length aet)); reflexivity.
Qed.

Lemma emitTriangles_pairs (y : Z) (aet : list EdgeData) :
  emitTriangles y aet =
  flat_map (fun ab => trapezoid y (fst ab) (snd ab)) (pairsOf aet).
Proof.
  unfold emitTriangles. rewrite forPairs_pairs.
  destruct (Nat.leb_spec 2 (length aet)); auto.
  rewrite pairsOf_short by lia. reflexivity.
Qed.

Lemma emitFill_nil (maxHeight maxWidth y : Z) :
  emitFill maxHeight maxWidth y [] = [].
Proof. reflexivity. Qed.

Lemma bucket_cons (b : list EdgeData) (t : EdgeTable) (r : Z) :
  0 <= r -> bucket (b :: t) r = if r =? 0 then b else bucket t (r - 1).
Proof.
  intros Hr. unfold bucket.
  destruct (Z.ltb_spec r 0); [lia|].
  destruct (Z.eqb_spec r 0) as [->|Hne]; [reflexivity|].
  destruct (Z.ltb_spec (r - 1) 0); [lia|].
  replace (Z.to_nat r) with (S (Z.to_nat (r - 1))) by lia. reflexivity.
Qed.

(** The first loop stops on the lowest row that holds an edge. *)
Lemma skipEmpty_spec (et : EdgeTable) :
  let s := Z.of_nat (skipEmpty et) in
  0 <= s <= tableSize et
  /\ (forall r, r < s -> bucket et r = [])
  /\ (s < tableSize et -> bucket et s <> []).
Proof.
  unfold tableSize. induction et as [|b t [IH1 [IH2 IH3]]].
  - simpl. repeat split; try lia.
    intros r _. apply bucket_outside. unfold tableSize; simpl; lia.
  - cbn [skipEmpty length]. destruct b as [|e b]; cbn [isEmpty].
    + repeat split; try lia.
      * intros r Hr. destruct (Z.ltb_spec r 0) as [Hn|Hn].
        { apply bucket_outside. lia. }
        rewrite bucket_cons by lia.
        destruct (Z.eqb_spec r 0); auto. apply IH2. lia.
      * intros Hs. rewrite bucket_cons by lia.
        destruct (Z.eqb_spec (Z.of_nat (S (skipEmpty t))) 0); [lia|].
        replace (Z.of_nat (S (skipEmpty t)) - 1)
          with (Z.of_nat (skipEmpty t)) by lia.
        apply IH3. lia.
    + repeat split; try lia.
      * intros r Hr. apply bucket_outside. lia.
      * intros _. unfold bucket. simpl. discriminate.
Qed.

Lemma last_indep (A : Type) (d d' : A) (l : list A) :
  l <> [] -> last l d = last l d'.
Proof.
  induction l as [|a l IH]; [congruence|]. intros _.
  destruct l as [|b l]; [reflexivity|].
  change (last (b :: l) d = last (b :: l) d'). apply IH. discriminate.
Qed.

(** Where the loop stops: past the table, with no edge left. *)
Lemma scanLoop_end (fuel : nat) (et : EdgeTable) (y : Z)
    (aet : list EdgeData) (tr : list (Z * list EdgeData)) :
  scanLoop emitState fuel et y aet = Some tr ->
  match tr with
  | [] => tableSize et <= y /\ aet = []
  | _ :: _ =>
      tableSize et <= y + Z.of_nat (length tr)
      /\ nextAET (fst (last tr (y, []))) (snd (last tr (y, []))) = []
  end.
Proof.
  revert y aet tr; induction fuel as [|fuel IH]; intros y aet tr;
    [discriminate|].
  cbn [scanLoop]. destruct (scanning et y aet) eqn:Hc.
  - destruct (isEmpty _ && _) eqn:Hb.
    + intros H; inversion H; subst. unfold emitState. cbn [last fst snd length].
      bool_lia. apply isEmpty_true in H0. split; [lia|exact H0].
    + destruct (scanLoop emitState fuel et (y + 1) _) as [rest|] eqn:Hr;
        [|discriminate].
      intros H; inversion H; subst. specialize (IH _ _ _ Hr).
      unfold emitState. cbn [app length].
      destruct rest as [|s rest].
      * destruct IH as [IH1 IH2]. cbn [last fst snd length].
        split; [lia|exact IH2].
      * destruct IH as [IH1 IH2]. split; [cbn [length] in *; lia|].
        change (last ((y, mergeRow et y aet) :: s :: rest) (y, []))
          with (last (s :: rest) (y, [])).
        rewrite (last_indep (y, []) (y + 1, [])) by discriminate. exact IH2.
  - intros H; inversion H; subst. unfold scanning in Hc. bool_lia.
    apply isEmpty_true in H1. split; [lia|exact H1].
Qed.

(* ================================================================== *)
(** * Properties of the specification *)

(** C7: on fewer than three vertices, and on a table of height 0,
    [fillPolygon] draws nothing and [generateTriangulation] returns no
    triangle; both return normally. *)
Theorem empty_input_empty_result (p : list Point2D) (maxHeight maxWidth : Z) :
  (length p < 3)%nat \/ maxHeight = 0 ->
  fillPolygon p maxHeight maxWidth = Some []
  /\ generateTriangulation p maxHeight = Some [].
Proof.
  intros H. unfold fillPolygon, generateTriangulation, scanPolygon.
  destruct (Nat.ltb_spec (length p) 3) as [Hn|Hn]; [auto|].
  destruct H as [H| ->]; [lia|].
  rewrite buildEdgeTable_size.
  destruct (skipEmpty_spec (buildEdgeTable p 0)) as [Hs _].
  destruct (Z.leb_spec (Z.max 0 0) (Z.of_nat (skipEmpty (buildEdgeTable p 0))));
    [auto|lia].
Qed.

Lemma empty_input_empty_result_witness :
  fillPolygon [pt 3 4; pt 9 1] 60 60 = Some []
  /\ generateTriangulation [pt 3 4; pt 9 1] 60 = Some [].
Proof.
  apply (@empty_input_empty_result [pt 3 4; pt 9 1] 60 60).
  left. simpl. lia.
Defined.

Lemma scanLoop_first (fuel : nat) (et : EdgeTable) (y : Z)
    (aet : list EdgeData) (tr : list (Z * list EdgeData)) :
  scanLoop emitState fuel et y aet = Some tr ->
  scanning et y aet = true ->
  exists rest, tr = (y, mergeRow et y aet) :: rest.
Proof.
  destruct fuel as [|fuel]; [discriminate|].
  cbn [scanLoop]. intros Htr Hs. rewrite Hs in Htr.
  destruct (isEmpty _ && _).
  - inversion Htr; subst. exists []. reflexivity.
  - destruct (scanLoop emitState fuel et (y + 1) _) as [rest|];
      [|discriminate].
    inversion Htr; subst. exists rest. reflexivity.
Qed.

(** C5: [fillPolygon] and [generateTriangulation] return on every vertex
    list and every [maxHeight].  The loop starts on the lowest non-empty row
    of the table: every row before [start] is empty, the row [start] is not
    when it is a row of the table, and for a polygon of three or more
    vertices the first iteration then runs on row [start] with the edges of
    that row, sorted, as its AET.  The loop visits consecutive rows, keeps
    after a row only edges whose [maximumY] lies beyond the next row, runs
    at most [max(table height, largest maximumY) + 1] times whatever fuel
    it is given beyond that, and where it stops the row is past the table
    and the AET is empty. *)
Theorem scanline_terminates (p : list Point2D) (maxHeight maxWidth : Z) :
  let et := buildEdgeTable p maxHeight in
  let start := Z.of_nat (skipEmpty et) in
  exists tr,
    scanTrace p maxHeight = Some tr
    /\ fillPolygon p maxHeight maxWidth =
       Some (flat_map (fun s => emitFill maxHeight maxWidth (fst s) (snd s))
                      tr)
    /\ generateTriangulation p maxHeight =
       Some (flat_map (fun s => emitTriangles (fst s) (snd s)) tr)
    /\ (forall r, r < start -> bucket et r = [])
    /\ 0 <= start <= tableSize et
    /\ (start < tableSize et -> bucket et start <> [])
    /\ ((3 <= length p)%nat -> start < tableSize et ->
        exists rest, tr = (start, sortAET (bucket et start)) :: rest)
    /\ (forall y aet e, In (y, aet) tr -> In e (nextAET y aet) ->
          y + 1 < maximumY e)
    /\ map fst tr = rowsFrom start (length tr)
    /\ Z.of_nat (length tr) <=
       1 + Z.max (tableSize et) (maxYOf (concat et))
    /\ (tr <> [] ->
        (forall fuel, (scanFuel et <= fuel)%nat ->
                      scanLoop emitState fuel et start [] = Some tr)
        /\ tableSize et <= start + Z.of_nat (length tr)
        /\ nextAET (fst (last tr (start, []))) (snd (last tr (start, [])))
           = []).
Proof.
  intros et start.
  destruct (scanPolygon_total emitState p maxHeight) as [tr Htr].
  exists tr. split; [exact Htr|].
  unfold fillPolygon, generateTriangulation.
  rewrite !scanPolygon_trace. unfold scanTrace. rewrite Htr. cbn [option_map].
  split; [reflexivity|]. split; [reflexivity|].
  split; [apply (skipEmpty_spec et)|].
  split; [apply (skipEmpty_spec et)|].
  split; [apply (skipEmpty_spec et)|].
  unfold scanPolygon in Htr. fold et in Htr. fold start in Htr.
  split.
  { intros Hn Hs.
    destruct (Nat.ltb_spec (length p) 3); [lia|].
    destruct (Z.leb_spec (tableSize et) start); [lia|].
    destruct (scanLoop_first _ _ _ _ Htr) as [rest Hrest].
    - unfold scanning. apply orb_true_iff. left. apply Z.ltb_lt. exact Hs.
    - exists rest. exact Hrest. }
  split.
  { intros y aet e _ He. apply nextAET_In in He.
    destruct He as [e0 [_ [-> Hk]]]. exact Hk. }
  destruct (length p <? 3)%nat.
  { inversion Htr; subst. cbn [length map rowsFrom].
    split; [reflexivity|]. split; [unfold tableSize; lia|congruence]. }
  destruct (tableSize et <=? start).
  { inversion Htr; subst. cbn [length map rowsFrom].
    split; [reflexivity|]. split; [unfold tableSize; lia|congruence]. }
  destruct (scanLoop_rows _ _ _ _ Htr) as [Hrows Hlen].
  split; [exact Hrows|]. split; [unfold scanFuel, tableSize in *; lia|].
  intros Hne. split; [|].
  - intros fuel Hf. eapply scanLoop_mono; eauto.
  - apply scanLoop_end in Htr. destruct tr; [congruence|]. exact Htr.
Qed.

Lemma scanline_terminates_witness :
  exists tr,
    scanTrace square 60 = Some tr
    /\ tr <> []
    /\ (forall fuel,
          (scanFuel (buildEdgeTable square 60) <= fuel)%nat ->
          scanLoop emitState fuel (buildEdgeTable square 60)
                   (Z.of_nat (skipEmpty (buildEdgeTable square 60))) []
          = Some tr)
    /\ tableSize (buildEdgeTable square 60)
       <= Z.of_nat (skipEmpty (buildEdgeTable square 60))
          + Z.of_nat (length tr)
    /\ bucket (buildEdgeTable square 60)
              (Z.of_nat (skipEmpty (buildEdgeTable square 60))) <> []
    /\ exists rest,
         tr = (Z.of_nat (skipEmpty (buildEdgeTable square 60)),
               sortAET (bucket (buildEdgeTable square 60)
                          (Z.of_nat (skipEmpty (buildEdgeTable square 60)))))
              :: rest.
Proof.
  destruct (scanline_terminates square 60 60)
    as [tr [H1 [_ [_ [_ [_ [H6 [H7 [_ [_ [_ H11]]]]]]]]]]].
  exists tr. split; [exact H1|].
  assert (Hne : tr <> []).
  { intros ->. vm_compute in H1. discriminate. }
  split; [exact Hne|].
  destruct (H11 Hne) as [Hf [Hs _]].
  split; [exact Hf|]. split; [exact Hs|].
  assert (Hstart : Z.of_nat (skipEmpty (buildEdgeTable square 60))
                   < tableSize (buildEdgeTable square 60))
    by (vm_compute; reflexivity).
  split; [exact (H6 Hstart)|].
  apply H7; [simpl; lia|exact Hstart].
Defined.

(** C4 (amended): at every row where the loop runs its emission step, every
    edge [e] of the AET entered at its bucket row [minimumY e], not later
    than the current row, and the current row is at most [maximumY e]; it
    is strictly below [maximumY e] for every edge that entered at an earlier
    row.  The edges that entered at the current row are those of its
    bucket, and such an edge can end on this very row (a horizontal edge
    does). *)
Theorem aet_edges_within_rows (p : list Point2D) (maxHeight : Z)
    (tr : list (Z * list EdgeData)) (y : Z) (aet : list EdgeData)
    (e : EdgeData) :
  scanTrace p maxHeight = Some tr ->
  In (y, aet) tr ->
  In e aet ->
  minimumY e <= y <= maximumY e
  /\ (minimumY e < y -> y < maximumY e)
  /\ (minimumY e = y <-> In e (bucket (buildEdgeTable p maxHeight) y)).
Proof.
  unfold scanTrace, scanPolygon. intros Htr Hin He.
  destruct (length p <? 3)%nat; [inversion Htr; subst; destruct Hin|].
  destruct (_ <=? _); [inversion Htr; subst; destruct Hin|].
  eapply (@scanLoop_invariant (buildEdgeTable p maxHeight)); eauto.
  - apply buildEdgeTable_rows.
  - intros e0 [].
Qed.

Lemma aet_edges_within_rows_witness :
  scanTrace ell 12 = Some (traceOf ell 12)
  /\ In (5, [ellLeft; ellStep]) (traceOf ell 12)
  /\ minimumY ellStep <= 5 <= maximumY ellStep
  /\ (minimumY ellStep < 5 -> 5 < maximumY ellStep)
  /\ (minimumY ellStep = 5 <->
      In ellStep (bucket (buildEdgeTable ell 12) 5)).
Proof.
  split; [vm_compute; reflexivity|].
  split; [vm_compute; do 5 right; left; reflexivity|].
  apply (@aet_edges_within_rows ell 12 (traceOf ell 12) 5
           [ellLeft; ellStep] ellStep).
  - vm_compute; reflexivity.
  - vm_compute; do 5 right; left; reflexivity.
  - simpl; auto.
Defined.

(** C4 as stated fails on the L-shaped hexagon: on row 5 the AET holds the
    horizontal edge of that row, whose [maximumY] is 5, next to the left
    edge, and the pair is drawn as a span. *)
Lemma aet_edge_on_its_last_row :
  exists tr,
    scanTrace ell 12 = Some tr
    /\ In (5, [ellLeft; ellStep]) tr
    /\ In ellStep [ellLeft; ellStep]
    /\ ~ (5 < maximumY ellStep)
    /\ emitFill 12 60 5 [ellLeft; ellStep] = [DrawSpan 5 0 10].
Proof.
  exists (traceOf ell 12).
  split; [vm_compute; reflexivity|].
  split; [vm_compute; do 5 right; left; reflexivity|].
  split; [simpl; auto|].
  split; [simpl; lia|vm_compute; reflexivity].
Qed.

(** ** What [fillPolygon] draws lies in the raster *)

Lemma spanOf_inRaster (maxHeight maxWidth y : Z) (a b : EdgeData)
    (d : Drawn) :
  In d (spanOf maxHeight maxWidth y a b) -> inRaster maxHeight maxWidth d.
Proof.
  unfold spanOf.
  destruct (roundX a >? roundX b) eqn:E1;
    repeat case_if; simpl; intros H; try tauto;
    destruct H as [<-|[]]; simpl; bool_lia.
Qed.

Lemma pointOf_inRaster (maxHeight maxWidth y : Z) (aet : list EdgeData)
    (d : Drawn) :
  In d (pointOf maxHeight maxWidth y aet) -> inRaster maxHeight maxWidth d.
Proof.
  unfold pointOf. case_if; simpl; intros H; try tauto.
  destruct H as [<-|[]]; simpl. bool_lia.
Qed.

Lemma emitFill_inRaster (maxHeight maxWidth y : Z) (aet : list EdgeData)
    (d : Drawn) :
  In d (emitFill maxHeight maxWidth y aet) -> inRaster maxHeight maxWidth d.
Proof.
  rewrite emitFill_pairs. destruct (2 <=? length aet)%nat; [|intros []].
  rewrite in_app_iff, in_flat_map. intros [[[a b] [_ H]]|H].
  - eapply spanOf_inRaster; eauto.
  - destruct (Nat.odd (length aet)); [|destruct H].
    eapply pointOf_inRaster; eauto.
Qed.

(** C9: every span [fillPolygon] draws lies on a row of [0, maxHeight) with
    [0 <= xStart <= xEnd <= maxWidth - 1], every single point lies on such
    a row with [0 <= x < maxWidth], and a pair whose clamped interval is
    empty draws nothing. *)
Theorem fill_within_raster (p : list Point2D) (maxHeight maxWidth : Z) :
  (exists out,
     fillPolygon p maxHeight maxWidth = Some out
     /\ Forall (inRaster maxHeight maxWidth) out)
  /\ (forall y a b,
        Z.min (maxWidth - 1) (Z.max (roundX a) (roundX b))
        < Z.max 0 (Z.min (roundX a) (roundX b)) ->
        spanOf maxHeight maxWidth y a b = []).
Proof.
  split.
  - destruct (scanPolygon_total (emitFill maxHeight maxWidth) p maxHeight)
      as [out Hout].
    exists out. split; [exact Hout|].
    unfold fillPolygon in *. rewrite scanPolygon_trace in Hout.
    destruct (scanTrace p maxHeight) as [tr|]; [|discriminate].
    inversion Hout; subst. apply Forall_forall. intros d Hd.
    apply in_flat_map in Hd. destruct Hd as [[y aet] [_ Hd]].
    eapply emitFill_inRaster; eauto.
  - intros y a b. unfold spanOf.
    destruct (roundX a >? roundX b) eqn:E1;
      repeat case_if; auto; bool_lia.
Qed.

Lemma fill_within_raster_witness :
  Z.min (5 - 1) (Z.max (roundX squareLeft) (roundX squareRight))
  < Z.max 0 (Z.min (roundX squareLeft) (roundX squareRight))
  /\ spanOf 60 5 20 squareLeft squareRight = [].
Proof.
  assert (H : Z.min (5 - 1) (Z.max (roundX squareLeft) (roundX squareRight))
              < Z.max 0 (Z.min (roundX squareLeft) (roundX squareRight)))
    by (vm_compute; reflexivity).
  split; [exact H|].
  exact (proj2 (fill_within_raster [] 60 5) 20 squareLeft squareRight H).
Defined.

(** ** The unpaired last edge *)

(** C3 (amended): on a row whose AET holds an odd number of edges, three or
    more, [fillPolygon] draws the spans of the pairs and then a single
    point at the rounded [currentX] of the last edge, provided that point
    lies in the raster; on a row whose AET holds exactly one edge it draws
    nothing.  What [fillPolygon] draws is what this step draws on the rows
    the loop visits. *)
Theorem odd_row_emission (maxHeight maxWidth y : Z) (aet : list EdgeData) :
  Nat.odd (length aet) = true ->
  emitFill maxHeight maxWidth y aet =
  (if (length aet =? 1)%nat then []
   else
     flat_map (fun ab => spanOf maxHeight maxWidth y (fst ab) (snd ab))
              (pairsOf aet)
     ++ (let x := roundX (last aet noEdge) in
         if (0 <=? x) && (x <? maxWidth) && inTable maxHeight y
         then [DrawPoint y x] else []))
  /\ forall p,
       fillPolygon p maxHeight maxWidth =
       option_map
         (flat_map (fun s => emitFill maxHeight maxWidth (fst s) (snd s)))
         (scanTrace p maxHeight).
Proof.
  intros Hodd. split; [|intros p; apply scanPolygon_trace].
  rewrite emitFill_pairs, Hodd. unfold pointOf. rewrite nth_last.
  destruct aet as [|a [|b l]]; simpl in *; try discriminate; reflexivity.
Qed.

Lemma odd_row_emission_witness :
  Nat.odd (length [ellLeft; ellStep; ellStep]) = true
  /\ emitFill 12 60 5 [ellLeft; ellStep; ellStep] =
     [DrawSpan 5 0 10; DrawPoint 5 10].
Proof.
  split; [reflexivity|].
  destruct (@odd_row_emission 12 60 5 [ellLeft; ellStep; ellStep] eq_refl)
    as [H _].
  rewrite H. vm_compute. reflexivity.
Defined.

(** C3 as stated fails on the square: on row 10 the AET holds one edge, the
    horizontal edge of that row, whose rounded x is 10 and lies in the
    raster, and nothing is drawn on row 10. *)
Lemma single_edge_row_draws_nothing :
  exists tr out,
    scanTrace square 60 = Some tr
    /\ fillPolygon square 60 60 = Some out
    /\ In (10, [squareTop]) tr
    /\ Nat.odd (length [squareTop]) = true
    /\ roundX squareTop = 10
    /\ emitFill 60 60 10 [squareTop] = []
    /\ ~ In (DrawPoint 10 10) out.
Proof.
  exists (traceOf square 60), (map (fun y => DrawSpan y 10 50) (rowsFrom 11 39)).
  split; [vm_compute; reflexivity|].
  split; [vm_compute; reflexivity|].
  split; [vm_compute; left; reflexivity|].
  split; [reflexivity|].
  split; [vm_compute; reflexivity|].
  split; [reflexivity|].
  rewrite in_map_iff. intros [r [Hr _]]. discriminate.
Qed.

(** ** Triangles of a row *)

(** C8: for the pairs [(aet[0], aet[1]), (aet[2], aet[3]), ...] of the
    sorted AET on row [y], and for nothing else, [generateTriangulation]
    appends the two triangles [(xA, y), (xB, y), (xA', y+1)] and
    [(xB, y), (xB', y+1), (xA', y+1)] with [xA' = xA + inverseSlopeA] and
    [xB' = xB + inverseSlopeB], each x truncated to an integer. *)
Theorem triangles_of_pairs (p : list Point2D) (maxHeight : Z) :
  let twoTriangles (y : Z) (edgeA edgeB : EdgeData) : list Triangle :=
    let xA := currentX edgeA in
    let xB := currentX edgeB in
    let xA' := Double.add xA (inverseSlope edgeA) in
    let xB' := Double.add xB (inverseSlope edgeB) in
    [ [pt (Double.to_int xA) y; pt (Double.to_int xB) y;
       pt (Double.to_int xA') (y + 1)];
      [pt (Double.to_int xB) y; pt (Double.to_int xB') (y + 1);
       pt (Double.to_int xA') (y + 1)] ] in
  (forall y aet,
     emitTriangles y aet =
     flat_map (fun ab => twoTriangles y (fst ab) (snd ab)) (pairsOf aet))
  /\ generateTriangulation p maxHeight =
     option_map
       (flat_map (fun s =>
          flat_map (fun ab => twoTriangles (fst s) (fst ab) (snd ab))
                   (pairsOf (snd s))))
       (scanTrace p maxHeight).
Proof.
  intros twoTriangles.
  assert (H : forall y aet,
             emitTriangles y aet =
             flat_map (fun ab => twoTriangles y (fst ab) (snd ab))
                      (pairsOf aet))
    by (intros; apply emitTriangles_pairs).
  split; [exact H|].
  unfold generateTriangulation. rewrite scanPolygon_trace.
  destruct (scanTrace p maxHeight) as [tr|]; simpl; auto.
  f_equal. induction tr as [|s tr IH]; simpl; auto.
  rewrite H, IH. reflexivity.
Qed.

(** ** Scenario A *)

Lemma squareSides_span (maxWidth y : Z) :
  51 <= maxWidth -> 0 <= y < 60 ->
  emitFill 60 maxWidth y [squareLeft; squareRight] = [DrawSpan y 10 50].
Proof.
  intros Hw Hy. unfold emitFill, forPairs, spanOf, pointOf.
  cbn [length nth Nat.leb Nat.ltb Nat.sub Nat.add Nat.modulo Nat.eqb].
  replace (roundX squareLeft) with 10 by (vm_compute; reflexivity).
  replace (roundX squareRight) with 50 by (vm_compute; reflexivity).
  simpl. repeat case_if; bool_lia; reflexivity.
Qed.

Lemma squareSides_rows (maxWidth : Z) (n : nat) (y : Z) :
  51 <= maxWidth -> 0 <= y -> y + Z.of_nat n <= 60 ->
  flat_map (fun s => emitFill 60 maxWidth (fst s) (snd s))
           (map (fun r => (r, [squareLeft; squareRight])) (rowsFrom y n))
  = map (fun r => DrawSpan r 10 50) (rowsFrom y n).
Proof.
  intros Hw. revert y; induction n as [|n IH]; intros y H0 Hn; simpl; auto.
  cbn [rowsFrom map flat_map fst snd].
  rewrite squareSides_span by lia. rewrite IH by lia. reflexivity.
Qed.

(** C2 (amended): on the square with corners (10,10), (50,10), (50,50),
    (10,50), with [maxHeight = 60] and any [maxWidth] from 51 on,
    [fillPolygon] draws the span [10 .. 50] once on every row 11 to 49 and
    nothing on any other row. *)
Theorem square_fill_rows (maxWidth : Z) :
  51 <= maxWidth ->
  fillPolygon square 60 maxWidth =
  Some (map (fun y => DrawSpan y 10 50) (rowsFrom 11 39)).
Proof.
  intros Hw. unfold fillPolygon. rewrite scanPolygon_trace.
  replace (scanTrace square 60) with
    (Some ([(10, [squareTop])]
           ++ map (fun r => (r, [squareLeft; squareRight])) (rowsFrom 11 39)
           ++ [(50, [squareBottom])]
           ++ map (fun r => (r, [])) (rowsFrom 51 9)))
    by (vm_compute; reflexivity).
  cbn [option_map]. f_equal.
  rewrite !flat_map_app. rewrite squareSides_rows by lia.
  vm_compute. reflexivity.
Qed.

Lemma square_fill_rows_witness :
  51 <= 60
  /\ fillPolygon square 60 60 =
     Some (map (fun y => DrawSpan y 10 50) (rowsFrom 11 39)).
Proof.
  split; [lia|]. apply (@square_fill_rows 60). lia.
Defined.

(** C2 as stated fails: the fill of the square is not one span [10 .. 50]
    on each of the rows 10 to 49, and no span is drawn on row 10. *)
Lemma square_row_10_not_filled :
  fillPolygon square 60 60 <>
  Some (map (fun y => DrawSpan y 10 50) (rowsFrom 10 40))
  /\ exists out,
       fillPolygon square 60 60 = Some out
       /\ forall x1 x2, ~ In (DrawSpan 10 x1 x2) out.
Proof.
  split.
  - vm_compute. discriminate.
  - exists (map (fun y => DrawSpan y 10 50) (rowsFrom 11 39)).
    split; [vm_compute; reflexivity|].
    intros x1 x2. rewrite in_map_iff. intros [r [Hr Hin]].
    apply rowsFrom_In in Hin. inversion Hr; subst. lia.
Qed.

(** ** Binning one edge *)

Lemma somes_In (A : Type) (l : list (option A)) (x : A) :
  In x (somes l) <-> In (Some x) l.
Proof.
  induction l as [|[a|] l IH]; simpl; [tauto| |].
  - rewrite IH. split; intros [H|H]; auto; left; congruence.
  - rewrite IH. split; [auto|]. intros [H|H]; [discriminate|auto].
Qed.

Lemma edgeEntry_binned (p : list Point2D) (maxHeight : Z) (i : nat)
    (r : Z) (e : EdgeData) :
  (2 <= length p)%nat -> (i < length p)%nat ->
  edgeEntry p maxHeight i = Some (r, e) ->
  In e (bucket (buildEdgeTable p maxHeight) r).
Proof.
  intros Hn Hi He. rewrite buildEdgeTable_bucket by auto.
  unfold binnedAt. apply in_map_iff. exists (r, e). split; auto.
  apply filter_In. simpl. split; [|apply Z.eqb_refl].
  apply somes_In. unfold entriesOf. rewrite <- He.
  apply in_map. apply in_seq. lia.
Qed.

(** C1 (amended): a non-horizontal edge whose lower endpoint lies on a row
    [yMin] of [0, maxHeight) is adjusted exactly when the vertex adjacent to
    its lower endpoint, other than its upper endpoint, lies on a row
    [>= yMin]: the edge is then binned at [yMin + 1] with its starting x
    advanced by one [inverseSlope] step, or dropped when [yMin + 1] is not a
    row of the table.  When that vertex lies on a row [< yMin] the edge is
    binned at [yMin] with the x of its lower endpoint. *)
Theorem edge_binning (p : list Point2D) (maxHeight : Z) (i : nat) :
  let lo := lowerEndpoint p i in
  let hi := upperEndpoint p i in
  let other := otherNeighbour p i in
  let yMin := coordinateY lo in
  let slope := calculateInverseSlope lo hi in
  let x := Double.of_int (coordinateX lo) in
  (2 <= length p)%nat -> (i < length p)%nat ->
  coordinateY (vertexAt p i)
    <> coordinateY (vertexAt p ((i + 1) mod length p)) ->
  0 <= yMin < maxHeight ->
  edgeEntry p maxHeight i =
    (if coordinateY other <? yMin
     then Some (yMin, mkEdgeData (coordinateY hi) x slope yMin)
     else if yMin + 1 <? maxHeight
          then Some (yMin + 1,
                     mkEdgeData (coordinateY hi) (Double.add x slope) slope
                                (yMin + 1))
          else None)
  /\ forall r e, edgeEntry p maxHeight i = Some (r, e) ->
                 In e (bucket (buildEdgeTable p maxHeight) r).
Proof.
  intros lo hi other yMin slope x Hn Hi Hne Hy.
  split; [|intros r e; apply edgeEntry_binned; auto].
  subst lo hi other yMin slope x.
  unfold edgeEntry, lowerEndpoint, upperEndpoint, otherNeighbour in *.
  set (cur := vertexAt p i) in *.
  set (next := vertexAt p ((i + 1) mod length p)) in *.
  set (prev := vertexAt p ((i + length p - 1) mod length p)) in *.
  set (next2 := vertexAt p ((i + 2) mod length p)) in *.
  destruct (Z.eqb_spec (coordinateY cur) (coordinateY next)); [contradiction|].
  destruct (coordinateY cur >? coordinateY next) eqn:Hgt; cbn zeta iota beta.
  - unfold inTable.
    destruct (Z.leb_spec 0 (coordinateY next)); [|lia].
    destruct (Z.ltb_spec (coordinateY next) maxHeight); [|lia].
    cbn [andb].
    destruct (Z.eqb_spec (coordinateY next) (coordinateY cur)); [lia|].
    rewrite andb_false_r.
    destruct (Z.ltb_spec (coordinateY cur) (coordinateY next)); [bool_lia|].
    destruct (coordinateY next2 <? coordinateY next); cbn [Bool.eqb];
      [|destruct (Z.leb_spec 0 (coordinateY next + 1)); [|lia]];
      cbn [andb]; try reflexivity.
    destruct (Z.leb_spec 0 (coordinateY next)); [|lia].
    destruct (Z.ltb_spec (coordinateY next) maxHeight); [|lia].
    reflexivity.
  - unfold inTable.
    destruct (Z.leb_spec 0 (coordinateY cur)); [|lia].
    destruct (Z.ltb_spec (coordinateY cur) maxHeight); [|lia].
    cbn [andb]. rewrite !Z.eqb_refl. cbn [andb].
    destruct (Z.ltb_spec (coordinateY next) (coordinateY cur)); [bool_lia|].
    destruct (coordinateY prev <? coordinateY cur); cbn [Bool.eqb];
      [|destruct (Z.leb_spec 0 (coordinateY cur + 1)); [|lia]];
      cbn [andb]; try reflexivity.
    destruct (Z.leb_spec 0 (coordinateY cur)); [|lia].
    destruct (Z.ltb_spec (coordinateY cur) maxHeight); [|lia].
    reflexivity.
Qed.

Lemma edge_binning_witness :
  (2 <= length square)%nat /\ (1 < length square)%nat
  /\ coordinateY (vertexAt square 1)
       <> coordinateY (vertexAt square ((1 + 1) mod length square))
  /\ 0 <= coordinateY (lowerEndpoint square 1) < 60
  /\ edgeEntry square 60 1 = Some (11, squareRight)
  /\ In squareRight (bucket (buildEdgeTable square 60) 11).
Proof.
  assert (H1 : (2 <= length square)%nat) by (simpl; lia).
  assert (H2 : (1 < length square)%nat) by (simpl; lia).
  assert (H3 : coordinateY (vertexAt square 1)
               <> coordinateY (vertexAt square ((1 + 1) mod length square)))
    by (simpl; lia).
  assert (H4 : 0 <= coordinateY (lowerEndpoint square 1) < 60)
    by (simpl; lia).
  destruct (@edge_binning square 60 1 H1 H2 H3 H4) as [He Hb].
  split; [exact H1|]. split; [exact H2|]. split; [exact H3|].
  split; [exact H4|]. split.
  - rewrite He. vm_compute. reflexivity.
  - apply Hb. rewrite He. vm_compute. reflexivity.
Defined.

(** C1 as stated fails on the right edge of the square, from (50,10) to
    (50,50): of the two vertices adjacent to its lower endpoint (50,10),
    one, (10,10), lies on the same row, so not both lie strictly above; the
    edge is binned at row 11 all the same, not at row 10. *)
Lemma equal_row_neighbour_adjusted :
  lowerEndpoint square 1 = pt 50 10
  /\ upperEndpoint square 1 = pt 50 50
  /\ otherNeighbour square 1 = pt 10 10
  /\ specEdgeEntry square 1
     = Some (10, mkEdgeData 50 (Double.of_int 50) Double.zero 10)
  /\ edgeEntry square 60 1
     = Some (11, mkEdgeData 50 (Double.of_int 50) Double.zero 11)
  /\ edgeEntry square 60 1 <> specEdgeEntry square 1
  /\ bucket (buildEdgeTable square 60) 10 = [squareTop].
Proof.
  repeat split; try (vm_compute; reflexivity).
  vm_compute. discriminate.
Qed.

(** ** Which edges the AET holds on a row *)

Lemma advance_maximumY (n : nat) (e : EdgeData) :
  maximumY (advance n e) = maximumY e.
Proof. induction n as [|n IH]; simpl; auto. Qed.

Section Active.

Variable et : EdgeTable.
Variable E : list (Z * EdgeData).

(** The buckets of the table hold the edges of [E], each at its row. *)
Hypothesis bucket_E : forall r, bucket et r = binnedAt r E.
Hypothesis rows_E : forall x, In x E -> 0 <= fst x < tableSize et.

Lemma mergeRow_active (y : Z) (aet : list EdgeData) :
  Permutation aet (carriedAt E y) ->
  Permutation (mergeRow et y aet) (activeAt E y).
Proof.
  intros Ha. eapply Permutation_trans; [apply mergeRow_perm|].
  unfold activeAt, carriedAt in *.
  rewrite (filter_ext_in (isActive y)
             (fun x => isCarried y x || (fst x =? y))).
  - eapply Permutation_trans;
      [|apply Permutation_sym, Permutation_map, filter_split].
    + rewrite map_app. apply Permutation_app; [exact Ha|].
      rewrite bucket_E. unfold binnedAt.
      rewrite (map_ext_in (advanceTo y) snd); [apply Permutation_refl|].
      intros x Hx. apply filter_In in Hx. destruct Hx as [_ Hx].
      apply Z.eqb_eq in Hx. unfold advanceTo. rewrite Hx, Z.sub_diag.
      reflexivity.
    + intros x _. unfold isCarried.
      destruct (Z.eqb_spec (fst x) y); [|apply andb_false_r].
      destruct (Z.ltb_spec (fst x) y); [lia|reflexivity].
  - intros x _. unfold isActive, isCarried.
    destruct (Z.leb_spec (fst x) y), (Z.eqb_spec (fst x) y),
      (Z.ltb_spec (fst x) y), (y <? maximumY (snd x)); simpl; auto; lia.
Qed.

Lemma nextAET_carried (y : Z) (sorted : list EdgeData) :
  Permutation sorted (activeAt E y) ->
  Permutation (nextAET y sorted) (carriedAt E (y + 1)).
Proof.
  intros Hs. unfold nextAET, removeFinished.
  eapply Permutation_trans;
    [apply Permutation_filter, Permutation_map, Hs|].
  unfold activeAt, carriedAt. rewrite map_map.
  rewrite filter_map_swap, filter_filter.
  rewrite (filter_ext_in _ (isCarried (y + 1))).
  - rewrite (map_ext_in (fun x => advanceX (advanceTo y x))
                        (advanceTo (y + 1)));
      [apply Permutation_refl|].
    intros x Hx. apply filter_In in Hx. destruct Hx as [_ Hx].
    unfold isCarried in Hx. unfold advanceTo.
    replace (Z.to_nat (y + 1 - fst x)) with (S (Z.to_nat (y - fst x)))
      by bool_lia.
    reflexivity.
  - intros x _. unfold isActive, isCarried, advanceTo. simpl.
    rewrite advance_maximumY.
    destruct (Z.leb_spec (fst x) y), (Z.eqb_spec (fst x) y),
      (Z.ltb_spec (fst x) (y + 1)), (Z.ltb_spec y (maximumY (snd x))),
      (Z.ltb_spec (y + 1) (maximumY (snd x))),
      (Z.leb_spec (maximumY (snd x)) (y + 1)); simpl; auto; lia.
Qed.

(** On every row the loop visits, the sorted AET is a permutation of the
    edges binned at this row or before it that have not reached their
    [maximumY], each advanced by one step per row since its bucket row. *)
Lemma scanLoop_active (fuel : nat) (y : Z) (aet : list EdgeData)
    (tr : list (Z * list EdgeData)) :
  scanLoop emitState fuel et y aet = Some tr ->
  Permutation aet (carriedAt E y) ->
  forall y' a, In (y', a) tr -> Permutation a (activeAt E y').
Proof.
  revert y aet tr; induction fuel as [|fuel IH]; intros y aet tr;
    [discriminate|].
  cbn [scanLoop]. destruct (scanning et y aet).
  - destruct (isEmpty _ && _).
    + intros H Ha y' a Hin. inversion H; subst.
      destruct Hin as [Hin|[]]. inversion Hin; subst.
      apply mergeRow_active; auto.
    + destruct (scanLoop emitState fuel et (y + 1) _) as [rest|] eqn:Hr;
        [|discriminate].
      intros H Ha y' a Hin. inversion H; subst.
      destruct Hin as [Hin|Hin].
      * inversion Hin; subst. apply mergeRow_active; auto.
      * eapply IH; eauto. apply nextAET_carried, mergeRow_active; auto.
  - intros H _ y' a Hin. inversion H; subst. destruct Hin.
Qed.

(** The loop does not stop before a row on which some edge is active. *)
Lemma scanLoop_reaches (fuel : nat) (y : Z) (aet : list EdgeData)
    (tr : list (Z * list EdgeData)) :
  scanLoop emitState fuel et y aet = Some tr ->
  Permutation aet (carriedAt E y) ->
  forall y' x, y <= y' -> In x E -> isActive y' x = true ->
  exists a, In (y', a) tr.
Proof.
  revert y aet tr; induction fuel as [|fuel IH]; intros y aet tr;
    [discriminate|].
  cbn [scanLoop]. intros H Ha y' x Hy Hx Hact.
  assert (Hcar : forall z, y <= z -> z <= y' ->
                 tableSize et <= z -> In (advanceTo z x) (carriedAt E z)).
  { intros z Hz1 Hz2 Hz3. unfold carriedAt. apply in_map.
    apply filter_In. split; auto. specialize (rows_E _ Hx).
    unfold isActive in Hact. unfold isCarried. lia. }
  destruct (scanning et y aet) eqn:Hc.
  - destruct (isEmpty _ && _) eqn:Hb.
    + inversion H; subst.
      destruct (Z.eq_dec y' y) as [->|Hne]; [eexists; left; reflexivity|].
      exfalso. bool_lia. apply isEmpty_true in H0.
      assert (Hp : Permutation (nextAET y (mergeRow et y aet))
                               (carriedAt E (y + 1)))
        by (apply nextAET_carried, mergeRow_active; auto).
      rewrite H0 in Hp. apply Permutation_nil in Hp.
      specialize (Hcar (y + 1)). rewrite Hp in Hcar. apply Hcar; lia.
    + destruct (scanLoop emitState fuel et (y + 1) _) as [rest|] eqn:Hr;
        [|discriminate].
      inversion H; subst.
      destruct (Z.eq_dec y' y) as [->|Hne]; [eexists; left; reflexivity|].
      destruct (IH _ _ _ Hr) with (y' := y') (x := x) as [a Hin]; auto.
      * apply nextAET_carried, mergeRow_active; auto.
      * lia.
      * exists a. right. exact Hin.
  - exfalso. unfold scanning in Hc. bool_lia. apply isEmpty_true in H1.
    subst. apply Permutation_nil in Ha.
    specialize (Hcar y). rewrite Ha in Hcar. apply Hcar; lia.
Qed.

End Active.

Lemma filter_none (A : Type) (f : A -> bool) (l : list A) :
  (forall x, In x l -> f x = false) -> filter f l = [].
Proof.
  induction l as [|a l IH]; simpl; intros H; auto.
  rewrite (H a) by auto. apply IH. auto.
Qed.

(** Two pushed entries at different positions both satisfying [f] make the
    filter at least two long. *)
Lemma filter_two (A : Type) (f : A -> bool) (l : list (option A))
    (i j : nat) (a b : A) :
  (i < j)%nat ->
  nth_error l i = Some (Some a) -> nth_error l j = Some (Some b) ->
  f a = true -> f b = true ->
  (2 <= length (filter f (somes l)))%nat.
Proof.
  intros Hij Ha Hb Hfa Hfb. revert i j Hij Ha Hb.
  induction l as [|o l IH]; intros i j Hij Ha Hb.
  - destruct i; discriminate.
  - destruct j as [|j]; [lia|]. simpl in Hb. destruct i as [|i].
    + simpl in Ha. inversion Ha; subst. simpl. rewrite Hfa. simpl.
      assert (Hin : In b (filter f (somes l))).
      { apply filter_In. split; auto. apply somes_In.
        eapply nth_error_In; eauto. }
      destruct (filter f (somes l)); [destruct Hin|simpl; lia].
    + simpl in Ha. assert (H2 := IH i j ltac:(lia) Ha Hb).
      destruct o as [c|]; simpl; auto.
      destruct (f c); simpl; lia.
Qed.

Lemma entriesOf_nth (p : list Point2D) (maxHeight : Z) (i : nat) :
  (i < length p)%nat ->
  nth_error (entriesOf p maxHeight) i = Some (edgeEntry p maxHeight i).
Proof.
  intros Hi. unfold entriesOf. rewrite nth_error_map, nth_error_seq.
  destruct (Nat.ltb_spec i (length p)); [reflexivity|lia].
Qed.

(** No edge is binned before the row the loop starts at. *)
Lemma entries_after_start (p : list Point2D) (maxHeight : Z)
    (x : Z * EdgeData) :
  (2 <= length p)%nat ->
  In x (somes (entriesOf p maxHeight)) ->
  Z.of_nat (skipEmpty (buildEdgeTable p maxHeight)) <= fst x
  /\ 0 <= fst x < tableSize (buildEdgeTable p maxHeight).
Proof.
  intros Hn Hx. destruct x as [r e]. simpl.
  assert (Hr := entriesOf_rows _ _ _ _ Hx).
  rewrite buildEdgeTable_size. split; [|lia].
  destruct (skipEmpty_spec (buildEdgeTable p maxHeight)) as [_ [Hs _]].
  destruct (Z.le_gt_cases
              (Z.of_nat (skipEmpty (buildEdgeTable p maxHeight))) r)
    as [Hle|Hgt]; auto.
  exfalso. specialize (Hs r ltac:(lia)).
  rewrite buildEdgeTable_bucket in Hs by auto.
  assert (Hin : In e (binnedAt r (somes (entriesOf p maxHeight)))).
  { unfold binnedAt. apply in_map_iff. exists (r, e). split; auto.
    apply filter_In. split; auto. simpl. apply Z.eqb_refl. }
  rewrite Hs in Hin. destruct Hin.
Qed.

(** The loop of a polygon, with what its AET holds on each row. *)
Lemma scanTrace_active (p : list Point2D) (maxHeight : Z)
    (tr : list (Z * list EdgeData)) :
  (3 <= length p)%nat ->
  scanTrace p maxHeight = Some tr ->
  let E := somes (entriesOf p maxHeight) in
  (forall y a, In (y, a) tr -> Permutation a (activeAt E y))
  /\ (forall y x, In x E -> isActive y x = true -> exists a, In (y, a) tr).
Proof.
  intros Hn Htr E. unfold scanTrace, scanPolygon in Htr.
  destruct (Nat.ltb_spec (length p) 3); [lia|].
  set (et := buildEdgeTable p maxHeight) in *.
  assert (HbE : forall r, bucket et r = binnedAt r E)
    by (intros; apply buildEdgeTable_bucket; lia).
  assert (HrE : forall x, In x E -> 0 <= fst x < tableSize et)
    by (intros x Hx; apply entries_after_start; auto; lia).
  assert (Hst : forall x, In x E -> Z.of_nat (skipEmpty et) <= fst x)
    by (intros x Hx; apply entries_after_start; auto; lia).
  assert (Hc0 : carriedAt E (Z.of_nat (skipEmpty et)) = []).
  { unfold carriedAt. rewrite filter_none; auto.
    intros x Hx. specialize (Hst x Hx). unfold isCarried. lia. }
  destruct (Z.leb_spec (tableSize et) (Z.of_nat (skipEmpty et))).
  - inversion Htr; subst. split; [intros y a []|].
    intros y x Hx _. specialize (HrE x Hx). specialize (Hst x Hx). lia.
  - split.
    + eapply scanLoop_active; eauto. rewrite Hc0. constructor.
    + intros y x Hx Hact.
      eapply (@scanLoop_reaches et E HbE HrE); eauto.
      * rewrite Hc0. constructor.
      * specialize (Hst x Hx). unfold isActive in Hact. lia.
Qed.

(** C10 (amended): [generateTriangulation] applies no row clamp.  For a
    polygon of three or more vertices, an edge that [buildEdgeTable] bins
    (its row, after the adjustment, lies in [0, maxHeight)) is in the AET on
    every row from its bucket row to [maximumY - 1]; and when two edges are
    binned whose [maximumY] exceed [maxHeight], triangles are emitted on
    every row from [maxHeight] up to the smaller [maximumY - 1]. *)
Theorem triangulation_not_clamped (p : list Point2D) (maxHeight : Z)
    (i j : nat) (ri rj : Z) (ei ej : EdgeData) :
  (3 <= length p)%nat -> (i < j < length p)%nat ->
  edgeEntry p maxHeight i = Some (ri, ei) ->
  edgeEntry p maxHeight j = Some (rj, ej) ->
  maxHeight < maximumY ei -> maxHeight < maximumY ej ->
  exists tr tris,
    scanTrace p maxHeight = Some tr
    /\ generateTriangulation p maxHeight = Some tris
    /\ (forall y, ri <= y < maximumY ei ->
          exists aet, In (y, aet) tr /\ In (advanceTo y (ri, ei)) aet)
    /\ (forall y, rj <= y < maximumY ej ->
          exists aet, In (y, aet) tr /\ In (advanceTo y (rj, ej)) aet)
    /\ (forall y, maxHeight <= y < Z.min (maximumY ei) (maximumY ej) ->
          exists aet t,
            In (y, aet) tr /\ (2 <= length aet)%nat
            /\ In t tris /\ map coordinateY t = [y; y; y + 1]).
Proof.
  intros Hn Hij Hi Hj Hmi Hmj.
  destruct (scanPolygon_total emitState p maxHeight) as [tr Htr].
  exists tr, (flat_map (fun s => emitTriangles (fst s) (snd s)) tr).
  split; [exact Htr|].
  split; [unfold generateTriangulation; rewrite scanPolygon_trace;
          unfold scanTrace; rewrite Htr; reflexivity|].
  destruct (scanTrace_active p maxHeight Hn Htr) as [Hact Hreach].
  set (E := somes (entriesOf p maxHeight)) in *.
  assert (Hin : forall k r e, (k < length p)%nat ->
                  edgeEntry p maxHeight k = Some (r, e) -> In (r, e) E).
  { intros k r e Hk He. apply somes_In. rewrite <- He.
    eapply nth_error_In. apply entriesOf_nth. exact Hk. }
  assert (Hrow : forall k r e, (k < length p)%nat ->
                   edgeEntry p maxHeight k = Some (r, e) ->
                   forall y, r <= y < maximumY e ->
                   exists aet, In (y, aet) tr /\ In (advanceTo y (r, e)) aet).
  { intros k r e Hk He y Hy.
    assert (Ha : isActive y (r, e) = true) by (unfold isActive; simpl; lia).
    destruct (Hreach y (r, e) (Hin _ _ _ Hk He) Ha) as [aet Haet].
    exists aet. split; auto.
    eapply Permutation_in; [apply Permutation_sym, (Hact _ _ Haet)|].
    unfold activeAt. apply in_map. apply filter_In. split; eauto. }
  split; [apply (Hrow i); auto; lia|].
  split; [apply (Hrow j); auto; lia|].
  intros y Hy.
  destruct (edgeEntry_row _ _ _ Hi) as [Hri _].
  destruct (edgeEntry_row _ _ _ Hj) as [Hrj _].
  assert (Hai : isActive y (ri, ei) = true) by (unfold isActive; simpl; lia).
  assert (Haj : isActive y (rj, ej) = true) by (unfold isActive; simpl; lia).
  assert (Hi' : (i < length p)%nat) by lia.
  destruct (Hreach y (ri, ei) (Hin _ _ _ Hi' Hi) Hai) as [aet Haet].
  assert (Hlen : (2 <= length aet)%nat).
  { rewrite (Permutation_length (Hact _ _ Haet)).
    unfold activeAt. rewrite length_map.
    apply (@filter_two _ (isActive y) (entriesOf p maxHeight) i j
             (ri, ei) (rj, ej)); auto; try lia.
    - rewrite entriesOf_nth by lia. rewrite Hi. reflexivity.
    - rewrite entriesOf_nth by lia. rewrite Hj. reflexivity. }
  destruct aet as [|a [|b rest]]; simpl in Hlen; try lia.
  exists (a :: b :: rest).
  exists [pt (Double.to_int (currentX a)) y;
          pt (Double.to_int (currentX b)) y;
          pt (Double.to_int (Double.add (currentX a) (inverseSlope a)))
             (y + 1)].
  split; [exact Haet|]. split; [simpl; lia|]. split; [|reflexivity].
  apply in_flat_map. exists (y, a :: b :: rest). split; auto.
  rewrite emitTriangles_pairs. simpl. left. reflexivity.
Qed.

Lemma triangulation_not_clamped_witness :
  (3 <= length vee)%nat /\ (0 < 1 < length vee)%nat
  /\ edgeEntry vee 3 0 = Some (1, veeLeft)
  /\ edgeEntry vee 3 1 = Some (1, veeRight)
  /\ 3 < maximumY veeLeft /\ 3 < maximumY veeRight
  /\ exists tr tris,
       scanTrace vee 3 = Some tr
       /\ generateTriangulation vee 3 = Some tris
       /\ (forall y, 1 <= y < maximumY veeLeft ->
             exists aet, In (y, aet) tr /\ In (advanceTo y (1, veeLeft)) aet)
       /\ (forall y, 1 <= y < maximumY veeRight ->
             exists aet,
               In (y, aet) tr /\ In (advanceTo y (1, veeRight)) aet)
       /\ (forall y,
             3 <= y < Z.min (maximumY veeLeft) (maximumY veeRight) ->
             exists aet t,
               In (y, aet) tr /\ (2 <= length aet)%nat
               /\ In t tris /\ map coordinateY t = [y; y; y + 1]).
Proof.
  assert (H1 : (3 <= length vee)%nat) by (simpl; lia).
  assert (H2 : (0 < 1 < length vee)%nat) by (simpl; lia).
  assert (H3 : edgeEntry vee 3 0 = Some (1, veeLeft))
    by (vm_compute; reflexivity).
  assert (H4 : edgeEntry vee 3 1 = Some (1, veeRight))
    by (vm_compute; reflexivity).
  assert (H5 : 3 < maximumY veeLeft) by (simpl; lia).
  assert (H6 : 3 < maximumY veeRight) by (simpl; lia).
  split; [exact H1|]. split; [exact H2|]. split; [exact H3|].
  split; [exact H4|]. split; [exact H5|]. split; [exact H6|].
  exact (@triangulation_not_clamped vee 3 0 1 1 1 veeLeft veeRight
           H1 H2 H3 H4 H5 H6).
Defined.

(** C10 as stated fails on the wedge (0,10), (5,4), (10,10) with
    [maxHeight = 5]: its two slanted edges have their lower endpoint on row
    4, inside [0, 5), and [maximumY = 10 > 5]; both are adjusted to row 5,
    which is not a row of the table, so they never enter the AET and no
    triangle is emitted at all. *)
Lemma clipped_valley_emits_nothing :
  lowerEndpoint wedge 0 = pt 5 4 /\ upperEndpoint wedge 0 = pt 0 10
  /\ lowerEndpoint wedge 1 = pt 5 4 /\ upperEndpoint wedge 1 = pt 10 10
  /\ 0 <= 4 < 5 /\ 5 < 10
  /\ edgeEntry wedge 5 0 = None /\ edgeEntry wedge 5 1 = None
  /\ scanTrace wedge 5 = Some []
  /\ generateTriangulation wedge 5 = Some [].
Proof.
  repeat split; try (vm_compute; reflexivity); try lia.
Qed.

(** ** Vertical translation *)

Lemma vertexAt_In (p : list Point2D) (i : nat) :
  (i < length p)%nat -> In (vertexAt p i) p.
Proof. intros. apply nth_In. auto. Qed.

Lemma translate_length (k : Z) (p : list Point2D) :
  length (translate k p) = length p.
Proof. apply length_map. Qed.

Lemma vertexAt_translate (k : Z) (p : list Point2D) (i : nat) :
  (i < length p)%nat ->
  vertexAt (translate k p) i = shiftPoint k (vertexAt p i).
Proof.
  intros Hi. unfold vertexAt, translate.
  rewrite nth_indep with (d' := shiftPoint k origin)
    by (rewrite length_map; auto).
  apply map_nth.
Qed.

Lemma calculateInverseSlope_shift (k : Z) (a b : Point2D) :
  calculateInverseSlope (shiftPoint k a) (shiftPoint k b)
  = calculateInverseSlope a b.
Proof.
  unfold calculateInverseSlope, shiftPoint. simpl.
  replace (coordinateY b + k - (coordinateY a + k))
    with (coordinateY b - coordinateY a) by lia.
  reflexivity.
Qed.

Lemma entry_eq (r r' m m' n n' : Z) (x s : double) :
  r = r' -> m = m' -> n = n' ->
  Some (r, mkEdgeData m x s n) = Some (r', mkEdgeData m' x s n').
Proof. intros; subst; reflexivity. Qed.

(** The edge pushed for an unclipped polygon translated by [k] is the edge
    pushed for the polygon, moved by [k] rows. *)
Lemma edgeEntry_translate (maxHeight k : Z) (p : list Point2D) (i : nat) :
  unclipped maxHeight k p -> (i < length p)%nat ->
  edgeEntry (translate k p) maxHeight i
  = option_map (shiftEntry k) (edgeEntry p maxHeight i).
Proof.
  intros Hu Hi. unfold edgeEntry.
  assert (Hn : length p <> O) by lia.
  rewrite translate_length.
  rewrite !vertexAt_translate by (auto; apply Nat.mod_upper_bound; auto).
  assert (H1 := Hu _ (vertexAt_In p Hi)).
  assert (H2 := Hu _ (vertexAt_In p
                        (Nat.mod_upper_bound (i + 1) (length p) Hn))).
  assert (H3 := Hu _ (vertexAt_In p
                        (Nat.mod_upper_bound (i + length p - 1)
                                             (length p) Hn))).
  assert (H4 := Hu _ (vertexAt_In p
                        (Nat.mod_upper_bound (i + 2) (length p) Hn))).
  destruct (vertexAt p i) as [cx cy].
  destruct (vertexAt p ((i + 1) mod length p)) as [nx ny].
  destruct (vertexAt p ((i + length p - 1) mod length p)) as [px py].
  destruct (vertexAt p ((i + 2) mod length p)) as [qx qy].
  unfold inTable, shiftPoint.
  cbn [coordinateX coordinateY] in *.
  destruct (Z.eqb_spec cy ny) as [Heq|Hne].
  - repeat case_cmp. apply entry_eq; cbn [fst snd maximumY minimumY]; lia.
  - destruct (Z.eqb_spec (cy + k) (ny + k)); [lia|].
    rewrite !Z.gtb_ltb.
    destruct (Z.ltb_spec ny cy); destruct (Z.ltb_spec (ny + k) (cy + k));
      try lia; cbv beta iota zeta.
    + change (mkPoint2D nx (ny + k)) with (shiftPoint k (mkPoint2D nx ny)).
      change (mkPoint2D cx (cy + k)) with (shiftPoint k (mkPoint2D cx cy)).
      rewrite calculateInverseSlope_shift.
      cbn [coordinateX coordinateY shiftPoint].
      repeat case_cmp; apply entry_eq; cbn [fst snd maximumY minimumY]; lia.
    + change (mkPoint2D nx (ny + k)) with (shiftPoint k (mkPoint2D nx ny)).
      change (mkPoint2D cx (cy + k)) with (shiftPoint k (mkPoint2D cx cy)).
      rewrite calculateInverseSlope_shift.
      cbn [coordinateX coordinateY shiftPoint].
      repeat case_cmp; apply entry_eq; cbn [fst snd maximumY minimumY]; lia.
Qed.

Lemma edgeEntry_top (p : list Point2D) (maxHeight : Z) (i : nat)
    (r : Z) (e : EdgeData) :
  (i < length p)%nat ->
  edgeEntry p maxHeight i = Some (r, e) ->
  exists v, In v p /\ maximumY e = coordinateY v.
Proof.
  intros Hi. assert (Hn : length p <> O) by lia.
  assert (H1 := vertexAt_In p Hi).
  assert (H2 := vertexAt_In p (Nat.mod_upper_bound (i + 1) (length p) Hn)).
  unfold edgeEntry. intros H.
  repeat case_if; inversion H; subst; simpl; eauto.
Qed.

Lemma somes_map (A B : Type) (f : A -> B) (l : list (option A)) :
  somes (map (option_map f) l) = map f (somes l).
Proof.
  induction l as [|[a|] l IH]; simpl; auto. rewrite IH. reflexivity.
Qed.

Lemma entriesOf_translate (maxHeight k : Z) (p : list Point2D) :
  unclipped maxHeight k p ->
  somes (entriesOf (translate k p) maxHeight)
  = map (shiftEntry k) (somes (entriesOf p maxHeight)).
Proof.
  intros Hu. rewrite <- somes_map. f_equal.
  unfold entriesOf. rewrite translate_length, map_map.
  apply map_ext_in. intros i Hi. apply in_seq in Hi.
  apply edgeEntry_translate; auto. lia.
Qed.

Lemma binnedAt_shift (k r : Z) (E : list (Z * EdgeData)) :
  binnedAt (r + k) (map (shiftEntry k) E) = map (shiftEdge k) (binnedAt r E).
Proof.
  unfold binnedAt. rewrite filter_map_swap, !map_map.
  rewrite (filter_ext (fun x => fst (shiftEntry k x) =? r + k)
                      (fun x => fst x =? r)).
  - reflexivity.
  - intros x. simpl. lia.
Qed.

(** The table of the translated polygon is the table of the polygon moved
    by [k] rows. *)
Lemma bucket_translate (maxHeight k : Z) (p : list Point2D) (r : Z) :
  unclipped maxHeight k p ->
  bucket (buildEdgeTable (translate k p) maxHeight) (r + k)
  = map (shiftEdge k) (bucket (buildEdgeTable p maxHeight) r).
Proof.
  intros Hu. destruct (Nat.lt_ge_cases (length p) 2) as [Hn|Hn].
  - unfold buildEdgeTable. rewrite translate_length.
    destruct (Nat.ltb_spec (length p) 2); [|lia].
    rewrite !bucket_empty_table. reflexivity.
  - rewrite !buildEdgeTable_bucket by (rewrite ?translate_length; auto).
    rewrite entriesOf_translate by auto. apply binnedAt_shift.
Qed.

(** In the table of an unclipped polygon every edge ends on a row of the
    table, before and after the translation. *)
Lemma bucket_fits (maxHeight k : Z) (p : list Point2D) (r : Z)
    (e : EdgeData) :
  unclipped maxHeight k p ->
  In e (bucket (buildEdgeTable p maxHeight) r) ->
  0 <= r /\ 0 <= r + k /\ maximumY e < maxHeight
  /\ maximumY e + k < maxHeight.
Proof.
  intros Hu He.
  assert (He' : In (shiftEdge k e)
                   (bucket (buildEdgeTable (translate k p) maxHeight)
                           (r + k)))
    by (rewrite bucket_translate by auto; apply in_map; auto).
  destruct (Nat.lt_ge_cases (length p) 2) as [Hn|Hn].
  { unfold buildEdgeTable in He. destruct (Nat.ltb_spec (length p) 2); [|lia].
    rewrite bucket_empty_table in He. destruct He. }
  rewrite buildEdgeTable_bucket in He, He'
    by (rewrite ?translate_length; auto).
  unfold binnedAt in He, He'.
  apply in_map_iff in He. destruct He as [[r0 e0] [Hs He]].
  apply in_map_iff in He'. destruct He' as [[r1 e1] [Hs' He']].
  apply filter_In in He. destruct He as [He Hr].
  apply filter_In in He'. destruct He' as [He' Hr'].
  simpl in *. subst e0. apply Z.eqb_eq in Hr, Hr'. subst r0 r1.
  apply entriesOf_rows in He'.
  assert (Hr := entriesOf_rows _ _ _ _ He).
  apply somes_In in He. unfold entriesOf in He.
  apply in_map_iff in He. destruct He as [i [Hi Hin]].
  apply in_seq in Hin.
  destruct (@edgeEntry_top p maxHeight i r e) as [v [Hv Hm]];
    auto; [lia|].
  destruct (Hu v Hv). lia.
Qed.

Lemma spanOf_shift (maxHeight maxWidth k y : Z) (a b : EdgeData) :
  inTable maxHeight y = true -> inTable maxHeight (y + k) = true ->
  spanOf maxHeight maxWidth (y + k) (shiftEdge k a) (shiftEdge k b)
  = map (shiftDrawn k) (spanOf maxHeight maxWidth y a b).
Proof.
  intros Hy Hk. unfold spanOf.
  change (roundX (shiftEdge k a)) with (roundX a).
  change (roundX (shiftEdge k b)) with (roundX b).
  rewrite Hy, Hk.
  destruct (roundX a >? roundX b); repeat case_if; reflexivity.
Qed.

Lemma roundX_nth_shift (k : Z) (l : list EdgeData) (n : nat) :
  roundX (nth n (map (shiftEdge k) l) noEdge) = roundX (nth n l noEdge).
Proof.
  revert n; induction l as [|a l IH]; intros [|n]; simpl; auto.
Qed.

Lemma pointOf_shift (maxHeight maxWidth k y : Z) (aet : list EdgeData) :
  inTable maxHeight y = true -> inTable maxHeight (y + k) = true ->
  pointOf maxHeight maxWidth (y + k) (map (shiftEdge k) aet)
  = map (shiftDrawn k) (pointOf maxHeight maxWidth y aet).
Proof.
  intros Hy Hk. unfold pointOf.
  rewrite length_map, roundX_nth_shift, Hy, Hk.
  case_if; reflexivity.
Qed.

Lemma forPairs_map (Out : Type) (body body' : EdgeData -> EdgeData -> list Out)
    (g : Out -> Out) (sh : EdgeData -> EdgeData) :
  (forall a b, body' (sh a) (sh b) = map g (body a b)) ->
  forall steps i aet,
    forPairs body' steps i (map sh aet) = map g (forPairs body steps i aet).
Proof.
  intros Hb. induction steps as [|steps IH]; intros i aet; simpl; auto.
  rewrite length_map.
  destruct (Nat.ltb_spec i (length aet - 1)); [|reflexivity].
  rewrite map_app, <- IH, <- Hb. f_equal. f_equal.
  - rewrite nth_indep with (d' := sh noEdge) by (rewrite length_map; lia).
    apply map_nth.
  - rewrite nth_indep with (d' := sh noEdge) by (rewrite length_map; lia).
    apply map_nth.
Qed.

Lemma emitFill_shift (maxHeight maxWidth k y : Z) (aet : list EdgeData) :
  aet = []
  \/ (inTable maxHeight y = true /\ inTable maxHeight (y + k) = true) ->
  emitFill maxHeight maxWidth (y + k) (map (shiftEdge k) aet)
  = map (shiftDrawn k) (emitFill maxHeight maxWidth y aet).
Proof.
  intros [->|[Hy Hk]]; [reflexivity|].
  unfold emitFill. rewrite length_map.
  destruct (2 <=? length aet)%nat; [|reflexivity].
  rewrite map_app. f_equal.
  - apply forPairs_map. intros a b. apply spanOf_shift; auto.
  - destruct (length aet mod 2 =? 1)%nat; [|reflexivity].
    apply pointOf_shift; auto.
Qed.

Section Translated.

Variables (maxHeight maxWidth k : Z) (et et' : EdgeTable).

Hypothesis buckets_shift :
  forall r, bucket et' (r + k) = map (shiftEdge k) (bucket et r).
Hypothesis table_rows :
  forall r e, In e (bucket et r) -> minimumY e = r /\ r <= maximumY e.
Hypothesis table_fits :
  forall r e, In e (bucket et r) ->
    0 <= r /\ 0 <= r + k /\ maximumY e < maxHeight
    /\ maximumY e + k < maxHeight.

Lemma mergeRow_shift (y : Z) (aet : list EdgeData) :
  mergeRow et' (y + k) (map (shiftEdge k) aet)
  = map (shiftEdge k) (mergeRow et y aet).
Proof.
  unfold mergeRow. rewrite buckets_shift, <- map_app.
  apply sortAET_map. reflexivity.
Qed.

Lemma nextAET_shift (y : Z) (sorted : list EdgeData) :
  nextAET (y + k) (map (shiftEdge k) sorted)
  = map (shiftEdge k) (nextAET y sorted).
Proof.
  unfold nextAET, removeFinished. rewrite !map_map.
  rewrite !filter_map_swap, map_map.
  rewrite (filter_ext
             (fun e => negb (maximumY (advanceX (shiftEdge k e))
                             <=? y + k + 1))
             (fun e => negb (maximumY (advanceX e) <=? y + 1))).
  - reflexivity.
  - intros e. simpl. lia.
Qed.

(** Row by row, the translated run draws what the run draws, [k] rows
    further. *)
Lemma runRows_shift (n : nat) (y : Z) (aet : list EdgeData) :
  carriedOk y aet ->
  (forall e, In e aet ->
     0 <= minimumY e /\ 0 <= minimumY e + k
     /\ maximumY e < maxHeight /\ maximumY e + k < maxHeight) ->
  runRows (emitFill maxHeight maxWidth) n et' (y + k)
          (map (shiftEdge k) aet)
  = map (shiftDrawn k) (runRows (emitFill maxHeight maxWidth) n et y aet).
Proof.
  revert y aet; induction n as [|n IH]; intros y aet Hc Hf; simpl; auto.
  assert (Hok := mergeRow_ok et table_rows Hc).
  assert (Hfit : forall e, In e (mergeRow et y aet) ->
            0 <= minimumY e /\ 0 <= minimumY e + k
            /\ maximumY e < maxHeight /\ maximumY e + k < maxHeight).
  { intros e He. apply mergeRow_In in He. destruct He as [He|He]; auto.
    destruct (table_rows _ _ He) as [-> _]. eapply table_fits; eauto. }
  rewrite mergeRow_shift, nextAET_shift, map_app. f_equal.
  - apply emitFill_shift.
    destruct (mergeRow et y aet) as [|e l] eqn:Hm; [left; reflexivity|].
    right. assert (He : In e (e :: l)) by (simpl; auto).
    destruct (Hok e He) as [H1 _]. specialize (Hfit e He).
    unfold inTable. lia.
  - replace (y + k + 1) with (y + 1 + k) by lia. apply IH.
    + apply nextAET_ok with (et := et); auto.
    + intros e He. apply nextAET_In in He.
      destruct He as [e0 [H0 [-> _]]]. simpl. auto.
Qed.

End Translated.

Lemma skipEmpty_unique (et : EdgeTable) (s : Z) :
  (forall r, r < s -> bucket et r = []) -> bucket et s <> [] ->
  Z.of_nat (skipEmpty et) = s.
Proof.
  intros Hlt Hs. destruct (skipEmpty_spec et) as [H0 [H1 H2]].
  destruct (Z.lt_trichotomy (Z.of_nat (skipEmpty et)) s) as [H|[H|H]]; auto.
  - exfalso. destruct (Z.lt_ge_cases (Z.of_nat (skipEmpty et)) (tableSize et)).
    + apply H2; auto.
    + apply Hs. apply bucket_outside. lia.
  - exfalso. apply Hs. apply H1. lia.
Qed.

(** C6: when neither the polygon nor its translation by [k] rows is clipped
    against [0, maxHeight), filling the translated polygon draws exactly
    what filling the polygon draws, in the same order, each span and point
    moved by [k] rows. *)
Theorem fill_vertical_translation (p : list Point2D)
    (maxHeight maxWidth k : Z) :
  unclipped maxHeight k p ->
  fillPolygon (translate k p) maxHeight maxWidth
  = option_map (map (shiftDrawn k)) (fillPolygon p maxHeight maxWidth).
Proof.
  intros Hu.
  destruct (scanPolygon_total (emitFill maxHeight maxWidth) p maxHeight)
    as [out Hout].
  destruct (scanPolygon_total (emitFill maxHeight maxWidth)
              (translate k p) maxHeight) as [out' Hout'].
  unfold fillPolygon. rewrite Hout, Hout'. simpl. f_equal.
  unfold scanPolygon in Hout, Hout'. rewrite translate_length in Hout'.
  destruct (length p <? 3)%nat;
    [inversion Hout; inversion Hout'; reflexivity|].
  set (et := buildEdgeTable p maxHeight) in *.
  set (et' := buildEdgeTable (translate k p) maxHeight) in *.
  assert (Hb : forall r, bucket et' (r + k) = map (shiftEdge k) (bucket et r))
    by (intros; apply bucket_translate; auto).
  assert (Hb' : forall r, bucket et' r = map (shiftEdge k) (bucket et (r - k)))
    by (intros r; rewrite <- Hb; f_equal; lia).
  assert (Hsz : tableSize et' = tableSize et)
    by (unfold et, et'; rewrite !buildEdgeTable_size; reflexivity).
  destruct (skipEmpty_spec et) as [Hs0 [Hs1 Hs2]].
  destruct (skipEmpty_spec et') as [Hs0' [Hs1' Hs2']].
  destruct (Z.leb_spec (tableSize et) (Z.of_nat (skipEmpty et))) as [Hall|Hsome].
  - (* no edge in the table *)
    assert (He : forall r, bucket et r = []).
    { intros r. destruct (Z.lt_ge_cases r (Z.of_nat (skipEmpty et))); auto.
      apply bucket_outside. lia. }
    destruct (Z.leb_spec (tableSize et') (Z.of_nat (skipEmpty et'))).
    + inversion Hout; inversion Hout'; reflexivity.
    + exfalso. apply Hs2'; auto. rewrite Hb', He. reflexivity.
  - assert (Hne : bucket et (Z.of_nat (skipEmpty et)) <> []) by auto.
    assert (Hst : Z.of_nat (skipEmpty et') = Z.of_nat (skipEmpty et) + k).
    { apply skipEmpty_unique.
      - intros r Hr. rewrite Hb', Hs1 by lia. reflexivity.
      - rewrite Hb. destruct (bucket et (Z.of_nat (skipEmpty et)));
          [congruence|discriminate]. }
    rewrite Hst in *.
    destruct (Z.leb_spec (tableSize et')
                         (Z.of_nat (skipEmpty et) + k)) as [Hout2|_].
    + exfalso. apply Hne.
      assert (Hx : bucket et' (Z.of_nat (skipEmpty et) + k) = [])
        by (apply bucket_outside; lia).
      rewrite Hb in Hx. destruct (bucket et (Z.of_nat (skipEmpty et)));
        [reflexivity|discriminate].
    + set (n := Nat.max (scanFuel et) (scanFuel et')).
      assert (Ho : runRows (emitFill maxHeight maxWidth) n et
                           (Z.of_nat (skipEmpty et)) [] = out)
        by (eapply scanLoop_runRows;
            [apply emitFill_nil | exact Hout | unfold n; lia]).
      assert (Ho' : runRows (emitFill maxHeight maxWidth) n et'
                            (Z.of_nat (skipEmpty et) + k) [] = out')
        by (eapply scanLoop_runRows;
            [apply emitFill_nil | exact Hout' | unfold n; lia]).
      rewrite <- Ho, <- Ho'.
      apply (@runRows_shift maxHeight maxWidth k et et' Hb
               (buildEdgeTable_rows p maxHeight)
               (fun r e => @bucket_fits maxHeight k p r e Hu) n
               (Z.of_nat (skipEmpty et)) []).
      * intros e [].
      * intros e [].
Qed.

Lemma fill_vertical_translation_witness :
  unclipped 12 1 ell
  /\ fillPolygon (translate 1 ell) 12 60
     = option_map (map (shiftDrawn 1)) (fillPolygon ell 12 60).
Proof.
  assert (Hu : unclipped 12 1 ell).
  { intros v Hv. simpl in Hv.
    repeat (destruct Hv as [<-|Hv]; [simpl; lia|]). destruct Hv. }
  split; [exact Hu|].
  exact (@fill_vertical_translation ell 12 60 1 Hu).
Defined.

(* ================================================================== *)
(** * Further properties of the edge table *)

Lemma pushAt_count (et : EdgeTable) (row : nat) (e : EdgeData) :
  (row < length et)%nat ->
  length (concat (pushAt et row e)) = S (length (concat et)).
Proof.
  revert row; induction et as [|b t IH]; intros row Hr; simpl in *; [lia|].
  destruct row as [|row]; simpl.
  - rewrite !length_app. simpl. lia.
  - rewrite !length_app, IH by lia. lia.
Qed.

Lemma fold_pushEntry_count (l : list (option (Z * EdgeData)))
    (et : EdgeTable) :
  (forall r e, In (r, e) (somes l) -> 0 <= r < tableSize et) ->
  length (concat (fold_left pushEntry l et))
  = (length (concat et) + length (somes l))%nat.
Proof.
  revert et; induction l as [|[[r e]|] l IH]; intros et Hin; simpl.
  - lia.
  - rewrite IH.
    + assert (Hr := Hin r e (or_introl eq_refl)).
      unfold pushEdge. destruct (Z.ltb_spec r 0); [lia|].
      rewrite pushAt_count by (unfold tableSize in Hr; lia). lia.
    + intros r' e' H'. rewrite pushEdge_size. apply (Hin r' e'). simpl; auto.
  - apply IH. exact Hin.
Qed.

(** A side of a polygon whose vertices all lie on rows of the table is
    always binned. *)
Lemma edgeEntry_within (maxHeight : Z) (p : list Point2D) (i : nat) :
  withinTable maxHeight p -> (i < length p)%nat ->
  edgeEntry p maxHeight i <> None.
Proof.
  intros Hu Hi. unfold edgeEntry.
  assert (Hn : length p <> O) by lia.
  assert (H1 := Hu _ (vertexAt_In p Hi)).
  assert (H2 := Hu _ (vertexAt_In p
                        (Nat.mod_upper_bound (i + 1) (length p) Hn))).
  assert (H3 := Hu _ (vertexAt_In p
                        (Nat.mod_upper_bound (i + length p - 1)
                                             (length p) Hn))).
  assert (H4 := Hu _ (vertexAt_In p
                        (Nat.mod_upper_bound (i + 2) (length p) Hn))).
  destruct (vertexAt p i) as [cx cy].
  destruct (vertexAt p ((i + 1) mod length p)) as [nx ny].
  destruct (vertexAt p ((i + length p - 1) mod length p)) as [px py].
  destruct (vertexAt p ((i + 2) mod length p)) as [qx qy].
  unfold inTable. cbn [coordinateX coordinateY] in *.
  destruct (Z.eqb_spec cy ny) as [Heq|Hne].
  - repeat case_cmp. discriminate.
  - rewrite Z.gtb_ltb. destruct (Z.ltb_spec ny cy); cbv beta iota zeta;
      cbn [coordinateX coordinateY]; repeat case_cmp; discriminate.
Qed.

Lemma somes_all (A : Type) (l : list (option A)) :
  (forall o, In o l -> o <> None) -> length (somes l) = length l.
Proof.
  induction l as [|[a|] l IH]; simpl; intros H.
  - reflexivity.
  - rewrite IH; auto.
  - exfalso. apply (H None); auto.
Qed.

Lemma edgeEntry_ends (p : list Point2D) (maxHeight : Z) (i : nat)
    (r : Z) (e : EdgeData) :
  edgeEntry p maxHeight i = Some (r, e) ->
  maximumY e = coordinateY (upperEndpoint p i)
  /\ (r = coordinateY (lowerEndpoint p i)
      \/ r = coordinateY (lowerEndpoint p i) + 1).
Proof.
  unfold edgeEntry, upperEndpoint, lowerEndpoint. intros H.
  destruct (coordinateY (vertexAt p i)
            =? coordinateY (vertexAt p ((i + 1) mod length p))) eqn:Eh.
  - apply Z.eqb_eq in Eh. rewrite Z.gtb_ltb.
    destruct (Z.ltb_spec (coordinateY (vertexAt p ((i + 1) mod length p)))
                         (coordinateY (vertexAt p i))); [lia|].
    case_if; inversion H; subst; simpl; auto.
  - destruct (coordinateY (vertexAt p i)
              >? coordinateY (vertexAt p ((i + 1) mod length p)));
      repeat case_if; inversion H; subst; simpl; auto.
Qed.

Lemma endpoints_In (p : list Point2D) (i : nat) :
  (i < length p)%nat ->
  In (lowerEndpoint p i) p /\ In (upperEndpoint p i) p.
Proof.
  intros Hi. assert (Hn : length p <> O) by lia.
  assert (H1 := vertexAt_In p Hi).
  assert (H2 := vertexAt_In p (Nat.mod_upper_bound (i + 1) (length p) Hn)).
  unfold lowerEndpoint, upperEndpoint.
  destruct (_ >? _); auto.
Qed.

(** Every edge of a bucket was pushed for one of the sides. *)
Lemma bucket_entry (p : list Point2D) (maxHeight r : Z) (e : EdgeData) :
  In e (bucket (buildEdgeTable p maxHeight) r) ->
  (2 <= length p)%nat
  /\ exists i, (i < length p)%nat /\ edgeEntry p maxHeight i = Some (r, e).
Proof.
  intros He. destruct (Nat.lt_ge_cases (length p) 2) as [Hn|Hn].
  { unfold buildEdgeTable in He. destruct (Nat.ltb_spec (length p) 2); [|lia].
    rewrite bucket_empty_table in He. destruct He. }
  split; [exact Hn|].
  rewrite buildEdgeTable_bucket in He by auto. unfold binnedAt in He.
  apply in_map_iff in He. destruct He as [[r0 e0] [Hs He]].
  apply filter_In in He. destruct He as [He Hr].
  simpl in *. subst e0. apply Z.eqb_eq in Hr. subst r0.
  apply somes_In in He. unfold entriesOf in He.
  apply in_map_iff in He. destruct He as [i [Hi Hin]].
  apply in_seq in Hin. exists i. split; [lia|exact Hi].
Qed.

(** X1: when every vertex of a polygon of two or more vertices lies on a
    row of the table, each of its [n] sides, the closing side from the last
    vertex to the first included, puts exactly one edge into the table: the
    side at index [i] is binned, and the table holds [n] edges in all. *)
Theorem table_one_edge_per_side (p : list Point2D) (maxHeight : Z) :
  (2 <= length p)%nat -> withinTable maxHeight p ->
  (forall i, (i < length p)%nat ->
     exists r e, edgeEntry p maxHeight i = Some (r, e)
                 /\ In e (bucket (buildEdgeTable p maxHeight) r))
  /\ length (concat (buildEdgeTable p maxHeight)) = length p.
Proof.
  intros Hn Hw. split.
  - intros i Hi.
    destruct (edgeEntry p maxHeight i) as [[r e]|] eqn:He.
    + exists r, e. split; auto. eapply edgeEntry_binned; eauto.
    + exfalso. eapply edgeEntry_within; eauto.
  - rewrite buildEdgeTable_fold by auto.
    rewrite fold_pushEntry_count.
    + assert (H0 : concat (emptyEdgeTable maxHeight) = []).
      { unfold emptyEdgeTable.
        induction (Z.to_nat maxHeight); simpl; auto. }
      rewrite H0. simpl. rewrite somes_all.
      * unfold entriesOf. rewrite length_map, length_seq. reflexivity.
      * intros o Ho. unfold entriesOf in Ho. apply in_map_iff in Ho.
        destruct Ho as [i [<- Hi]]. apply in_seq in Hi.
        apply edgeEntry_within; auto. lia.
    + intros r e H. rewrite emptyEdgeTable_size.
      apply entriesOf_rows in H. lia.
Qed.

Lemma table_one_edge_per_side_witness :
  (2 <= length ell)%nat /\ withinTable 12 ell
  /\ length (concat (buildEdgeTable ell 12)) = length ell.
Proof.
  assert (H1 : (2 <= length ell)%nat) by (simpl; lia).
  assert (H2 : withinTable 12 ell).
  { intros v Hv. simpl in Hv.
    repeat (destruct Hv as [<-|Hv]; [simpl; lia|]). destruct Hv. }
  split; [exact H1|]. split; [exact H2|].
  exact (proj2 (@table_one_edge_per_side ell 12 H1 H2)).
Defined.

(** X2: the table has [max(0, maxHeight)] buckets whatever the polygon; a
    row outside the table holds no edge; with fewer than two vertices every
    bucket is empty; otherwise bucket [y] holds exactly the edges that the
    loop over the sides pushed with row [y], in the order of the sides. *)
Theorem edge_table_buckets (p : list Point2D) (maxHeight : Z) :
  tableSize (buildEdgeTable p maxHeight) = Z.max 0 maxHeight
  /\ (forall y, y < 0 \/ maxHeight <= y ->
        bucket (buildEdgeTable p maxHeight) y = [])
  /\ ((length p < 2)%nat ->
        forall y, bucket (buildEdgeTable p maxHeight) y = [])
  /\ ((2 <= length p)%nat ->
        forall y,
          bucket (buildEdgeTable p maxHeight) y
          = map snd
              (filter (fun x => fst x =? y)
                 (somes (map (edgeEntry p maxHeight) (seq 0 (length p)))))).
Proof.
  split; [apply buildEdgeTable_size|]. split; [|split].
  - intros y Hy. apply bucket_outside. rewrite buildEdgeTable_size. lia.
  - intros Hn y. unfold buildEdgeTable.
    destruct (Nat.ltb_spec (length p) 2); [|lia]. apply bucket_empty_table.
  - intros Hn y. apply buildEdgeTable_bucket. exact Hn.
Qed.

(** X3: every edge stored in bucket [r] of the table has [r] in
    [0, maxHeight), records [r] as its [minimumY], does not end before [r],
    ends on the row of a polygon vertex, and starts on the row of a polygon
    vertex or on the row after it. *)
Theorem table_edge_invariants (p : list Point2D) (maxHeight r : Z)
    (e : EdgeData) :
  In e (bucket (buildEdgeTable p maxHeight) r) ->
  0 <= r < maxHeight /\ minimumY e = r /\ r <= maximumY e
  /\ (exists v, In v p /\ maximumY e = coordinateY v)
  /\ (exists v, In v p /\ (r = coordinateY v \/ r = coordinateY v + 1)).
Proof.
  intros He. destruct (bucket_entry _ _ _ _ He) as [Hn [i [Hi Hent]]].
  destruct (edgeEntry_row _ _ _ Hent) as [H1 [H2 H3]].
  destruct (edgeEntry_ends _ _ _ Hent) as [H4 H5].
  destruct (endpoints_In p Hi) as [Hlo Hhi].
  repeat split; try assumption; try lia; eauto.
Qed.

Lemma table_edge_invariants_witness :
  In squareRight (bucket (buildEdgeTable square 60) 11)
  /\ 0 <= 11 < 60 /\ minimumY squareRight = 11
  /\ 11 <= maximumY squareRight
  /\ (exists v, In v square /\ maximumY squareRight = coordinateY v)
  /\ (exists v, In v square /\ (11 = coordinateY v \/ 11 = coordinateY v + 1)).
Proof.
  assert (H : In squareRight (bucket (buildEdgeTable square 60) 11))
    by (vm_compute; left; reflexivity).
  split; [exact H|].
  exact (@table_edge_invariants square 60 11 squareRight H).
Defined.

(** X4: [calculateInverseSlope] depends on the two points only through
    their difference: moving both by the same integer vector leaves it
    unchanged; and it is [0.0] for two points on the same row. *)
Theorem inverse_slope_translation (dx dy : Z) (point1 point2 : Point2D) :
  calculateInverseSlope
    (mkPoint2D (coordinateX point1 + dx) (coordinateY point1 + dy))
    (mkPoint2D (coordinateX point2 + dx) (coordinateY point2 + dy))
  = calculateInverseSlope point1 point2
  /\ (coordinateY point1 = coordinateY point2 ->
      calculateInverseSlope point1 point2 = Double.zero).
Proof.
  unfold calculateInverseSlope. simpl. split.
  - replace (coordinateX point2 + dx - (coordinateX point1 + dx))
      with (coordinateX point2 - coordinateX point1) by lia.
    replace (coordinateY point2 + dy - (coordinateY point1 + dy))
      with (coordinateY point2 - coordinateY point1) by lia.
    reflexivity.
  - intros ->. rewrite Z.sub_diag. reflexivity.
Qed.

(* ================================================================== *)
(** * Further properties of the two outputs *)

Lemma sorted_const_app (y : Z) (l1 l2 : list Z) :
  (forall z, In z l1 -> z = y) ->
  StronglySorted Z.le l2 -> (forall z, In z l2 -> y <= z) ->
  StronglySorted Z.le (l1 ++ l2).
Proof.
  intros H1 H2 H3. induction l1 as [|a l1 IH]; simpl; auto.
  constructor.
  - apply IH. intros z Hz. apply H1. simpl; auto.
  - apply Forall_forall. intros z Hz.
    rewrite (H1 a) by (simpl; auto). apply in_app_iff in Hz.
    destruct Hz as [Hz|Hz]; [rewrite (H1 z); simpl; auto; lia|auto].
Qed.

(** What an emission step tags with its own row comes out of the loop in
    ascending row order, from the first row the loop visits on. *)
Lemma rows_ascending (Out : Type) (row : Out -> Z)
    (emit : Z -> list EdgeData -> list Out) :
  (forall y aet d, In d (emit y aet) -> row d = y) ->
  forall (tr : list (Z * list EdgeData)) (y : Z) (n : nat),
    map fst tr = rowsFrom y n ->
    StronglySorted Z.le
      (map row (flat_map (fun s => emit (fst s) (snd s)) tr))
    /\ forall d, In d (flat_map (fun s => emit (fst s) (snd s)) tr) ->
                 y <= row d.
Proof.
  intros He. induction tr as [|s tr IH]; intros y n Hm; simpl.
  - split; [constructor|intros d []].
  - destruct n as [|n]; [discriminate|]. simpl in Hm.
    inversion Hm as [[Hs Ht]]. destruct (IH _ _ Ht) as [IH1 IH2]. split.
    + rewrite map_app. apply sorted_const_app with (y := y).
      * intros z Hz. apply in_map_iff in Hz. destruct Hz as [d [<- Hd]].
        rewrite Hs in Hd. eapply He; eauto.
      * exact IH1.
      * intros z Hz. apply in_map_iff in Hz. destruct Hz as [d [<- Hd]].
        specialize (IH2 d Hd). lia.
    + intros d Hd. apply in_app_iff in Hd. destruct Hd as [Hd|Hd].
      * rewrite Hs in Hd. rewrite (He _ _ _ Hd). lia.
      * specialize (IH2 d Hd). lia.
Qed.

(** The rows of the loop of a polygon, from its first row on. *)
Lemma scanTrace_rows (p : list Point2D) (maxHeight : Z)
    (tr : list (Z * list EdgeData)) :
  scanTrace p maxHeight = Some tr ->
  map fst tr
  = rowsFrom (Z.of_nat (skipEmpty (buildEdgeTable p maxHeight))) (length tr).
Proof.
  unfold scanTrace, scanPolygon.
  destruct (length p <? 3)%nat; [intros H; inversion H; reflexivity|].
  destruct (_ <=? _); [intros H; inversion H; reflexivity|].
  intros H. apply (scanLoop_rows _ _ _ _ H).
Qed.

Lemma spanOf_row (maxHeight maxWidth y : Z) (a b : EdgeData) (d : Drawn) :
  In d (spanOf maxHeight maxWidth y a b) -> drawnRow d = y /\ isSpan d = true.
Proof.
  unfold spanOf. destruct (roundX a >? roundX b); case_if;
    intros H; try destruct H as [<-|[]]; try destruct H; simpl; auto.
Qed.

Lemma pointOf_row (maxHeight maxWidth y : Z) (aet : list EdgeData)
    (d : Drawn) :
  In d (pointOf maxHeight maxWidth y aet) ->
  drawnRow d = y /\ isSpan d = false.
Proof.
  unfold pointOf. case_if; intros H; try destruct H as [<-|[]];
    try destruct H; simpl; auto.
Qed.

Lemma emitFill_row (maxHeight maxWidth y : Z) (aet : list EdgeData)
    (d : Drawn) :
  In d (emitFill maxHeight maxWidth y aet) -> drawnRow d = y.
Proof.
  rewrite emitFill_pairs. destruct (2 <=? length aet)%nat; [|intros []].
  rewrite in_app_iff, in_flat_map. intros [[[a b] [_ H]]|H].
  - eapply spanOf_row; eauto.
  - destruct (Nat.odd (length aet)); [|destruct H].
    eapply pointOf_row; eauto.
Qed.

Lemma emitTriangles_shape (y : Z) (aet : list EdgeData) (t : Triangle) :
  In t (emitTriangles y aet) ->
  exists x1 x2 x3,
    t = [pt x1 y; pt x2 y; pt x3 (y + 1)]
    \/ t = [pt x1 y; pt x2 (y + 1); pt x3 (y + 1)].
Proof.
  rewrite emitTriangles_pairs, in_flat_map. intros [[a b] [_ H]].
  unfold trapezoid in H. simpl in H.
  destruct H as [<-|[<-|[]]]; do 3 eexists; [left|right]; reflexivity.
Qed.

Lemma emitTriangles_row (y : Z) (aet : list EdgeData) (t : Triangle) :
  In t (emitTriangles y aet) -> triangleRow t = y.
Proof.
  intros H. apply emitTriangles_shape in H.
  destruct H as [x1 [x2 [x3 [-> | ->]]]]; reflexivity.
Qed.

Lemma emitTriangles_length (y : Z) (aet : list EdgeData) :
  length (emitTriangles y aet) = (2 * length (pairsOf aet))%nat.
Proof.
  rewrite emitTriangles_pairs.
  induction (pairsOf aet) as [|ab l IH]; simpl; auto. rewrite IH. lia.
Qed.

(** X5: what [fillPolygon] draws comes in ascending row order, and never on
    a row before the lowest non-empty row of the table. *)
Theorem fill_rows_ascending (p : list Point2D) (maxHeight maxWidth : Z) :
  exists out,
    fillPolygon p maxHeight maxWidth = Some out
    /\ StronglySorted Z.le (map drawnRow out)
    /\ forall d, In d out ->
         Z.of_nat (skipEmpty (buildEdgeTable p maxHeight)) <= drawnRow d.
Proof.
  destruct (scanPolygon_total emitState p maxHeight) as [tr Htr].
  exists (flat_map (fun s => emitFill maxHeight maxWidth (fst s) (snd s)) tr).
  split.
  - unfold fillPolygon. rewrite scanPolygon_trace. unfold scanTrace.
    rewrite Htr. reflexivity.
  - apply (rows_ascending drawnRow (emitFill maxHeight maxWidth))
      with (n := length tr).
    + intros y aet d. apply emitFill_row.
    + apply scanTrace_rows. exact Htr.
Qed.

(** X6: every triangle [generateTriangulation] returns has exactly three
    vertices, on rows [y, y, y+1] or [y, y+1, y+1] for a row [y] not before
    the lowest non-empty row of the table; the triangles come in ascending
    order of [y], and their number is even. *)
Theorem triangles_well_formed (p : list Point2D) (maxHeight : Z) :
  exists tris,
    generateTriangulation p maxHeight = Some tris
    /\ StronglySorted Z.le (map triangleRow tris)
    /\ (exists k, length tris = (2 * k)%nat)
    /\ forall t, In t tris ->
         exists y x1 x2 x3,
           Z.of_nat (skipEmpty (buildEdgeTable p maxHeight)) <= y
           /\ (t = [pt x1 y; pt x2 y; pt x3 (y + 1)]
               \/ t = [pt x1 y; pt x2 (y + 1); pt x3 (y + 1)]).
Proof.
  destruct (scanPolygon_total emitState p maxHeight) as [tr Htr].
  exists (flat_map (fun s => emitTriangles (fst s) (snd s)) tr).
  split.
  { unfold generateTriangulation. rewrite scanPolygon_trace. unfold scanTrace.
    rewrite Htr. reflexivity. }
  destruct (@rows_ascending _ triangleRow emitTriangles emitTriangles_row
              tr _ _ (@scanTrace_rows p maxHeight tr Htr)) as [H1 H2].
  split; [exact H1|]. split.
  - clear. induction tr as [|s tr [k IH]]; simpl.
    + exists O. reflexivity.
    + rewrite length_app, emitTriangles_length, IH.
      exists (length (pairsOf (snd s)) + k)%nat. lia.
  - intros t Ht. assert (Hr := H2 t Ht).
    apply in_flat_map in Ht. destruct Ht as [s [_ Ht]].
    assert (Hy := emitTriangles_row _ _ _ Ht).
    destruct (emitTriangles_shape _ _ _ Ht) as [x1 [x2 [x3 Hs]]].
    exists (fst s), x1, x2, x3. split; [lia|exact Hs].
Qed.

Lemma spans_per_row (maxHeight maxWidth y : Z) (aet : list EdgeData) :
  (length (filter isSpan (emitFill maxHeight maxWidth y aet))
   <= length (pairsOf aet))%nat.
Proof.
  rewrite emitFill_pairs. destruct (2 <=? length aet)%nat; [|simpl; lia].
  rewrite filter_app, length_app.
  assert (Hp : filter isSpan
                 (if Nat.odd (length aet)
                  then pointOf maxHeight maxWidth y aet else []) = []).
  { destruct (Nat.odd (length aet)); auto. apply filter_none.
    intros d Hd. eapply pointOf_row; eauto. }
  rewrite Hp. simpl. rewrite Nat.add_0_r.
  induction (pairsOf aet) as [|[a b] l IH]; simpl; auto.
  rewrite filter_app, length_app.
  assert (length (filter isSpan (spanOf maxHeight maxWidth y a b)) <= 1)%nat.
  { unfold spanOf. destruct (roundX a >? roundX b); repeat case_if;
      simpl; lia. }
  lia.
Qed.

(** X7: [fillPolygon] and [generateTriangulation] walk the same pairs: for
    every span drawn on a row [y] there are triangles on the rows
    [y, y, y+1], and twice the number of spans is at most the number of
    triangles. *)
Theorem spans_have_triangles (p : list Point2D) (maxHeight maxWidth : Z) :
  exists out tris,
    fillPolygon p maxHeight maxWidth = Some out
    /\ generateTriangulation p maxHeight = Some tris
    /\ (2 * length (filter isSpan out) <= length tris)%nat
    /\ forall y x1 x2, In (DrawSpan y x1 x2) out ->
         exists t, In t tris /\ map coordinateY t = [y; y; y + 1].
Proof.
  destruct (scanPolygon_total emitState p maxHeight) as [tr Htr].
  exists (flat_map (fun s => emitFill maxHeight maxWidth (fst s) (snd s)) tr),
         (flat_map (fun s => emitTriangles (fst s) (snd s)) tr).
  split.
  { unfold fillPolygon. rewrite scanPolygon_trace. unfold scanTrace.
    rewrite Htr. reflexivity. }
  split.
  { unfold generateTriangulation. rewrite scanPolygon_trace. unfold scanTrace.
    rewrite Htr. reflexivity. }
  split.
  - clear. induction tr as [|s tr IH]; simpl; [lia|].
    rewrite filter_app, !length_app, emitTriangles_length.
    assert (H := spans_per_row maxHeight maxWidth (fst s) (snd s)). lia.
  - intros y x1 x2 Hd. apply in_flat_map in Hd. destruct Hd as [s [Hs Hd]].
    assert (Hy := emitFill_row _ _ _ _ _ Hd). simpl in Hy.
    rewrite emitFill_pairs in Hd.
    destruct (2 <=? length (snd s))%nat; [|destruct Hd].
    apply in_app_iff in Hd. destruct Hd as [Hd|Hd].
    + apply in_flat_map in Hd. destruct Hd as [[a b] [Hab _]].
      exists [pt (Double.to_int (currentX a)) y;
              pt (Double.to_int (currentX b)) y;
              pt (Double.to_int (Double.add (currentX a) (inverseSlope a)))
                 (y + 1)].
      split; [|reflexivity].
      apply in_flat_map. exists s. split; auto.
      rewrite emitTriangles_pairs. apply in_flat_map.
      exists (a, b). split; auto. rewrite Hy. simpl. left. reflexivity.
    + destruct (Nat.odd (length (snd s))); [|destruct Hd].
      apply pointOf_row in Hd. destruct Hd as [_ Hd]. discriminate.
Qed.

(* ================================================================== *)
(** * The content of the AET *)

(** X8: for a polygon of three or more vertices, on every row [y] the loop
    visits, the sorted AET is a permutation of exactly the edges binned at
    a row [r <= y] that either are binned at [y] itself or have
    [y < maximumY], each with [currentX] advanced by [y - r] steps of
    [inverseSlope]; and the loop visits every row on which such an edge
    exists. *)
Theorem aet_holds_active_edges (p : list Point2D) (maxHeight : Z)
    (tr : list (Z * list EdgeData)) :
  (3 <= length p)%nat ->
  scanTrace p maxHeight = Some tr ->
  let E := somes (map (edgeEntry p maxHeight) (seq 0 (length p))) in
  (forall y aet, In (y, aet) tr ->
     Permutation aet (map (advanceTo y) (filter (isActive y) E)))
  /\ (forall y x, In x E -> isActive y x = true -> exists aet, In (y, aet) tr).
Proof.
  intros Hn Htr. exact (scanTrace_active p maxHeight Hn Htr).
Qed.

Lemma aet_holds_active_edges_witness :
  (3 <= length ell)%nat
  /\ scanTrace ell 12 = Some (traceOf ell 12)
  /\ In (5, [ellLeft; ellStep]) (traceOf ell 12)
  /\ Permutation [ellLeft; ellStep]
       (map (advanceTo 5)
          (filter (isActive 5)
             (somes (map (edgeEntry ell 12) (seq 0 (length ell)))))).
Proof.
  assert (H1 : (3 <= length ell)%nat) by (simpl; lia).
  assert (H2 : scanTrace ell 12 = Some (traceOf ell 12))
    by (vm_compute; reflexivity).
  assert (H3 : In (5, [ellLeft; ellStep]) (traceOf ell 12))
    by (vm_compute; do 5 right; left; reflexivity).
  split; [exact H1|]. split; [exact H2|]. split; [exact H3|].
  exact (proj1 (@aet_holds_active_edges ell 12 (traceOf ell 12) H1 H2)
           5 [ellLeft; ellStep] H3).
Defined.

(* ================================================================== *)
(** * Translation and table height, for both outputs *)

Lemma trapezoid_shift (k y : Z) (a b : EdgeData) :
  trapezoid (y + k) (shiftEdge k a) (shiftEdge k b)
  = map (map (shiftPoint k)) (trapezoid y a b).
Proof.
  unfold trapezoid, shiftPoint. simpl.
  replace (y + k + 1) with (y + 1 + k) by lia. reflexivity.
Qed.

Lemma emitTriangles_shift (k y : Z) (aet : list EdgeData) :
  emitTriangles (y + k) (map (shiftEdge k) aet)
  = map (map (shiftPoint k)) (emitTriangles y aet).
Proof.
  unfold emitTriangles. rewrite length_map.
  destruct (2 <=? length aet)%nat; [|reflexivity].
  apply forPairs_map. intros a b. apply trapezoid_shift.
Qed.

Lemma runRows_shift_triangles (k : Z) (et et' : EdgeTable) :
  (forall r, bucket et' (r + k) = map (shiftEdge k) (bucket et r)) ->
  forall (n : nat) (y : Z) (aet : list EdgeData),
    runRows emitTriangles n et' (y + k) (map (shiftEdge k) aet)
    = map (map (shiftPoint k)) (runRows emitTriangles n et y aet).
Proof.
  intros Hb. induction n as [|n IH]; intros y aet; simpl; auto.
  rewrite (mergeRow_shift k et et' Hb), nextAET_shift, map_app.
  rewrite emitTriangles_shift.
  replace (y + k + 1) with (y + 1 + k) by lia. rewrite IH. reflexivity.
Qed.

(** Where the loops of a table and of the table moved by [k] rows start:
    both tables are empty, or the moved loop starts [k] rows further. *)
Lemma start_translate (k : Z) (et et' : EdgeTable) :
  (forall r, bucket et' (r + k) = map (shiftEdge k) (bucket et r)) ->
  (tableSize et <= Z.of_nat (skipEmpty et)
   /\ tableSize et' <= Z.of_nat (skipEmpty et'))
  \/ (Z.of_nat (skipEmpty et) < tableSize et
      /\ Z.of_nat (skipEmpty et') = Z.of_nat (skipEmpty et) + k
      /\ Z.of_nat (skipEmpty et') < tableSize et').
Proof.
  intros Hb.
  assert (Hb' : forall r, bucket et' r = map (shiftEdge k) (bucket et (r - k)))
    by (intros r; rewrite <- Hb; f_equal; lia).
  destruct (skipEmpty_spec et) as [Hs0 [Hs1 Hs2]].
  destruct (skipEmpty_spec et') as [Hs0' [Hs1' Hs2']].
  destruct (Z.leb_spec (tableSize et) (Z.of_nat (skipEmpty et)))
    as [Hall|Hsome].
  - left. split; auto.
    assert (He : forall r, bucket et r = []).
    { intros r. destruct (Z.lt_ge_cases r (Z.of_nat (skipEmpty et))); auto.
      apply bucket_outside. lia. }
    destruct (Z.le_gt_cases (tableSize et') (Z.of_nat (skipEmpty et'))); auto.
    exfalso. apply Hs2'; [lia|]. rewrite Hb', He. reflexivity.
  - right. split; auto.
    assert (Hne : bucket et (Z.of_nat (skipEmpty et)) <> []) by auto.
    assert (Hne' : bucket et' (Z.of_nat (skipEmpty et) + k) <> []).
    { rewrite Hb. destruct (bucket et (Z.of_nat (skipEmpty et)));
        [congruence|discriminate]. }
    assert (Hst : Z.of_nat (skipEmpty et') = Z.of_nat (skipEmpty et) + k).
    { apply skipEmpty_unique; auto.
      intros r Hr. rewrite Hb', Hs1 by lia. reflexivity. }
    split; auto. rewrite Hst.
    destruct (Z.lt_ge_cases (Z.of_nat (skipEmpty et) + k) (tableSize et'));
      auto.
    exfalso. apply Hne'. apply bucket_outside. lia.
Qed.

(** X9: when neither the polygon nor its translation by [k] rows is clipped
    against [0, maxHeight), triangulating the translated polygon returns
    the triangles of the polygon, in the same order, every vertex moved by
    [k] rows. *)
Theorem triangulation_vertical_translation (p : list Point2D)
    (maxHeight k : Z) :
  unclipped maxHeight k p ->
  generateTriangulation (translate k p) maxHeight
  = option_map (map (map (shiftPoint k)))
               (generateTriangulation p maxHeight).
Proof.
  intros Hu.
  destruct (scanPolygon_total emitTriangles p maxHeight) as [out Hout].
  destruct (scanPolygon_total emitTriangles (translate k p) maxHeight)
    as [out' Hout'].
  unfold generateTriangulation. rewrite Hout, Hout'. simpl. f_equal.
  unfold scanPolygon in Hout, Hout'. rewrite translate_length in Hout'.
  destruct (length p <? 3)%nat;
    [inversion Hout; inversion Hout'; reflexivity|].
  set (et := buildEdgeTable p maxHeight) in *.
  set (et' := buildEdgeTable (translate k p) maxHeight) in *.
  assert (Hb : forall r, bucket et' (r + k) = map (shiftEdge k) (bucket et r))
    by (intros; apply bucket_translate; auto).
  destruct (start_translate k et et' Hb) as [[H1 H2]|[H1 [H2 H3]]].
  - destruct (Z.leb_spec (tableSize et) (Z.of_nat (skipEmpty et))); [|lia].
    destruct (Z.leb_spec (tableSize et') (Z.of_nat (skipEmpty et'))); [|lia].
    inversion Hout; inversion Hout'; reflexivity.
  - destruct (Z.leb_spec (tableSize et) (Z.of_nat (skipEmpty et))); [lia|].
    destruct (Z.leb_spec (tableSize et') (Z.of_nat (skipEmpty et'))); [lia|].
    rewrite H2 in Hout'.
    set (n := Nat.max (scanFuel et) (scanFuel et')).
    assert (Ho : runRows emitTriangles n et (Z.of_nat (skipEmpty et)) []
                 = out)
      by (eapply scanLoop_runRows;
          [reflexivity | exact Hout | unfold n; lia]).
    assert (Ho' : runRows emitTriangles n et'
                          (Z.of_nat (skipEmpty et) + k) [] = out')
      by (eapply scanLoop_runRows;
          [reflexivity | exact Hout' | unfold n; lia]).
    rewrite <- Ho, <- Ho'.
    apply (runRows_shift_triangles k et et' Hb n
             (Z.of_nat (skipEmpty et)) []).
Qed.

Lemma triangulation_vertical_translation_witness :
  unclipped 12 1 ell
  /\ generateTriangulation (translate 1 ell) 12
     = option_map (map (map (shiftPoint 1))) (generateTriangulation ell 12).
Proof.
  assert (Hu : unclipped 12 1 ell).
  { intros v Hv. simpl in Hv.
    repeat (destruct Hv as [<-|Hv]; [simpl; lia|]). destruct Hv. }
  split; [exact Hu|].
  exact (@triangulation_vertical_translation ell 12 1 Hu).
Defined.

Lemma edgeEntry_height (h1 h2 : Z) (p : list Point2D) (i : nat) :
  withinTable h1 p -> withinTable h2 p -> (i < length p)%nat ->
  edgeEntry p h1 i = edgeEntry p h2 i.
Proof.
  intros Hu Hv Hi. unfold edgeEntry.
  assert (Hn : length p <> O) by lia.
  assert (H1 := Hu _ (vertexAt_In p Hi)).
  assert (H2 := Hu _ (vertexAt_In p
                        (Nat.mod_upper_bound (i + 1) (length p) Hn))).
  assert (H3 := Hu _ (vertexAt_In p
                        (Nat.mod_upper_bound (i + length p - 1)
                                             (length p) Hn))).
  assert (H4 := Hu _ (vertexAt_In p
                        (Nat.mod_upper_bound (i + 2) (length p) Hn))).
  assert (G1 := Hv _ (vertexAt_In p Hi)).
  assert (G2 := Hv _ (vertexAt_In p
                        (Nat.mod_upper_bound (i + 1) (length p) Hn))).
  assert (G3 := Hv _ (vertexAt_In p
                        (Nat.mod_upper_bound (i + length p - 1)
                                             (length p) Hn))).
  assert (G4 := Hv _ (vertexAt_In p
                        (Nat.mod_upper_bound (i + 2) (length p) Hn))).
  destruct (vertexAt p i) as [cx cy].
  destruct (vertexAt p ((i + 1) mod length p)) as [nx ny].
  destruct (vertexAt p ((i + length p - 1) mod length p)) as [px py].
  destruct (vertexAt p ((i + 2) mod length p)) as [qx qy].
  unfold inTable. cbn [coordinateX coordinateY] in *.
  destruct (Z.eqb_spec cy ny) as [Heq|Hne].
  - repeat case_cmp. reflexivity.
  - rewrite Z.gtb_ltb. destruct (Z.ltb_spec ny cy); cbv beta iota zeta;
      cbn [coordinateX coordinateY]; repeat case_cmp; reflexivity.
Qed.

(** Above the last vertex row the height of the table does not change what
    a bucket holds. *)
Lemma bucket_height (h1 h2 : Z) (p : list Point2D) (r : Z) :
  withinTable h1 p -> withinTable h2 p ->
  bucket (buildEdgeTable p h1) r = bucket (buildEdgeTable p h2) r.
Proof.
  intros Hu Hv. destruct (Nat.lt_ge_cases (length p) 2) as [Hn|Hn].
  - unfold buildEdgeTable. destruct (Nat.ltb_spec (length p) 2); [|lia].
    rewrite !bucket_empty_table. reflexivity.
  - rewrite !buildEdgeTable_bucket by auto. f_equal. f_equal.
    unfold entriesOf. apply map_ext_in. intros i Hi. apply in_seq in Hi.
    apply edgeEntry_height; auto. lia.
Qed.

Lemma shiftEdge_0 (l : list EdgeData) : map (shiftEdge 0) l = l.
Proof.
  induction l as [|e l IH]; simpl; auto. rewrite IH. f_equal.
  destruct e; unfold shiftEdge; simpl. f_equal; lia.
Qed.

Lemma emitFill_height (h1 h2 maxWidth y : Z) (aet : list EdgeData) :
  aet = [] \/ (inTable h1 y = true /\ inTable h2 y = true) ->
  emitFill h1 maxWidth y aet = emitFill h2 maxWidth y aet.
Proof.
  intros [->|[H1 H2]]; [reflexivity|].
  unfold emitFill. destruct (2 <=? length aet)%nat; [|reflexivity].
  f_equal.
  - rewrite <- (map_id (forPairs (spanOf h2 maxWidth y) _ _ _)).
    rewrite <- (map_id aet) at 2.
    apply forPairs_map. intros a b. rewrite map_id.
    unfold spanOf. rewrite H1, H2. reflexivity.
  - unfold pointOf. rewrite H1, H2. reflexivity.
Qed.

Section SameBuckets.

Variables (h1 h2 : Z) (et et' : EdgeTable).

Hypothesis same_buckets : forall r, bucket et r = bucket et' r.
Hypothesis table_rows :
  forall r e, In e (bucket et r) -> minimumY e = r /\ r <= maximumY e.
Hypothesis table_fits :
  forall r e, In e (bucket et r) ->
    0 <= r /\ maximumY e < h1 /\ maximumY e < h2.

Lemma mergeRow_same (y : Z) (aet : list EdgeData) :
  mergeRow et y aet = mergeRow et' y aet.
Proof. unfold mergeRow. rewrite same_buckets. reflexivity. Qed.

Lemma runRows_same (Out : Type) (emit : Z -> list EdgeData -> list Out)
    (n : nat) (y : Z) (aet : list EdgeData) :
  runRows emit n et y aet = runRows emit n et' y aet.
Proof.
  revert y aet; induction n as [|n IH]; intros y aet; simpl; auto.
  rewrite mergeRow_same, IH. reflexivity.
Qed.

Lemma runRows_height (maxWidth : Z) (n : nat) (y : Z)
    (aet : list EdgeData) :
  carriedOk y aet ->
  (forall e, In e aet ->
     0 <= minimumY e /\ maximumY e < h1 /\ maximumY e < h2) ->
  runRows (emitFill h1 maxWidth) n et y aet
  = runRows (emitFill h2 maxWidth) n et' y aet.
Proof.
  revert y aet; induction n as [|n IH]; intros y aet Hc Hf; simpl; auto.
  assert (Hok := mergeRow_ok et table_rows Hc).
  assert (Hfit : forall e, In e (mergeRow et y aet) ->
            0 <= minimumY e /\ maximumY e < h1 /\ maximumY e < h2).
  { intros e He. apply mergeRow_In in He. destruct He as [He|He]; auto.
    destruct (table_rows _ _ He) as [-> _]. eapply table_fits; eauto. }
  rewrite <- mergeRow_same. f_equal.
  - apply emitFill_height.
    destruct (mergeRow et y aet) as [|e l] eqn:Hm; [left; reflexivity|].
    right. assert (He : In e (e :: l)) by (simpl; auto).
    destruct (Hok e He) as [H1 _]. specialize (Hfit e He).
    unfold inTable. lia.
  - apply IH.
    + apply nextAET_ok with (et := et); auto.
    + intros e He. apply nextAET_In in He.
      destruct He as [e0 [H0 [-> _]]]. simpl. auto.
Qed.

End SameBuckets.

(** X10: once the table is high enough to hold every vertex row, its height
    no longer matters: for two heights with every vertex row below both,
    [fillPolygon] draws the same primitives and [generateTriangulation]
    returns the same triangles. *)
Theorem height_beyond_polygon_irrelevant (p : list Point2D)
    (h1 h2 maxWidth : Z) :
  withinTable h1 p -> withinTable h2 p ->
  fillPolygon p h1 maxWidth = fillPolygon p h2 maxWidth
  /\ generateTriangulation p h1 = generateTriangulation p h2.
Proof.
  intros Hu Hv.
  set (et := buildEdgeTable p h1). set (et' := buildEdgeTable p h2).
  assert (Hb : forall r, bucket et r = bucket et' r)
    by (intros; apply bucket_height; auto).
  assert (Hb0 : forall r, bucket et' (r + 0) = map (shiftEdge 0) (bucket et r))
    by (intros; rewrite shiftEdge_0, Z.add_0_r; symmetry; apply Hb).
  assert (Hfit : forall r e, In e (bucket et r) ->
                   0 <= r /\ maximumY e < h1 /\ maximumY e < h2).
  { intros r e He.
    destruct (bucket_entry _ _ _ _ He) as [Hn [i [Hi Hent]]].
    destruct (edgeEntry_row _ _ _ Hent) as [H1 _].
    destruct (edgeEntry_ends _ _ _ Hent) as [H4 _].
    destruct (endpoints_In p Hi) as [_ Hhi].
    specialize (Hu _ Hhi). specialize (Hv _ Hhi). lia. }
  assert (Hgen : forall (Out : Type) (e1 e2 : Z -> list EdgeData -> list Out),
            (forall y, e1 y [] = []) -> (forall y, e2 y [] = []) ->
            (forall n, runRows e1 n et (Z.of_nat (skipEmpty et)) []
                       = runRows e2 n et' (Z.of_nat (skipEmpty et)) []) ->
            scanPolygon e1 p h1 = scanPolygon e2 p h2).
  { intros Out e1 e2 Hn1 Hn2 Hrun.
    destruct (scanPolygon_total e1 p h1) as [out Hout].
    destruct (scanPolygon_total e2 p h2) as [out' Hout'].
    rewrite Hout, Hout'. f_equal.
    unfold scanPolygon in Hout, Hout'. fold et in Hout. fold et' in Hout'.
    destruct (length p <? 3)%nat;
      [inversion Hout; inversion Hout'; reflexivity|].
    destruct (start_translate 0 et et' Hb0) as [[H1 H2]|[H1 [H2 H3]]].
    - destruct (Z.leb_spec (tableSize et) (Z.of_nat (skipEmpty et))); [|lia].
      destruct (Z.leb_spec (tableSize et') (Z.of_nat (skipEmpty et')));
        [|lia].
      inversion Hout; inversion Hout'; reflexivity.
    - destruct (Z.leb_spec (tableSize et) (Z.of_nat (skipEmpty et))); [lia|].
      destruct (Z.leb_spec (tableSize et') (Z.of_nat (skipEmpty et')));
        [lia|].
      rewrite H2, Z.add_0_r in Hout'.
      set (n := Nat.max (scanFuel et) (scanFuel et')).
      assert (Ho : runRows e1 n et (Z.of_nat (skipEmpty et)) [] = out)
        by (eapply scanLoop_runRows;
            [exact Hn1 | exact Hout | unfold n; lia]).
      assert (Ho' : runRows e2 n et' (Z.of_nat (skipEmpty et)) [] = out')
        by (eapply scanLoop_runRows;
            [exact Hn2 | exact Hout' | unfold n; lia]).
      rewrite <- Ho, <- Ho'. apply Hrun. }
  split.
  - unfold fillPolygon. apply Hgen; auto.
    intros n. apply (@runRows_height h1 h2 et et' Hb
                       (buildEdgeTable_rows p h1) Hfit maxWidth n).
    + intros e [].
    + intros e [].
  - unfold generateTriangulation. apply Hgen; auto.
    intros n. apply runRows_same. exact Hb.
Qed.

Lemma height_beyond_polygon_irrelevant_witness :
  withinTable 12 ell /\ withinTable 2000 ell
  /\ fillPolygon ell 12 60 = fillPolygon ell 2000 60
  /\ generateTriangulation ell 12 = generateTriangulation ell 2000.
Proof.
  assert (H1 : withinTable 12 ell).
  { intros v Hv. simpl in Hv.
    repeat (destruct Hv as [<-|Hv]; [simpl; lia|]). destruct Hv. }
  assert (H2 : withinTable 2000 ell).
  { intros v Hv. simpl in Hv.
    repeat (destruct Hv as [<-|Hv]; [simpl; lia|]). destruct Hv. }
  split; [exact H1|]. split; [exact H2|].
  exact (@height_beyond_polygon_irrelevant ell 12 2000 60 H1 H2).
Defined.

(* ================================================================== *)
(** * The order of the AET *)

Lemma ltb_asym (x y : Double.double) :
  Double.ltb x y = true -> Double.ltb y x = false.
Proof.
  unfold Double.ltb, SFltb, SFcompare.
  destruct x as [sx|sx| |sx mx ex], y as [sy|sy| |sy my ey];
    try destruct sx; try destruct sy; simpl; try congruence.
  - rewrite (Z.compare_antisym ex ey).
    destruct (ex ?= ey) eqn:He; simpl; try congruence.
    rewrite !Pos.compare_cont_spec. simpl.
    rewrite (Pos.compare_antisym mx my).
    destruct (mx ?= my)%positive; simpl; congruence.
  - rewrite (Z.compare_antisym ex ey).
    destruct (ex ?= ey) eqn:He; simpl; try congruence.
    rewrite !Pos.compare_cont_spec. simpl.
    rewrite (Pos.compare_antisym mx my).
    destruct (mx ?= my)%positive; simpl; congruence.
Qed.

Lemma insertByX_ascending (e : EdgeData) (l : list EdgeData) :
  ascendingX l -> ascendingX (insertByX e l).
Proof.
  unfold ascendingX. induction l as [|h t IH]; simpl; intros Hs.
  - repeat constructor.
  - inversion Hs as [|? ? Ht Hh]; subst.
    destruct (Double.ltb (currentX h) (currentX e)) eqn:Hlt.
    + constructor; [apply IH; exact Ht|].
      destruct t as [|h' t']; simpl.
      * constructor. apply ltb_asym. exact Hlt.
      * destruct (Double.ltb (currentX h') (currentX e)).
        -- inversion Hh; subst. constructor. assumption.
        -- constructor. apply ltb_asym. exact Hlt.
    + constructor; [exact Hs|]. constructor. exact Hlt.
Qed.

Lemma sortAET_ascending (l : list EdgeData) : ascendingX (sortAET l).
Proof.
  induction l as [|h t IH]; simpl; [constructor|].
  apply insertByX_ascending. exact IH.
Qed.

(** X11: on every row the loop visits, the emission step sees the AET in
    ascending order of [currentX]: no edge is followed by an edge with a
    smaller [currentX]. *)
Theorem aet_sorted_at_emission (p : list Point2D) (maxHeight : Z)
    (tr : list (Z * list EdgeData)) (y : Z) (aet : list EdgeData) :
  scanTrace p maxHeight = Some tr ->
  In (y, aet) tr ->
  Sorted (fun a b => Double.ltb (currentX b) (currentX a) = false) aet.
Proof.
  unfold scanTrace, scanPolygon. intros Htr Hin.
  destruct (length p <? 3)%nat; [inversion Htr; subst; destruct Hin|].
  destruct (_ <=? _); [inversion Htr; subst; destruct Hin|].
  revert Htr Hin.
  generalize (scanFuel (buildEdgeTable p maxHeight)) as fuel.
  generalize (Z.of_nat (skipEmpty (buildEdgeTable p maxHeight))) as y0.
  generalize (@nil EdgeData) as aet0.
  intros aet0 y0 fuel. revert aet0 y0 tr.
  induction fuel as [|fuel IH]; intros aet0 y0 tr; [discriminate|].
  cbn [scanLoop]. destruct (scanning _ y0 aet0).
  - destruct (isEmpty _ && _).
    + intros H Hin. inversion H; subst.
      destruct Hin as [Hin|[]]. inversion Hin; subst.
      apply sortAET_ascending.
    + destruct (scanLoop emitState fuel _ (y0 + 1) _) as [rest|] eqn:Hr;
        [|discriminate].
      intros H Hin. inversion H; subst.
      destruct Hin as [Hin|Hin].
      * inversion Hin; subst. apply sortAET_ascending.
      * eapply IH; eauto.
  - intros H Hin. inversion H; subst. destruct Hin.
Qed.

Lemma aet_sorted_at_emission_witness :
  scanTrace ell 12 = Some (traceOf ell 12)
  /\ In (5, [ellLeft; ellStep]) (traceOf ell 12)
  /\ Sorted (fun a b => Double.ltb (currentX b) (currentX a) = false)
            [ellLeft; ellStep].
Proof.
  assert (H2 : scanTrace ell 12 = Some (traceOf ell 12))
    by (vm_compute; reflexivity).
  assert (H3 : In (5, [ellLeft; ellStep]) (traceOf ell 12))
    by (vm_compute; do 5 right; left; reflexivity).
  split; [exact H2|]. split; [exact H3|].
  exact (@aet_sorted_at_emission ell 12 (traceOf ell 12) 5
           [ellLeft; ellStep] H2 H3).
Defined.

(* ================================================================== *)
(** * The extruded mesh *)

Lemma fold_outline (centerX centerY z : Float32.float)
    (pts : list Point2D) (obj : Object3D) :
  fold_left (addOutlineVertex centerX centerY z) pts obj
  = mkObject3D (vertices obj ++ map (outlineVertex centerX centerY z) pts)
               (faces obj).
Proof.
  revert obj; induction pts as [|p pts IH]; intros obj; simpl.
  - rewrite app_nil_r. destruct obj; reflexivity.
  - rewrite IH. unfold addOutlineVertex, addVertex. simpl.
    rewrite <- app_assoc. reflexivity.
Qed.

Lemma fold_sideFaces (n : nat) (l : list nat) (obj : Object3D) :
  fold_left (fun o i => addFace o (sideFace n i)) l obj
  = mkObject3D (vertices obj) (faces obj ++ map (sideFace n) l).
Proof.
  revert obj; induction l as [|i l IH]; intros obj; simpl.
  - rewrite app_nil_r. destruct obj; reflexivity.
  - rewrite IH. unfold addFace. simpl. rewrite <- app_assoc. reflexivity.
Qed.

Lemma addCapFace_spec (centerX centerY z : Float32.float)
    (obj : Object3D) (points : list Point2D) :
  addCapFace centerX centerY z obj points
  = mkObject3D
      (vertices obj ++ map (outlineVertex centerX centerY z) points)
      (faces obj ++ [seq (length (vertices obj)) (length points)]).
Proof.
  unfold addCapFace.
  assert (H : forall pts o fi,
    fold_left
      (fun (state : Object3D * list nat) p =>
         let obj1 := addOutlineVertex centerX centerY z (fst state) p in
         (obj1, snd state ++ [(length (vertices obj1) - 1)%nat]))
      pts (o, fi)
    = (mkObject3D (vertices o ++ map (outlineVertex centerX centerY z) pts)
                  (faces o),
       fi ++ seq (length (vertices o)) (length pts))).
  { induction pts as [|p pts IH]; intros o fi; simpl.
    - rewrite !app_nil_r. destruct o; reflexivity.
    - rewrite IH. unfold addOutlineVertex, addVertex. simpl.
      rewrite length_app. simpl. rewrite <- !app_assoc. simpl.
      replace (length (vertices o) + 1 - 1)%nat with (length (vertices o))
        by lia.
      replace (length (vertices o) + 1)%nat with (S (length (vertices o)))
        by lia.
      reflexivity. }
  rewrite H. unfold addFace. simpl. reflexivity.
Qed.

(** A cap over triangles that all list three points. *)
Lemma fold_cap (centerX centerY z : Float32.float)
    (g : Triangle -> list Point2D) (tris : list Triangle) (obj : Object3D) :
  (forall t, In t tris -> length (g t) = 3%nat) ->
  fold_left (fun o t => addCapFace centerX centerY z o (g t)) tris obj
  = mkObject3D
      (vertices obj
       ++ flat_map (fun t => map (outlineVertex centerX centerY z) (g t)) tris)
      (faces obj ++ capFaces (length (vertices obj)) (length tris)).
Proof.
  revert obj; induction tris as [|t tris IH]; intros obj Hg.
  - unfold capFaces. simpl. rewrite !app_nil_r. destruct obj; reflexivity.
  - cbn [fold_left]. rewrite IH by (intros; apply Hg; simpl; auto).
    rewrite addCapFace_spec. cbn [vertices faces flat_map length].
    rewrite length_app, length_map, (Hg t) by (simpl; auto).
    rewrite <- !app_assoc. f_equal. f_equal.
    unfold capFaces.
    change (seq 0 (S (length tris))) with (0%nat :: seq 1 (length tris)).
    rewrite map_cons. cbn [app]. f_equal.
    + f_equal. lia.
    + rewrite <- seq_shift, map_map. apply map_ext. intros j.
      f_equal. lia.
Qed.

Lemma capTriangles_arity (vertices2D : list Point2D) (t : Triangle) :
  In t (capTriangles vertices2D) -> length t = 3%nat.
Proof.
  unfold capTriangles, generateTriangulation.
  rewrite scanPolygon_trace.
  destruct (scanTrace vertices2D 2000) as [tr|]; simpl; [|tauto].
  intros H. apply in_flat_map in H. destruct H as [s [_ H]].
  apply emitTriangles_shape in H.
  destruct H as [x1 [x2 [x3 [-> | ->]]]]; reflexivity.
Qed.

(** The mesh, vertex by vertex and face by face. *)
Lemma extrudedMesh_spec (vertices2D : list Point2D) (depth : Float32.float) :
  let n := length vertices2D in
  let tris := capTriangles vertices2D in
  let cx := centroidOf coordinateX vertices2D in
  let cy := centroidOf coordinateY vertices2D in
  extrudedMesh vertices2D depth
  = mkObject3D
      (map (outlineVertex cx cy (zFrontOf depth)) vertices2D
       ++ map (outlineVertex cx cy (zBackOf depth)) vertices2D
       ++ flat_map (fun t => map (outlineVertex cx cy (zFrontOf depth)) t)
                   tris
       ++ flat_map (fun t => map (outlineVertex cx cy (zBackOf depth))
                                 (backPoints t)) tris)
      (map (sideFace n) (seq 0 n)
       ++ capFaces (2 * n) (length tris)
       ++ capFaces (2 * n + 3 * length tris) (length tris)).
Proof.
  intros n tris cx cy. unfold extrudedMesh.
  fold n tris cx cy. fold (zFrontOf depth) (zBackOf depth).
  rewrite !fold_outline, fold_sideFaces.
  rewrite (fold_cap cx cy (zFrontOf depth) (fun t => t))
    by (apply capTriangles_arity).
  rewrite (fold_cap cx cy (zBackOf depth) backPoints)
    by (intros; reflexivity).
  cbn [vertices faces newObject3D app].
  f_equal.
  - rewrite <- !app_assoc. reflexivity.
  - rewrite <- !app_assoc. f_equal. f_equal.
    + f_equal. rewrite length_app, !length_map. fold n. lia.
    + f_equal. rewrite !length_app, !length_map. fold n.
      rewrite flat_map_constant_length with (c := 3%nat).
      * lia.
      * intros t Ht. rewrite length_map.
        apply (@capTriangles_arity vertices2D). exact Ht.
Qed.

Lemma capFaces_In (start count : nat) (f : list nat) :
  In f (capFaces start count) ->
  length f = 3%nat
  /\ forall i, In i f -> (start <= i < start + 3 * count)%nat.
Proof.
  unfold capFaces. rewrite in_map_iff. intros [j [<- Hj]].
  apply in_seq in Hj. split; [apply length_seq|].
  intros i Hi. apply in_seq in Hi. lia.
Qed.

(** X12: the mesh [createExtrudedObject] builds from an outline of [n]
    vertices and the [T] triangles of its scanline triangulation has
    [2n + 6T] vertices and [n + 2T] faces: the [n] side quads
    [i, next, next + n, i + n], then for each cap one face per triangle
    made of the three vertices added for it. *)
Theorem extruded_mesh_layout (vertices2D : list Point2D)
    (depth : Float32.float) :
  let n := length vertices2D in
  let T := length (capTriangles vertices2D) in
  let mesh := extrudedMesh vertices2D depth in
  length (vertices mesh) = (2 * n + 6 * T)%nat
  /\ length (faces mesh) = (n + 2 * T)%nat
  /\ faces mesh
     = map (fun i => [i; ((i + 1) mod n)%nat; ((i + 1) mod n + n)%nat;
                      (i + n)%nat]) (seq 0 n)
       ++ map (fun j => [(2 * n + 3 * j)%nat; S (2 * n + 3 * j);
                         S (S (2 * n + 3 * j))]) (seq 0 T)
       ++ map (fun j => [(2 * n + 3 * T + 3 * j)%nat;
                         S (2 * n + 3 * T + 3 * j);
                         S (S (2 * n + 3 * T + 3 * j))]) (seq 0 T).
Proof.
  intros n T mesh. subst n T mesh. rewrite extrudedMesh_spec.
  cbn [vertices faces]. split; [|split].
  - rewrite !length_app, !length_map.
    rewrite !flat_map_constant_length with (c := 3%nat).
    + unfold Triangle. lia.
    + intros t _. reflexivity.
    + intros t Ht. rewrite length_map.
      apply (@capTriangles_arity vertices2D). exact Ht.
  - unfold capFaces. rewrite !length_app, !length_map, !length_seq. lia.
  - reflexivity.
Qed.

(** X13: the mesh has no dangling index: every index listed by a face is
    the index of a vertex of the mesh; the side faces list four indices
    and the cap faces three. *)
Theorem extruded_mesh_indices_valid (vertices2D : list Point2D)
    (depth : Float32.float) (f : list nat) :
  let mesh := extrudedMesh vertices2D depth in
  In f (faces mesh) ->
  (length f = 4%nat \/ length f = 3%nat)
  /\ forall i, In i f -> (i < length (vertices mesh))%nat.
Proof.
  intros mesh Hf.
  assert (Hlen : length (vertices mesh)
                 = (2 * length vertices2D
                    + 6 * length (capTriangles vertices2D))%nat).
  { subst mesh. rewrite extrudedMesh_spec. cbn [vertices].
    rewrite !length_app, !length_map.
    rewrite !flat_map_constant_length with (c := 3%nat).
    - unfold Triangle. lia.
    - intros t _. reflexivity.
    - intros t Ht. rewrite length_map.
      apply (@capTriangles_arity vertices2D). exact Ht. }
  rewrite Hlen. subst mesh. rewrite extrudedMesh_spec in Hf.
  cbn [faces] in Hf. rewrite !in_app_iff in Hf.
  destruct Hf as [Hf|[Hf|Hf]].
  - apply in_map_iff in Hf. destruct Hf as [i [<- Hi]].
    apply in_seq in Hi. split; [left; reflexivity|].
    assert (Hm : ((i + 1) mod length vertices2D < length vertices2D)%nat)
      by (apply Nat.mod_upper_bound; lia).
    unfold sideFace. intros k Hk. simpl in Hk.
    destruct Hk as [<-|[<-|[<-|[<-|[]]]]]; lia.
  - apply capFaces_In in Hf. destruct Hf as [H3 Hi].
    split; [right; exact H3|]. intros i Hin. specialize (Hi i Hin). lia.
  - apply capFaces_In in Hf. destruct Hf as [H3 Hi].
    split; [right; exact H3|]. intros i Hin. specialize (Hi i Hin). lia.
Qed.

Lemma extruded_mesh_indices_valid_witness :
  In [0; 1; 4; 3]%nat (faces (extrudedMesh vee (Float32.of_int 100)))
  /\ (length [0; 1; 4; 3]%nat = 4%nat \/ length [0; 1; 4; 3]%nat = 3%nat)
  /\ forall i, In i [0; 1; 4; 3]%nat ->
       (i < length (vertices (extrudedMesh vee (Float32.of_int 100))))%nat.
Proof.
  assert (H : In [0; 1; 4; 3]%nat
                 (faces (extrudedMesh vee (Float32.of_int 100))))
    by (vm_compute; left; reflexivity).
  split; [exact H|].
  exact (@extruded_mesh_indices_valid vee (Float32.of_int 100)
           [0; 1; 4; 3]%nat H).
Defined.

Lemma nth_flat_map3 (A B : Type) (f : A -> list B) (dA : A) (d : B)
    (l : list A) :
  (forall x, In x l -> length (f x) = 3%nat) ->
  forall j k, (j < length l)%nat -> (k < 3)%nat ->
    nth (3 * j + k) (flat_map f l) d = nth k (f (nth j l dA)) d.
Proof.
  induction l as [|a l IH]; intros Hf j k Hj Hk; simpl in Hj; [lia|].
  assert (Ha : length (f a) = 3%nat) by (apply Hf; simpl; auto).
  cbn [flat_map]. destruct j as [|j].
  - rewrite Nat.mul_0_r. simpl. apply app_nth1. lia.
  - rewrite app_nth2 by lia. rewrite Ha.
    replace (3 * S j + k - 3)%nat with (3 * j + k)%nat by lia.
    cbn [nth]. apply IH; [|lia|lia].
    intros x Hx. apply Hf. simpl; auto.
Qed.

Lemma binary_round_aux_opp (prec emax : Z) (s : bool) (m e : Z)
    (l : location) :
  binary_round_aux prec emax (negb s) m e l
  = SFopp (binary_round_aux prec emax s m e l).
Proof.
  unfold binary_round_aux.
  destruct (shr_fexp prec emax m e l) as [mrs' e'].
  destruct (shr_fexp prec emax _ e' loc_Exact) as [mrs'' e''].
  destruct (shr_m mrs''); simpl; try reflexivity.
  destruct (e'' <=? emax - prec); reflexivity.
Qed.

(** Halving commutes with negation. *)
Lemma div_two_opp (a : Float32.float) :
  Float32.div (Float32.opp a) Float32.two
  = Float32.opp (Float32.div a Float32.two).
Proof.
  unfold Float32.div, Float32.opp, Float32.two, SFdiv.
  destruct a as [s|s| |s m e]; simpl; rewrite ?xorb_false_r;
    try reflexivity.
  destruct (SFdiv_core_binary Float32.prec Float32.emax (Z.pos m) e
              8388608 (-22)) as [[mz ez] lz].
  apply binary_round_aux_opp.
Qed.

(** X14: the back of the mesh mirrors its front.  The two copies of outline
    vertex [i], at indices [i] and [i + n], have the same x and y, on the
    front plane and on the back plane; and for every triangle [j] of the
    triangulation the back cap lists the three front-cap vertices of that
    triangle in reverse order, moved to the back plane.  The back plane is
    the front plane negated. *)
Theorem extruded_mesh_back_mirrors_front (vertices2D : list Point2D)
    (depth : Float32.float) :
  let n := length vertices2D in
  let T := length (capTriangles vertices2D) in
  let vs := vertices (extrudedMesh vertices2D depth) in
  let d := (Float32.zero, Float32.zero, Float32.zero) in
  zBackOf depth = Float32.opp (zFrontOf depth)
  /\ (forall i, (i < n)%nat ->
        exists x y,
          nth i vs d = (x, y, zFrontOf depth)
          /\ nth (i + n) vs d = (x, y, zBackOf depth))
  /\ (forall j k, (j < T)%nat -> (k < 3)%nat ->
        exists x y,
          nth (2 * n + 3 * j + (2 - k)) vs d = (x, y, zFrontOf depth)
          /\ nth (2 * n + 3 * T + 3 * j + k) vs d = (x, y, zBackOf depth)).
Proof.
  intros n T vs d. subst vs. rewrite extrudedMesh_spec. cbn [vertices].
  set (cx := centroidOf coordinateX vertices2D).
  set (cy := centroidOf coordinateY vertices2D).
  split; [apply div_two_opp|]. split.
  - intros i Hi.
    exists (fst (fst (outlineVertex cx cy (zFrontOf depth)
                        (nth i vertices2D origin)))),
           (snd (fst (outlineVertex cx cy (zFrontOf depth)
                        (nth i vertices2D origin)))).
    split.
    + rewrite app_nth1 by (rewrite length_map; exact Hi).
      rewrite nth_indep with (d' := outlineVertex cx cy (zFrontOf depth) origin)
        by (rewrite length_map; exact Hi).
      rewrite map_nth. reflexivity.
    + rewrite app_nth2 by (rewrite length_map; fold n; lia).
      rewrite length_map. fold n.
      replace (i + n - n)%nat with i by lia.
      rewrite app_nth1 by (rewrite length_map; exact Hi).
      rewrite nth_indep with (d' := outlineVertex cx cy (zBackOf depth) origin)
        by (rewrite length_map; exact Hi).
      rewrite map_nth. reflexivity.
  - intros j k Hj Hk. set (t := nth j (capTriangles vertices2D) []).
    assert (Ht : length t = 3%nat).
    { apply (@capTriangles_arity vertices2D). apply nth_In. exact Hj. }
    assert (Hfl : length (flat_map
                    (fun t0 => map (outlineVertex cx cy (zFrontOf depth)) t0)
                    (capTriangles vertices2D)) = (3 * T)%nat).
    { rewrite flat_map_constant_length with (c := 3%nat).
      - subst T. unfold Triangle. lia.
      - intros t0 Ht0. rewrite length_map.
        apply (@capTriangles_arity vertices2D). exact Ht0. }
    exists (fst (fst (outlineVertex cx cy (zFrontOf depth)
                        (nth (2 - k) t origin)))),
           (snd (fst (outlineVertex cx cy (zFrontOf depth)
                        (nth (2 - k) t origin)))).
    split.
    + rewrite app_nth2 by (rewrite length_map; fold n; lia).
      rewrite length_map. fold n.
      rewrite app_nth2 by (rewrite length_map; fold n; lia).
      rewrite length_map. fold n.
      replace (2 * n + 3 * j + (2 - k) - n - n)%nat
        with (3 * j + (2 - k))%nat by lia.
      rewrite app_nth1 by (rewrite Hfl; lia).
      rewrite (nth_flat_map3 _ [] d)
        by (try (intros t0 Ht0; rewrite length_map;
                 apply (@capTriangles_arity vertices2D); exact Ht0);
            try exact Hj; lia).
      fold t.
      rewrite nth_indep with (d' := outlineVertex cx cy (zFrontOf depth) origin)
        by (rewrite length_map; unfold t in Ht; unfold Triangle in *;
            rewrite Ht; lia).
      rewrite map_nth. reflexivity.
    + rewrite app_nth2 by (rewrite length_map; fold n; lia).
      rewrite length_map. fold n.
      rewrite app_nth2 by (rewrite length_map; fold n; lia).
      rewrite length_map. fold n.
      rewrite app_nth2 by (rewrite Hfl; lia).
      rewrite Hfl.
      replace (2 * n + 3 * T + 3 * j + k - n - n - 3 * T)%nat
        with (3 * j + k)%nat by lia.
      rewrite (@nth_flat_map3 Triangle _ _ ([] : Triangle) d)
        by (try (intros t0 Ht0; reflexivity); try exact Hj; lia).
      fold t.
      rewrite nth_indep with (d' := outlineVertex cx cy (zBackOf depth) origin)
        by (rewrite length_map; simpl; lia).
      rewrite map_nth. unfold backPoints.
      destruct k as [|[|[|k]]]; try lia; reflexivity.
Qed.

(* ================================================================== *)
(** ** Exact [double] arithmetic on integer columns

    Every [int] is a [double]: the conversion [static_cast<double>(int)]
    is exact, and so are the sums the scanline loop forms from it when
    the slope is zero. *)

Lemma Zpos_iter_xO (m d : positive) :
  Zpos (Pos.iter xO m d) = Zpos m * 2 ^ Zpos d.
Proof.
  revert m. induction d using Pos.peano_ind; intros m.
  - simpl. lia.
  - rewrite Pos.iter_succ. rewrite Pos2Z.inj_xO, IHd.
    rewrite Pos2Z.inj_succ, Z.pow_succ_r by lia. lia.
Qed.

Lemma digits2_iter_xO (m d : positive) :
  digits2_pos (Pos.iter xO m d) = (digits2_pos m + d)%positive.
Proof.
  induction d using Pos.peano_ind.
  - simpl. lia.
  - rewrite Pos.iter_succ. simpl. rewrite IHd. lia.
Qed.

Lemma digits2_size (m : positive) : digits2_pos m = Pos.size m.
Proof. induction m; simpl; congruence. Qed.

Lemma digits2_bound (m : positive) (k : Z) :
  0 <= k -> Zpos m < 2 ^ k -> Zpos (digits2_pos m) <= k.
Proof.
  intros Hk Hm. rewrite digits2_size.
  destruct (Z.le_gt_cases (Zpos (Pos.size m)) k) as [H|H]; auto.
  exfalso. assert (Hs := Pos.size_le m).
  assert (2 ^ (k + 1) <= 2 ^ Zpos (Pos.size m)) by (apply Z.pow_le_mono_r; lia).
  rewrite Z.pow_add_r in H0 by lia.
  rewrite <- Pos2Z.inj_pow in H0. lia.
Qed.

Lemma iter_pos_shr (p q : positive) :
  iter_pos shr_1 p (Build_shr_record (Zpos (Pos.iter xO q p)) false false)
  = Build_shr_record (Zpos q) false false.
Proof.
  revert q. induction p as [p IH|p IH|]; intros q; simpl.
  - rewrite IH. rewrite IH. reflexivity.
  - rewrite IH, IH. reflexivity.
  - reflexivity.
Qed.


Lemma fexp_normal (e : Z) : -1021 <= e -> fexp Double.prec Double.emax e = e - 53.
Proof. intros H. unfold fexp, emin, Double.prec, Double.emax. lia. Qed.

Lemma binary_round_aux_exact (s : bool) (M : positive) (e : Z) :
  Zpos (digits2_pos M) = 53 -> -1074 <= e <= 971 ->
  binary_round_aux Double.prec Double.emax s (Zpos M) e loc_Exact = S754_finite s M e.
Proof.
  intros HM He. unfold binary_round_aux, shr_fexp.
  cbn [Zdigits2]. rewrite HM.
  rewrite fexp_normal by lia.
  replace (53 + e - 53 - e) with 0 by lia.
  cbn [shr shr_record_of_loc shr_m shr_r shr_s loc_of_shr_record
       round_nearest_even Zdigits2].
  rewrite HM. rewrite fexp_normal by lia.
  replace (53 + e - 53 - e) with 0 by lia.
  cbn [shr shr_record_of_loc shr_m shr_r shr_s loc_of_shr_record].
  replace (e <=? Double.emax - Double.prec) with true by (unfold Double.emax, Double.prec; lia).
  reflexivity.
Qed.

Lemma binary_round_aux_trailing (s : bool) (q p : positive) (e : Z) :
  Zpos (digits2_pos q) = 53 -> -1074 <= e -> e + Zpos p <= 971 ->
  binary_round_aux Double.prec Double.emax s (Zpos (Pos.iter xO q p)) e loc_Exact
  = S754_finite s q (e + Zpos p).
Proof.
  intros Hq He He'. unfold binary_round_aux, shr_fexp.
  cbn [Zdigits2]. rewrite digits2_iter_xO, Pos2Z.inj_add, Hq.
  rewrite fexp_normal by lia.
  replace (53 + Zpos p + e - 53 - e) with (Zpos p) by lia.
  cbn [shr shr_record_of_loc]. rewrite iter_pos_shr.
  cbn [shr_m shr_r shr_s loc_of_shr_record round_nearest_even Zdigits2].
  rewrite Hq. rewrite fexp_normal by lia.
  replace (53 + (e + Zpos p) - 53 - (e + Zpos p)) with 0 by lia.
  cbn [shr shr_record_of_loc shr_m shr_r shr_s loc_of_shr_record].
  replace (e + Zpos p <=? Double.emax - Double.prec) with true by (unfold Double.emax, Double.prec; lia).
  reflexivity.
Qed.

Lemma binary_round_short (s : bool) (m d : positive) (e : Z) :
  Zpos (digits2_pos m) + Zpos d = 53 -> -1074 <= e - Zpos d -> e - Zpos d <= 971 ->
  binary_round Double.prec Double.emax s m e = S754_finite s (Pos.iter xO m d) (e - Zpos d).
Proof.
  intros Hm He He'. unfold binary_round.
  rewrite fexp_normal by lia.
  replace (Zpos (digits2_pos m) + e - 53) with (e - Zpos d) by lia.
  unfold shl_align. replace (e - Zpos d - e) with (Zneg d) by lia.
  unfold shl_align.
  apply binary_round_aux_exact; [|lia].
  rewrite digits2_iter_xO. lia.
Qed.

Lemma binary_round_long (s : bool) (q p : positive) (e : Z) :
  Zpos (digits2_pos q) = 53 -> -1074 <= e -> e + Zpos p <= 971 ->
  binary_round Double.prec Double.emax s (Pos.iter xO q p) e = S754_finite s q (e + Zpos p).
Proof.
  intros Hq He He'. unfold binary_round.
  rewrite digits2_iter_xO, Pos2Z.inj_add, Hq.
  rewrite fexp_normal by lia.
  replace (53 + Zpos p + e - 53) with (e + Zpos p) by lia.
  unfold shl_align. replace (e + Zpos p - e) with (Zpos p) by lia.
  now apply binary_round_aux_trailing.
Qed.

Lemma of_int_pos (m : positive) :
  Zpos m < 2 ^ 52 ->
  exists d, Zpos (digits2_pos m) + Zpos d = 53 /\
    Double.of_int (Zpos m) = S754_finite false (Pos.iter xO m d) (Zneg d).
Proof.
  intros Hm. assert (HD := @digits2_bound m 52 ltac:(lia) Hm).
  exists (Z.to_pos (53 - Zpos (digits2_pos m))).
  assert (Hd : Zpos (digits2_pos m) + Zpos (Z.to_pos (53 - Zpos (digits2_pos m))) = 53).
  { rewrite Z2Pos.id; lia. }
  split; [exact Hd|].
  unfold Double.of_int, binary_normalize.
  rewrite (@binary_round_short false m _ 0 Hd) by lia.
  reflexivity.
Qed.

Lemma of_int_neg (m : positive) :
  Zpos m < 2 ^ 52 ->
  exists d, Zpos (digits2_pos m) + Zpos d = 53 /\
    Double.of_int (Zneg m) = S754_finite true (Pos.iter xO m d) (Zneg d).
Proof.
  intros Hm. assert (HD := @digits2_bound m 52 ltac:(lia) Hm).
  exists (Z.to_pos (53 - Zpos (digits2_pos m))).
  assert (Hd : Zpos (digits2_pos m) + Zpos (Z.to_pos (53 - Zpos (digits2_pos m))) = 53).
  { rewrite Z2Pos.id; lia. }
  split; [exact Hd|].
  unfold Double.of_int, binary_normalize.
  rewrite (@binary_round_short true m _ 0 Hd) by lia.
  reflexivity.
Qed.

Lemma to_int_of_int (z : Z) : - 2 ^ 52 < z < 2 ^ 52 -> Double.to_int (Double.of_int z) = z.
Proof.
  intros Hz. destruct z as [|m|m].
  - reflexivity.
  - destruct (@of_int_pos m) as (d & Hd & ->); [lia|].
    cbn [Double.to_int]. change (0 <=? Z.neg d) with false. cbv iota.
    rewrite Z.shiftr_div_pow2 by lia. rewrite Zpos_iter_xO.
    cbn [Z.opp]. apply Z.div_mul. lia.
  - destruct (@of_int_neg m) as (d & Hd & ->); [lia|].
    cbn [Double.to_int]. change (0 <=? Z.neg d) with false. cbv iota.
    rewrite Z.shiftr_div_pow2 by lia. rewrite Zpos_iter_xO.
    cbn [Z.opp]. rewrite Z.div_mul by lia. reflexivity.
Qed.

Lemma round_of_int (z : Z) :
  0 <= z < 2 ^ 51 -> Double.to_int (Double.add (Double.of_int z) Double.half) = z.
Proof.
  intros Hz. destruct z as [|m|m]; [reflexivity| |lia].
  destruct (@of_int_pos m) as (d & Hd & ->); [lia|].
  assert (HD := @digits2_bound m 51 ltac:(lia) ltac:(lia)).
  set (D := digits2_pos m) in *.
  assert (Hd' : Zpos d = Zpos (Pos.pred d) + 1) by lia.
  set (d' := Pos.pred d) in *.
  unfold Double.add, Double.half, SFadd.
  replace (Z.min (Z.neg d) (-53)) with (-53) by lia.
  unfold shl_align at 1. replace (-53 - Z.neg d) with (Z.neg D) by lia.
  cbn [fst cond_Zopp shl_align Z.sub Z.add Z.opp Z.pos_sub Pos.compare Pos.compare_cont
       Z.double Z.succ_double Z.pred_double].
  unfold binary_normalize.
  replace (Pos.iter xO (Pos.iter xO m d) D + 4503599627370496)%positive
    with (Pos.iter xO (Pos.iter xO (xI m) d') D).
  2:{ apply Pos2Z.inj. rewrite Pos2Z.inj_add. rewrite !Zpos_iter_xO.
      rewrite Pos2Z.inj_xI. rewrite Hd'. rewrite Z.pow_add_r by lia.
      assert (E : 2 ^ Zpos d' * 2 ^ Zpos D = 2 ^ 52).
      { rewrite <- Z.pow_add_r by lia. f_equal. lia. }
      change (Zpos 4503599627370496) with (2 ^ 52). rewrite <- E.
      change (2 ^ 1) with 2. ring. }
  rewrite binary_round_long.
  - cbn [Double.to_int]. replace (0 <=? -53 + Zpos D) with false by lia.
    rewrite Z.shiftr_div_pow2 by lia. rewrite Zpos_iter_xO.
    replace (- (-53 + Zpos D)) with (Zpos d' + 1) by lia.
    rewrite Z.pow_add_r by lia. change (2 ^ 1) with 2.
    rewrite (Z.mul_comm (2 ^ Zpos d') 2).
    rewrite Z.div_mul_cancel_r by lia.
    rewrite Pos2Z.inj_xI. symmetry. apply Z.div_unique with 1; lia.
  - rewrite digits2_iter_xO. cbn [digits2_pos]. fold D. lia.
  - lia.
  - lia.
Qed.

Lemma add_of_int_zero (z : Z) (s : bool) :
  - 2 ^ 52 < z < 2 ^ 52 ->
  Double.add (Double.of_int z) (S754_zero s) = Double.of_int z.
Proof.
  intros Hz. destruct z as [|m|m].
  - destruct s; reflexivity.
  - destruct (@of_int_pos m) as (d & _ & ->); [lia|]. reflexivity.
  - destruct (@of_int_neg m) as (d & _ & ->); [lia|]. reflexivity.
Qed.

Lemma slope_vertical (p1 p2 : Point2D) :
  coordinateX p1 = coordinateX p2 ->
  coordinateY p1 <> coordinateY p2 ->
  - 2 ^ 52 < coordinateY p2 - coordinateY p1 < 2 ^ 52 ->
  exists s, calculateInverseSlope p1 p2 = S754_zero s.
Proof.
  intros Hx Hy Hr. unfold calculateInverseSlope.
  rewrite Hx, Z.sub_diag.
  destruct (coordinateY p2 - coordinateY p1) as [|m|m] eqn:E; [lia| |].
  - destruct (@of_int_pos m) as (d & _ & ->); [lia|].
    exists false. reflexivity.
  - destruct (@of_int_neg m) as (d & _ & ->); [lia|].
    exists true. reflexivity.
Qed.

Lemma edgeEntry_vertical (p : list Point2D) (maxHeight : Z) (i : nat)
    (r : Z) (e : EdgeData) (x : Z) :
  edgeEntry p maxHeight i = Some (r, e) ->
  coordinateX (vertexAt p i) = x ->
  coordinateX (vertexAt p ((i + 1) mod length p)) = x ->
  coordinateY (vertexAt p i)
  <> coordinateY (vertexAt p ((i + 1) mod length p)) ->
  - 2 ^ 31 <= x < 2 ^ 31 ->
  - 2 ^ 31 <= coordinateY (vertexAt p i) < 2 ^ 31 ->
  - 2 ^ 31 <= coordinateY (vertexAt p ((i + 1) mod length p)) < 2 ^ 31 ->
  currentX e = Double.of_int x
  /\ exists s, inverseSlope e = S754_zero s.
Proof.
  intros He Hc Hn Hy Hx Hcy Hny.
  assert (Hup : exists s,
            calculateInverseSlope (vertexAt p i)
              (vertexAt p ((i + 1) mod length p)) = S754_zero s).
  { apply slope_vertical; [congruence|auto|lia]. }
  assert (Hdn : exists s,
            calculateInverseSlope (vertexAt p ((i + 1) mod length p))
              (vertexAt p i) = S754_zero s).
  { apply slope_vertical; [congruence|auto|lia]. }
  destruct Hup as (s1 & Hup). destruct Hdn as (s2 & Hdn).
  revert He. unfold edgeEntry.
  destruct (Z.eqb_spec (coordinateY (vertexAt p i))
              (coordinateY (vertexAt p ((i + 1) mod length p))));
    [contradiction|].
  rewrite Z.gtb_ltb.
  destruct (Z.ltb_spec (coordinateY (vertexAt p ((i + 1) mod length p)))
              (coordinateY (vertexAt p i))); cbv beta iota zeta.
  - rewrite Hdn, Hn, (@add_of_int_zero x s2) by lia.
    intros He. repeat case_if; inversion He; subst e; simpl; eauto.
  - rewrite Hup, Hc, (@add_of_int_zero x s1) by lia.
    intros He. repeat case_if; inversion He; subst e; simpl; eauto.
Qed.

Lemma advance_vertical (e : EdgeData) (x : Z) (s : bool) (n : nat) :
  - 2 ^ 52 < x < 2 ^ 52 ->
  currentX e = Double.of_int x -> inverseSlope e = S754_zero s ->
  advance n e = e.
Proof.
  intros Hx Hc Hs. induction n as [|n IH]; [reflexivity|].
  cbn [advance]. rewrite IH. unfold advanceX.
  rewrite Hc, Hs, add_of_int_zero by lia. rewrite <- Hc, <- Hs.
  destruct e; reflexivity.
Qed.

(* ================================================================== *)
(** ** Rectangles *)

Lemma rectangle_entries (x0 y0 x1 y1 maxHeight : Z) :
  - 2 ^ 31 <= x0 < 2 ^ 31 -> - 2 ^ 31 <= x1 < 2 ^ 31 ->
  0 <= y0 -> y0 < y1 -> y1 < maxHeight -> y1 < 2 ^ 31 ->
  exists s1 s3,
    somes (entriesOf (rectangle x0 y0 x1 y1) maxHeight)
    = rectangleEdges x0 y0 x1 y1 s1 s3.
Proof.
  intros Hx0 Hx1 Hy0 Hy Hh Hy1.
  destruct (@slope_vertical (pt x1 y0) (pt x1 y1)) as (s1 & Hs1);
    [reflexivity|simpl; lia|simpl; lia|].
  destruct (@slope_vertical (pt x0 y0) (pt x0 y1)) as (s3 & Hs3);
    [reflexivity|simpl; lia|simpl; lia|].
  exists s1, s3.
  assert (E0 : edgeEntry (rectangle x0 y0 x1 y1) maxHeight 0
               = Some (y0, mkEdgeData y0 (Double.of_int x0) Double.zero y0)).
  { entry_cases. reflexivity. }
  assert (E1 : edgeEntry (rectangle x0 y0 x1 y1) maxHeight 1
               = Some (y0 + 1, mkEdgeData y1 (Double.of_int x1)
                                 (S754_zero s1) (y0 + 1))).
  { entry_cases. rewrite Hs1, add_of_int_zero by lia. reflexivity. }
  assert (E2 : edgeEntry (rectangle x0 y0 x1 y1) maxHeight 2
               = Some (y1, mkEdgeData y1 (Double.of_int x1) Double.zero y1)).
  { entry_cases. reflexivity. }
  assert (E3 : edgeEntry (rectangle x0 y0 x1 y1) maxHeight 3
               = Some (y0 + 1, mkEdgeData y1 (Double.of_int x0)
                                 (S754_zero s3) (y0 + 1))).
  { entry_cases. rewrite Hs3, add_of_int_zero by lia. reflexivity. }
  unfold entriesOf. change (length (rectangle x0 y0 x1 y1)) with 4%nat.
  cbn [seq map]. rewrite E0, E1, E2, E3. reflexivity.
Qed.

Lemma flat_map_ext_in (A B : Type) (f g : A -> list B) (l : list A) :
  (forall a, In a l -> f a = g a) -> flat_map f l = flat_map g l.
Proof.
  induction l as [|a l IH]; simpl; intros H; [reflexivity|].
  rewrite (H a) by auto. rewrite IH by auto. reflexivity.
Qed.

Lemma flat_map_map (A B C : Type) (f : A -> B) (g : B -> list C)
    (l : list A) :
  flat_map g (map f l) = flat_map (fun a => g (f a)) l.
Proof. induction l as [|a l IH]; simpl; congruence. Qed.

(** The rows of a band [a < y < b] among consecutive rows. *)
Lemma band_rows (A : Type) (f : Z -> A) (a b : Z) (n : nat) (s : Z) :
  flat_map (fun y => if (a <? y) && (y <? b) then [f y] else [])
           (rowsFrom s n)
  = map f (rowsFrom (Z.max s (a + 1))
             (Z.to_nat (Z.min (s + Z.of_nat n) b - Z.max s (a + 1)))).
Proof.
  revert s. induction n as [|n IH]; intros s.
  - replace (Z.to_nat _) with O by lia. reflexivity.
  - cbn [rowsFrom flat_map]. rewrite IH.
    replace (s + 1 + Z.of_nat n) with (s + Z.of_nat (S n)) by lia.
    destruct (Z.ltb_spec a s); destruct (Z.ltb_spec s b); cbn [andb app].
    + replace (Z.max s (a + 1)) with s by lia.
      replace (Z.max (s + 1) (a + 1)) with (s + 1) by lia.
      replace (Z.to_nat (Z.min (s + Z.of_nat (S n)) b - s))
        with (S (Z.to_nat (Z.min (s + Z.of_nat (S n)) b - (s + 1))))
        by lia.
      reflexivity.
    + replace (Z.to_nat (Z.min (s + Z.of_nat (S n)) b - Z.max (s + 1) (a + 1)))
        with O by lia.
      replace (Z.to_nat (Z.min (s + Z.of_nat (S n)) b - Z.max s (a + 1)))
        with O by lia.
      reflexivity.
    + replace (Z.max (s + 1) (a + 1)) with (Z.max s (a + 1)) by lia.
      reflexivity.
    + replace (Z.max (s + 1) (a + 1)) with (Z.max s (a + 1)) by lia.
      reflexivity.
Qed.

Lemma scanTrace_sorted (p : list Point2D) (maxHeight : Z)
    (tr : list (Z * list EdgeData)) (y : Z) (aet : list EdgeData) :
  scanTrace p maxHeight = Some tr ->
  In (y, aet) tr -> ascendingX aet.
Proof.
  unfold scanTrace, scanPolygon. intros Htr Hin.
  destruct (length p <? 3)%nat; [inversion Htr; subst; destruct Hin|].
  destruct (_ <=? _); [inversion Htr; subst; destruct Hin|].
  revert Htr Hin.
  generalize (scanFuel (buildEdgeTable p maxHeight)) as fuel.
  generalize (Z.of_nat (skipEmpty (buildEdgeTable p maxHeight))) as y0.
  generalize (@nil EdgeData) as aet0.
  intros aet0 y0 fuel. revert aet0 y0 tr.
  induction fuel as [|fuel IH]; intros aet0 y0 tr; [discriminate|].
  cbn [scanLoop]. destruct (scanning _ y0 aet0).
  - destruct (isEmpty _ && _).
    + intros H Hin. inversion H; subst.
      destruct Hin as [Hin|[]]. inversion Hin; subst.
      apply sortAET_ascending.
    + destruct (scanLoop emitState fuel _ (y0 + 1) _) as [rest|] eqn:Hr;
        [|discriminate].
      intros H Hin. inversion H; subst.
      destruct Hin as [Hin|Hin].
      * inversion Hin; subst. apply sortAET_ascending.
      * eapply IH; eauto.
  - intros H Hin. inversion H; subst. destruct Hin.
Qed.

(** When the emission of a row is a function [g] of the row alone on every
    sorted arrangement of the edges active there, the output of the loop is
    [g] over the consecutive rows it visits, which include every row with
    an active edge. *)
Lemma scan_by_rows (Out : Type) (emit : Z -> list EdgeData -> list Out)
    (g : Z -> list Out) (p : list Point2D) (maxHeight : Z) :
  (3 <= length p)%nat ->
  (forall y a,
     Permutation a (activeAt (somes (entriesOf p maxHeight)) y) ->
     ascendingX a -> emit y a = g y) ->
  exists n,
    scanPolygon emit p maxHeight
    = Some (flat_map g
              (rowsFrom (Z.of_nat (skipEmpty (buildEdgeTable p maxHeight)))
                        n))
    /\ forall y x, In x (somes (entriesOf p maxHeight)) ->
         isActive y x = true ->
         Z.of_nat (skipEmpty (buildEdgeTable p maxHeight)) <= y
         < Z.of_nat (skipEmpty (buildEdgeTable p maxHeight)) + Z.of_nat n.
Proof.
  intros Hn Hg.
  destruct (scanPolygon_total emitState p maxHeight) as (tr & Htr).
  fold (scanTrace p maxHeight) in Htr.
  destruct (scanTrace_active p maxHeight Hn Htr) as (Hact & Hreach).
  assert (Hrows := scanTrace_rows p maxHeight Htr).
  exists (length tr). split.
  - rewrite scanPolygon_trace, Htr. cbn [option_map]. f_equal.
    rewrite <- Hrows, flat_map_map.
    apply flat_map_ext_in. intros [y a] Hin. cbn [fst snd].
    apply Hg; [apply Hact; exact Hin|].
    eapply scanTrace_sorted; eauto.
  - intros y x Hx Hy. destruct (Hreach y x Hx Hy) as (a & Ha).
    apply rowsFrom_In. rewrite <- Hrows.
    change y with (fst (y, a)). apply in_map. exact Ha.
Qed.

Lemma rectangle_start (x0 y0 x1 y1 maxHeight : Z) (s1 s3 : bool) :
  somes (entriesOf (rectangle x0 y0 x1 y1) maxHeight)
  = rectangleEdges x0 y0 x1 y1 s1 s3 ->
  y0 < y1 ->
  Z.of_nat (skipEmpty (buildEdgeTable (rectangle x0 y0 x1 y1) maxHeight))
  = y0.
Proof.
  intros HE Hy. apply skipEmpty_unique.
  - intros r Hr. rewrite buildEdgeTable_bucket by (simpl; lia).
    rewrite HE. unfold binnedAt, rectangleEdges. cbn [filter fst].
    repeat case_cmp. reflexivity.
  - rewrite buildEdgeTable_bucket by (simpl; lia).
    rewrite HE. unfold binnedAt, rectangleEdges. cbn [filter fst].
    repeat case_cmp; discriminate.
Qed.

Lemma rectangle_active (x0 y0 x1 y1 : Z) (s1 s3 : bool) (y : Z) :
  - 2 ^ 31 <= x0 < 2 ^ 31 -> - 2 ^ 31 <= x1 < 2 ^ 31 ->
  y0 + 1 < y1 ->
  (y0 < y < y1 ->
   activeAt (rectangleEdges x0 y0 x1 y1 s1 s3) y
   = [mkEdgeData y1 (Double.of_int x1) (S754_zero s1) (y0 + 1);
      mkEdgeData y1 (Double.of_int x0) (S754_zero s3) (y0 + 1)])
  /\ (~ y0 < y < y1 ->
      (length (activeAt (rectangleEdges x0 y0 x1 y1 s1 s3) y) <= 1)%nat).
Proof.
  intros Hx0 Hx1 Hy. unfold activeAt, rectangleEdges, isActive.
  cbn [filter fst snd maximumY]. split; intros Hb.
  - repeat case_cmp; cbn [map]; unfold advanceTo; cbn [fst snd];
      rewrite (@advance_vertical _ x1 s1) by (try reflexivity; lia);
      rewrite (@advance_vertical _ x0 s3) by (try reflexivity; lia);
      reflexivity.
  - repeat case_cmp; cbn [map length]; lia.
Qed.

Lemma emitFill_short (maxHeight maxWidth y : Z) (a : list EdgeData) :
  (length a <= 1)%nat -> emitFill maxHeight maxWidth y a = [].
Proof.
  intros H. unfold emitFill.
  destruct (Nat.leb_spec 2 (length a)); [lia|reflexivity].
Qed.

Lemma emitTriangles_short (y : Z) (a : list EdgeData) :
  (length a <= 1)%nat -> emitTriangles y a = [].
Proof.
  intros H. unfold emitTriangles.
  destruct (Nat.leb_spec 2 (length a)); [lia|reflexivity].
Qed.

Lemma spanOf_columns (maxHeight maxWidth y : Z) (a b : EdgeData)
    (xa xb : Z) :
  currentX a = Double.of_int xa -> currentX b = Double.of_int xb ->
  0 <= xa < maxWidth -> 0 <= xb < maxWidth -> maxWidth <= 2 ^ 31 ->
  0 <= y < maxHeight ->
  spanOf maxHeight maxWidth y a b
  = [DrawSpan y (Z.min xa xb) (Z.max xa xb)].
Proof.
  intros Ha Hb Hxa Hxb Hw Hy. unfold spanOf, roundX, inTable.
  rewrite Ha, Hb, !round_of_int by lia.
  replace ((0 <=? y) && (y <? maxHeight)) with true by lia.
  rewrite Z.gtb_ltb. destruct (Z.ltb_spec xb xa); cbv beta iota zeta;
    rewrite !Z.geb_leb.
  - replace (xb <? 0) with false by lia.
    replace (maxWidth <=? xa) with false by lia.
    replace (xb <=? xa) with true by lia.
    rewrite Z.min_r, Z.max_l by lia. reflexivity.
  - replace (xa <? 0) with false by lia.
    replace (maxWidth <=? xb) with false by lia.
    replace (xa <=? xb) with true by lia.
    rewrite Z.min_l, Z.max_r by lia. reflexivity.
Qed.

Lemma band_rows_flat (A : Type) (g : Z -> list A) (a b : Z) (n : nat)
    (s : Z) :
  flat_map (fun y => if (a <? y) && (y <? b) then g y else [])
           (rowsFrom s n)
  = flat_map g (rowsFrom (Z.max s (a + 1))
                  (Z.to_nat (Z.min (s + Z.of_nat n) b - Z.max s (a + 1)))).
Proof.
  assert (Hb := band_rows (fun y : Z => y) a b n s).
  rewrite map_id in Hb. rewrite <- Hb. clear Hb.
  generalize (rowsFrom s n) as l. intros l.
  induction l as [|r l IH]; [reflexivity|].
  cbn [flat_map]. rewrite flat_map_app, <- IH. f_equal.
  destruct ((a <? r) && (r <? b)); simpl; rewrite ?app_nil_r; reflexivity.
Qed.

(** On a rectangle the loop starts at row [y0] and visits every row
    strictly between [y0] and [y1]; an emission step that is silent
    outside these rows emits [g] over them. *)
Lemma rectangle_scan (Out : Type) (emit : Z -> list EdgeData -> list Out)
    (g : Z -> list Out) (x0 y0 x1 y1 maxHeight : Z) (s1 s3 : bool) :
  somes (entriesOf (rectangle x0 y0 x1 y1) maxHeight)
  = rectangleEdges x0 y0 x1 y1 s1 s3 ->
  y0 + 1 < y1 ->
  (forall y a,
     Permutation a (activeAt (rectangleEdges x0 y0 x1 y1 s1 s3) y) ->
     ascendingX a ->
     emit y a = if (y0 <? y) && (y <? y1) then g y else []) ->
  scanPolygon emit (rectangle x0 y0 x1 y1) maxHeight
  = Some (flat_map g (rowsBetween y0 y1)).
Proof.
  intros HE Hy Hg.
  assert (Hs := rectangle_start _ HE ltac:(lia)).
  destruct (@scan_by_rows Out emit
              (fun y => if (y0 <? y) && (y <? y1) then g y else [])
              (rectangle x0 y0 x1 y1) maxHeight) as (n & Hout & Hreach).
  - simpl; lia.
  - rewrite HE. exact Hg.
  - rewrite Hs in *. rewrite Hout. f_equal.
    assert (Hn : y1 - 1 < y0 + Z.of_nat n).
    { apply (Hreach (y1 - 1)
               (y0 + 1, mkEdgeData y1 (Double.of_int x1) (S754_zero s1)
                                   (y0 + 1))).
      - rewrite HE. unfold rectangleEdges. simpl. auto.
      - unfold isActive. cbn [fst snd maximumY]. lia. }
    rewrite band_rows_flat. unfold rowsBetween.
    replace (Z.max y0 (y0 + 1)) with (y0 + 1) by lia.
    replace (Z.min (y0 + Z.of_nat n) y1 - (y0 + 1)) with (y1 - y0 - 1)
      by lia.
    reflexivity.
Qed.

Lemma digits2_mono (m1 m2 : positive) :
  Zpos m1 < Zpos m2 -> Zpos (digits2_pos m1) <= Zpos (digits2_pos m2).
Proof.
  intros H. rewrite !digits2_size.
  assert (H1 := Pos.size_le m1). assert (H2 := Pos.size_gt m2).
  destruct (Z.le_gt_cases (Zpos (Pos.size m1)) (Zpos (Pos.size m2)))
    as [|Hgt]; auto.
  exfalso.
  assert (2 ^ (Zpos (Pos.size m2) + 1) <= 2 ^ Zpos (Pos.size m1))
    by (apply Z.pow_le_mono_r; lia).
  rewrite Z.pow_add_r in H0 by lia.
  rewrite <- !Pos2Z.inj_pow in H0. lia.
Qed.

Lemma ltb_of_int (a b : Z) :
  0 <= a -> a < b -> b < 2 ^ 52 ->
  Double.ltb (Double.of_int a) (Double.of_int b) = true.
Proof.
  intros Ha Hab Hb. destruct b as [|m2|m2]; try lia.
  destruct (@of_int_pos m2) as (d2 & Hd2 & ->); [lia|].
  destruct a as [|m1|m1]; try lia; [reflexivity|].
  destruct (@of_int_pos m1) as (d1 & Hd1 & ->); [lia|].
  assert (Hm := digits2_mono Hab).
  unfold Double.ltb, SFltb, SFcompare.
  destruct (Z.compare_spec (Z.neg d1) (Z.neg d2)) as [E|E|E];
    [|reflexivity|lia].
  assert (d1 = d2) by lia. subst d2.
  change (Pos.compare_cont Eq (Pos.iter xO m1 d1) (Pos.iter xO m2 d1))
    with (Z.compare (Zpos (Pos.iter xO m1 d1)) (Zpos (Pos.iter xO m2 d1))).
  rewrite !Zpos_iter_xO.
  replace (Zpos m1 * 2 ^ Zpos d1 ?= Zpos m2 * 2 ^ Zpos d1) with Lt;
    [reflexivity|].
  symmetry. apply Z.compare_lt_iff.
  apply Z.mul_lt_mono_pos_r; [|exact Hab].
  apply Z.pow_pos_nonneg; lia.
Qed.

(** X15: the column the emission step reads off an edge whose [currentX]
    is the integer [x], [static_cast<int>(currentX + 0.5)], is [x] itself,
    for every non-negative [int]. *)
Theorem integer_column_rounds_to_itself (e : EdgeData) (x : Z) :
  currentX e = Double.of_int x -> 0 <= x < 2 ^ 31 -> roundX e = x.
Proof.
  intros He Hx. unfold roundX. rewrite He. apply round_of_int. lia.
Qed.

Lemma integer_column_rounds_to_itself_witness :
  roundX (mkEdgeData 50 (Double.of_int 639) Double.zero 11) = 639.
Proof.
  apply (@integer_column_rounds_to_itself
           (mkEdgeData 50 (Double.of_int 639) Double.zero 11) 639);
    [reflexivity|lia].
Defined.

(** X16: the edge [buildEdgeTable] makes of a vertical side of any polygon
    (both endpoints in column [x], on different rows, all coordinates in
    the range of [int]) has a zero inverse slope and starts in column [x],
    whether or not its first row was adjusted; the update
    [currentX += inverseSlope] leaves it unchanged on every row, and for
    [x >= 0] the emission step reads column [x] off it on every row. *)
Theorem vertical_side_keeps_column (p : list Point2D) (maxHeight : Z)
    (i : nat) (r : Z) (e : EdgeData) (x : Z) :
  edgeEntry p maxHeight i = Some (r, e) ->
  coordinateX (vertexAt p i) = x ->
  coordinateX (vertexAt p ((i + 1) mod length p)) = x ->
  coordinateY (vertexAt p i)
  <> coordinateY (vertexAt p ((i + 1) mod length p)) ->
  - 2 ^ 31 <= x < 2 ^ 31 ->
  - 2 ^ 31 <= coordinateY (vertexAt p i) < 2 ^ 31 ->
  - 2 ^ 31 <= coordinateY (vertexAt p ((i + 1) mod length p)) < 2 ^ 31 ->
  currentX e = Double.of_int x
  /\ (exists s, inverseSlope e = S754_zero s)
  /\ (forall n, advance n e = e)
  /\ (0 <= x -> forall n, roundX (advance n e) = x).
Proof.
  intros He Hc Hn Hy Hx Hcy Hny.
  destruct (edgeEntry_vertical p maxHeight i He Hc Hn Hy Hx Hcy Hny)
    as (Hcur & s & Hs).
  assert (Hadv : forall n, advance n e = e).
  { intros n. apply (@advance_vertical e x s n); [lia|exact Hcur|exact Hs]. }
  split; [exact Hcur|]. split; [exists s; exact Hs|].
  split; [exact Hadv|].
  intros H0 n. rewrite Hadv. unfold roundX. rewrite Hcur.
  apply round_of_int. lia.
Qed.

Lemma vertical_side_keeps_column_witness :
  currentX squareRight = Double.of_int 50
  /\ (exists s, inverseSlope squareRight = S754_zero s)
  /\ (forall n, advance n squareRight = squareRight)
  /\ (0 <= 50 -> forall n, roundX (advance n squareRight) = 50).
Proof.
  apply (@vertical_side_keeps_column square 600 1 11 squareRight 50);
    try reflexivity; simpl; lia.
Defined.

(** X17: [fillPolygon] on an axis-aligned rectangle with corners
    [(x0, y0)] and [(x1, y1)] inside the raster, at least two rows high,
    draws one span per row strictly between [y0] and [y1], from the
    smaller to the larger of the two columns, and nothing on rows [y0] and
    [y1]. *)
Theorem rectangle_fill (x0 y0 x1 y1 maxHeight maxWidth : Z) :
  0 <= x0 < maxWidth -> 0 <= x1 < maxWidth -> maxWidth <= 2 ^ 31 ->
  0 <= y0 -> y0 + 1 < y1 -> y1 < maxHeight -> maxHeight <= 2 ^ 31 ->
  fillPolygon (rectangle x0 y0 x1 y1) maxHeight maxWidth
  = Some (map (fun y => DrawSpan y (Z.min x0 x1) (Z.max x0 x1))
              (rowsBetween y0 y1)).
Proof.
  intros Hx0 Hx1 Hw Hy0 Hy Hy1 Hh.
  destruct (@rectangle_entries x0 y0 x1 y1 maxHeight) as (s1 & s3 & HE);
    try lia.
  unfold fillPolygon.
  rewrite (@rectangle_scan Drawn (emitFill maxHeight maxWidth)
             (fun y => [DrawSpan y (Z.min x0 x1) (Z.max x0 x1)])
             x0 y0 x1 y1 maxHeight s1 s3 HE Hy).
  - reflexivity.
  - intros y a Hp _.
    destruct (@rectangle_active x0 y0 x1 y1 s1 s3 y) as (Hin & Hout);
      try lia.
    destruct (Z.ltb_spec y0 y); destruct (Z.ltb_spec y y1); cbn [andb];
      try (apply emitFill_short; rewrite (Permutation_length Hp);
           apply Hout; lia).
    rewrite Hin in Hp by lia.
    apply Permutation_sym, Permutation_length_2_inv in Hp.
    rewrite emitFill_pairs.
    destruct Hp as [-> | ->];
      cbn [length Nat.leb pairsOf flat_map fst snd Nat.odd Nat.even negb app].
    + rewrite (@spanOf_columns maxHeight maxWidth y _ _ x1 x0)
        by (try reflexivity; lia).
      rewrite Z.min_comm, Z.max_comm. reflexivity.
    + rewrite (@spanOf_columns maxHeight maxWidth y _ _ x0 x1)
        by (try reflexivity; lia).
      reflexivity.
Qed.

Lemma rectangle_fill_witness :
  fillPolygon (rectangle 50 10 10 50) 600 800
  = Some (map (fun y => DrawSpan y (Z.min 50 10) (Z.max 50 10))
              (rowsBetween 10 50)).
Proof.
  apply (@rectangle_fill 50 10 10 50 600 800); lia.
Defined.

(** X18: [generateTriangulation] on such a rectangle emits, for every row
    [y] strictly between [y0] and [y1] in ascending order, the two
    triangles of the strip from row [y] to row [y + 1] between the two
    columns; the strip from row [y0] to row [y0 + 1] is not covered. *)
Theorem rectangle_triangulation (x0 y0 x1 y1 maxHeight : Z) :
  0 <= x0 < 2 ^ 31 -> 0 <= x1 < 2 ^ 31 ->
  0 <= y0 -> y0 + 1 < y1 -> y1 < maxHeight -> maxHeight <= 2 ^ 31 ->
  generateTriangulation (rectangle x0 y0 x1 y1) maxHeight
  = Some (flat_map (stripOf (Z.min x0 x1) (Z.max x0 x1))
                   (rowsBetween y0 y1)).
Proof.
  intros Hx0 Hx1 Hy0 Hy Hy1 Hh.
  destruct (@rectangle_entries x0 y0 x1 y1 maxHeight) as (s1 & s3 & HE);
    try lia.
  unfold generateTriangulation.
  apply (@rectangle_scan Triangle emitTriangles
           (stripOf (Z.min x0 x1) (Z.max x0 x1))
           x0 y0 x1 y1 maxHeight s1 s3 HE Hy).
  intros y a Hp Hs.
  destruct (@rectangle_active x0 y0 x1 y1 s1 s3 y) as (Hin & Hout);
    try lia.
  destruct (Z.ltb_spec y0 y); destruct (Z.ltb_spec y y1); cbn [andb];
    try (apply emitTriangles_short; rewrite (Permutation_length Hp);
         apply Hout; lia).
  rewrite Hin in Hp by lia.
  apply Permutation_sym, Permutation_length_2_inv in Hp.
  assert (Hstrip : forall xa xb sa sb ya yb,
            0 <= xa < 2 ^ 31 -> 0 <= xb < 2 ^ 31 ->
            emitTriangles y [mkEdgeData ya (Double.of_int xa) (S754_zero sa) yb;
                             mkEdgeData ya (Double.of_int xb) (S754_zero sb) yb]
            = stripOf xa xb y).
  { intros xa xb sa sb ya yb Ha Hb. unfold emitTriangles.
    cbn [length Nat.leb forPairs Nat.ltb Nat.sub nth Nat.add app].
    unfold trapezoid. cbn [currentX inverseSlope].
    rewrite !add_of_int_zero, !to_int_of_int by lia. reflexivity. }
  destruct (Z.lt_total x0 x1) as [Hlt | [Heq | Hgt]].
  - rewrite Z.min_l, Z.max_r by lia.
    destruct Hp as [-> | ->]; [|apply Hstrip; lia].
    exfalso. inversion Hs as [|? ? _ Hr]; subst.
    inversion Hr as [|? ? Hf]; subst. cbn [currentX] in Hf.
    rewrite ltb_of_int in Hf by lia. discriminate.
  - subst x1. rewrite Z.min_id, Z.max_id.
    destruct Hp as [-> | ->]; apply Hstrip; lia.
  - rewrite Z.min_r, Z.max_l by lia.
    destruct Hp as [-> | ->]; [apply Hstrip; lia|].
    exfalso. inversion Hs as [|? ? _ Hr]; subst.
    inversion Hr as [|? ? Hf]; subst. cbn [currentX] in Hf.
    rewrite ltb_of_int in Hf by lia. discriminate.
Qed.

Lemma rectangle_triangulation_witness :
  generateTriangulation (rectangle 10 10 50 50) 2000
  = Some (flat_map (stripOf (Z.min 10 50) (Z.max 10 50))
                   (rowsBetween 10 50)).
Proof.
  apply (@rectangle_triangulation 10 10 50 50 2000); lia.
Defined.

(** X19: a side whose lower endpoint lies outside the rows of the table is
    dropped altogether: [buildEdgeTable] pushes no edge for it, not even
    for the rows of the side that lie inside the table. *)
Theorem side_outside_table_dropped (p : list Point2D) (maxHeight : Z)
    (i : nat) :
  ~ 0 <= coordinateY (lowerEndpoint p i) < maxHeight ->
  edgeEntry p maxHeight i = None.
Proof.
  unfold edgeEntry, lowerEndpoint, inTable.
  destruct (vertexAt p i) as [cx cy].
  destruct (vertexAt p ((i + 1) mod length p)) as [nx ny].
  cbn [coordinateX coordinateY]. intros Hout.
  destruct (Z.eqb_spec cy ny) as [Heq|Hne].
  - rewrite Z.gtb_ltb in Hout.
    destruct (Z.ltb_spec ny cy); [lia|].
    cbn [coordinateY] in Hout. repeat case_cmp; reflexivity.
  - rewrite Z.gtb_ltb in *.
    destruct (Z.ltb_spec ny cy); cbv beta iota zeta;
      cbn [coordinateX coordinateY] in *; repeat case_cmp; reflexivity.
Qed.

Lemma side_outside_table_dropped_witness :
  edgeEntry (rectangle 10 (-5) 50 20) 600 1 = None.
Proof.
  apply (@side_outside_table_dropped (rectangle 10 (-5) 50 20) 600 1).
  simpl. lia.
Defined.

(** X20: when no row has two active edges, neither [fillPolygon] nor
    [generateTriangulation] emits anything.  A rectangle whose first row
    lies above the raster is such a polygon: only the side on its last row
    is in the table, and the part of the rectangle inside the raster is
    not drawn. *)
Theorem lone_edges_draw_nothing (p : list Point2D)
    (maxHeight maxWidth : Z) :
  (forall y,
     (length (filter (isActive y) (somes (entriesOf p maxHeight))) <= 1)%nat)
  ->
  fillPolygon p maxHeight maxWidth = Some []
  /\ generateTriangulation p maxHeight = Some [].
Proof.
  intros Hone.
  assert (Hgen : forall (Out : Type) (emit : Z -> list EdgeData -> list Out),
            (forall y a, (length a <= 1)%nat -> emit y a = []) ->
            scanPolygon emit p maxHeight = Some []).
  { intros Out emit Hemit.
    destruct (Nat.ltb_spec (length p) 3) as [Hlt|Hge].
    - unfold scanPolygon.
      destruct (Nat.ltb_spec (length p) 3); [reflexivity|lia].
    - destruct (@scan_by_rows Out emit (fun _ => []) p maxHeight Hge)
        as (n & Hout & _).
      + intros y a Hp _. apply Hemit.
        rewrite (Permutation_length Hp). unfold activeAt.
        rewrite length_map. apply Hone.
      + rewrite Hout. f_equal.
        generalize (rowsFrom (Z.of_nat (skipEmpty (buildEdgeTable p maxHeight)))
                             n) as l.
        intros l. induction l as [|r l IH]; simpl; auto. }
  split.
  - apply Hgen. intros y a. apply emitFill_short.
  - apply Hgen. intros y a. apply emitTriangles_short.
Qed.

Lemma lone_edges_draw_nothing_witness :
  fillPolygon (rectangle 10 (-5) 50 20) 600 800 = Some []
  /\ generateTriangulation (rectangle 10 (-5) 50 20) 600 = Some [].
Proof.
  apply (@lone_edges_draw_nothing (rectangle 10 (-5) 50 20) 600 800).
  intros y.
  change (somes (entriesOf (rectangle 10 (-5) 50 20) 600))
    with [(20, mkEdgeData 20 (Double.of_int 50) Double.zero 20)].
  cbn [filter]. destruct (isActive y _); simpl; lia.
Defined.

(* ================================================================== *)
(** ** The colour palette *)

(** X21: a click on a pixel of the colour square that
    [renderColorPalette] paints for colour [i] makes [handleMouseClick]
    select colour [i], whatever the size of the drawing area and the colour
    selected before. *)
Theorem palette_click_selects_painted_colour
    (drawingAreaWidth drawingAreaHeight selectedColorIndex i : Z)
    (mouseX mouseY : Z) :
  0 <= i < 16 ->
  inRect (colorRect drawingAreaWidth i) mouseX mouseY ->
  handleMouseClick drawingAreaWidth drawingAreaHeight selectedColorIndex
                   mouseX mouseY = i.
Proof.
  intros Hi. unfold inRect, colorRect, handleMouseClick.
  rewrite (Z.quot_div_nonneg i 4), (Z.rem_mod_nonneg i 4) by lia.
  intros [Hx Hy].
  assert (Hr : 0 <= i mod 4 < 4) by (apply Z.mod_pos_bound; lia).
  assert (Hq : 0 <= i / 4) by (apply Z.div_pos; lia).
  assert (Hi4 : i = 4 * (i / 4) + i mod 4) by (apply Z.div_mod; lia).
  rewrite (Z.quot_div_nonneg (mouseX - (drawingAreaWidth + 10)) 40),
          (Z.quot_div_nonneg (mouseY - 460) 40) by lia.
  assert (Hcx : (mouseX - (drawingAreaWidth + 10)) / 40 = i mod 4).
  { symmetry. apply Z.div_unique with
      (mouseX - (drawingAreaWidth + 10) - 40 * (i mod 4)); lia. }
  assert (Hcy : (mouseY - 460) / 40 = i / 4).
  { symmetry.
    apply Z.div_unique with (mouseY - 460 - 40 * (i / 4)); lia. }
  rewrite Hcx, Hcy, !Z.geb_leb.
  replace (i / 4 * 4 + i mod 4) with i by lia.
  replace (mouseX <? drawingAreaWidth) with false by lia.
  replace (drawingAreaWidth + 10 <=? mouseX) with true by lia.
  replace (mouseX <=? drawingAreaWidth + 170) with true by lia.
  replace (460 <=? mouseY) with true by lia.
  replace (mouseY <=? 620) with true by lia.
  replace (0 <=? i) with true by lia.
  replace (i <? 16) with true by lia.
  reflexivity.
Qed.

Lemma palette_click_selects_painted_colour_witness :
  handleMouseClick 800 600 12 (800 + 10 + 2 * 40 + 34) (460 + 40 + 7) = 6.
Proof.
  apply (@palette_click_selects_painted_colour 800 600 12 6);
    [lia|vm_compute; repeat split; discriminate].
Defined.
